(** * Border-security WSN simulator: simulation and detection engine

    A shallow embedding of the cycle-stepped simulator of
    [main.py], [models.py], [ai_model.py] and [config.py], and the
    properties of its energy model, intrusion lifecycle, reading synthesis,
    cluster aggregation, detection matching and alert severity.

    Conventions of the embedding.
    - Python floats are idealised as exact rationals ([Q]); every property
      below rests on comparisons, [max]/[min] clamps and sums only.
    - Simulation time, durations and the [pir] flag are Python ints ([Z]).
    - Every call to [random] is an explicit draw supplied by the caller
      (records [deploy_draws] and [cycle_draws]).
    - [np.sqrt] and the trained classifier are parameters of the development
      (Section variables): nothing proved here depends on what they compute.
    - Node and cluster-head identifiers ["SN%02d"], ["CH%d"] are represented
      by the number they print. *)

From Stdlib Require Import QArith Qabs Qround ZArith List Bool Lia Lqa PeanoNat.
Import ListNotations.

Local Open Scope Q_scope.

(** ** Python numeric primitives *)

(** [a < b] on floats. *)
Definition Qltb (a b : Q) : bool := negb (Qle_bool b a).

(** Python [max(a, b)]: [b] only when it is strictly larger. *)
Definition py_max (a b : Q) : Q := if Qltb a b then b else a.

(** Python [min(a, b)]: [b] only when it is strictly smaller. *)
Definition py_min (a b : Q) : Q := if Qltb b a then b else a.

(** Python [int(q)]: truncation toward zero. *)
Definition py_int (q : Q) : Z := Z.quot (Qnum q) (Zpos (Qden q)).

(** Truthiness of a number. *)
Definition truthy (q : Q) : bool := negb (Qeq_bool q 0).

Definition Qsum (l : list Q) : Q := fold_left Qplus l 0.

(** [np.mean] of a list, as the exact mean. The float64 result can differ
    from it in the last place, so no statement of this development depends
    on the value of a mean. *)
Definition np_mean (l : list Q) : Q := Qsum l / inject_Z (Z.of_nat (length l)).

(** [np.max] of a non-empty list, [d] standing for the empty case. *)
Definition np_max (d : Q) (l : list Q) : Q :=
  match l with
  | [] => d
  | a :: r => fold_left py_max r a
  end.

(** ** Data model *)

(** Classifier labels; intrusion types are the three non-[normal] ones. *)
Inductive label : Type := normal | human | animal | vehicle.

Definition label_eqb (a b : label) : bool :=
  match a, b with
  | normal, normal | human, human | animal, animal | vehicle, vehicle => true
  | _, _ => false
  end.

(** [CameraModule.status] ("PROCESSING" is declared but never assigned). *)
Inductive cam_state : Type := IDLE | RECORDING | PROCESSING | FAULTY.

Definition cam_eqb (a b : cam_state) : bool :=
  match a, b with
  | IDLE, IDLE | RECORDING, RECORDING | PROCESSING, PROCESSING | FAULTY, FAULTY => true
  | _, _ => false
  end.

Inductive sensor_kind : Type := k_pir | k_vibration | k_thermal | k_acoustic.

Inductive severity : Type := LOW | MEDIUM | HIGH | CRITICAL.

(** [SensorNode.sensor_readings]. *)
Record readings : Type := mkReadings {
  pir : Z;
  vibration : Q;
  thermal : Q;
  acoustic : Q;
  signal_strength : Q;
  intrusion_detected : bool
}.

(** [SensorNode]; [camera_module] is [None] for a node without camera and
    otherwise holds the module's [status]. Of [sensor_stream] only
    [thermal_history] is ever read back. *)
Record SensorNode : Type := mkNode {
  node_id : nat;
  x : Q;
  y : Q;
  has_camera : bool;
  is_active : bool;
  battery : Q;
  cluster_head_id : option nat;
  sensor_readings : readings;
  camera_module : option cam_state;
  camera_status : cam_state;
  thermal_history : list Q
}.

(** Entries of [current_intrusions]. [uid] is the identity of the Python
    dict: the value of [total_intrusions] when it was created. *)
Record intrusion : Type := mkIntrusion {
  uid : nat;
  i_type : label;
  position : Q;
  start_time : Z;
  duration : Z;
  detected : bool;
  affected_nodes : nat
}.

Record sensor_summary : Type := mkSummary {
  total_motion : Z;
  avg_vibration : Q;
  max_vibration : Q;
  avg_temperature : Q;
  max_temperature : Q;
  acoustic_events : nat;
  intrusion_nodes : nat;
  camera_nodes : nat
}.

(** The dict built by [collect_cluster_data]; [summary] is [None] when the
    ['sensor_summary'] key is missing. *)
Record cluster_data : Type := mkClusterData {
  cluster_id : nat;
  cluster_position : Q * Q;
  total_nodes : nat;
  active_members : list nat;
  summary : option sensor_summary;
  battery_levels : list Q
}.

Record ClusterHead : Type := mkHead {
  ch_id : nat;
  ch_x : Q;
  ch_y : Q;
  ch_is_active : bool;
  ch_battery : Q;
  cluster_members : list nat;
  prediction_history : list (label * Q);
  data_buffer : list cluster_data
}.

Record alert : Type := mkAlert {
  alert_id : nat;
  intrusion_type : label;
  confidence : Q;
  a_cluster_id : nat;
  location : Q * Q;
  a_severity : severity;
  a_affected_nodes : nat
}.

(** The part of [SIMULATION_CONFIG] the engine reads. *)
Record config : Type := mkConfig {
  border_length : Q;
  border_width : Q;
  cfg_sensor_nodes : nat;
  cfg_cluster_heads : nat;
  sensor_range : Q;
  camera_node_percentage : Q;
  communication_range : Q;
  confidence_threshold : Q;
  initial_battery_min : Q;
  initial_battery_max : Q;
  solar_recharge_amount : Q;
  detection_ranges : label -> Q;
  duration_min : Z;
  duration_max : Z;
  cycle_duration : Z
}.

Definition SIMULATION_CONFIG : config :=
  {| border_length := 1000;
     border_width := 250;
     cfg_sensor_nodes := 32;
     cfg_cluster_heads := 4;
     sensor_range := 120;
     camera_node_percentage := 25 # 100;
     communication_range := 200;
     confidence_threshold := 95 # 100;
     initial_battery_min := 85;
     initial_battery_max := 100;
     solar_recharge_amount := 12;
     detection_ranges := fun t =>
       match t with human => 70 | animal => 50 | vehicle => 150 | normal => 0 end;
     duration_min := 30;
     duration_max := 60;
     cycle_duration := 1 |}.

(** [PerfectBorderSecuritySimulator]: the fields the cycle reads or writes.
    [performance_metrics] is flattened into its three live counters. *)
Record simulator : Type := mkSim {
  sensor_nodes : list SensorNode;
  cluster_heads : list ClusterHead;
  simulation_time : Z;
  current_intrusions : list intrusion;
  total_intrusions : nat;
  detected_intrusions : nat;
  response_times : list Z;
  intrusion_alerts : list alert;
  cycle_count : nat
}.

(** ** Field updates (Python attribute and dict-item assignment) *)

Definition set_battery (n : SensorNode) (b : Q) : SensorNode :=
  mkNode (node_id n) (x n) (y n) (has_camera n) (is_active n) b
         (cluster_head_id n) (sensor_readings n) (camera_module n)
         (camera_status n) (thermal_history n).

Definition set_cluster_head_id (n : SensorNode) (c : option nat) : SensorNode :=
  mkNode (node_id n) (x n) (y n) (has_camera n) (is_active n) (battery n)
         c (sensor_readings n) (camera_module n)
         (camera_status n) (thermal_history n).

Definition set_readings (n : SensorNode) (r : readings) : SensorNode :=
  mkNode (node_id n) (x n) (y n) (has_camera n) (is_active n) (battery n)
         (cluster_head_id n) r (camera_module n)
         (camera_status n) (thermal_history n).

Definition set_camera_module (n : SensorNode) (c : option cam_state) : SensorNode :=
  mkNode (node_id n) (x n) (y n) (has_camera n) (is_active n) (battery n)
         (cluster_head_id n) (sensor_readings n) c
         (camera_status n) (thermal_history n).

Definition set_camera_status (n : SensorNode) (c : cam_state) : SensorNode :=
  mkNode (node_id n) (x n) (y n) (has_camera n) (is_active n) (battery n)
         (cluster_head_id n) (sensor_readings n) (camera_module n)
         c (thermal_history n).

Definition set_thermal_history (n : SensorNode) (h : list Q) : SensorNode :=
  mkNode (node_id n) (x n) (y n) (has_camera n) (is_active n) (battery n)
         (cluster_head_id n) (sensor_readings n) (camera_module n)
         (camera_status n) h.

Definition set_intrusion_detected (r : readings) (b : bool) : readings :=
  mkReadings (pir r) (vibration r) (thermal r) (acoustic r) (signal_strength r) b.

Definition set_detected (i : intrusion) (b : bool) : intrusion :=
  mkIntrusion (uid i) (i_type i) (position i) (start_time i) (duration i) b
              (affected_nodes i).

Definition set_affected_nodes (i : intrusion) (k : nat) : intrusion :=
  mkIntrusion (uid i) (i_type i) (position i) (start_time i) (duration i)
              (detected i) k.

(** ** Random draws *)

(** Draws of [SensorNode.__init__] and of the [y] offset, per node index. *)
Record deploy_draws : Type := mkDeployDraws {
  draw_y : nat -> Q;
  draw_battery : nat -> Q;
  draw_signal : nat -> Q
}.

(** Draws of one cycle. Per-node draws are indexed by [node_id].
    [sensor_fault] is [Some k] when the 5% fault fires on reading [k];
    [spawn] is [Some (type, position, duration)] when an intrusion spawns. *)
Record cycle_draws : Type := mkCycleDraws {
  sensor_fault : nat -> option sensor_kind;
  camera_fault : nat -> bool;
  camera_recovery : nat -> bool;
  spawn : option (label * Q * Z);
  solar_recharge : nat -> bool
}.

(** ** Deployment ([_deploy_perfect_network]) *)

Definition perfect_camera_positions : list Q :=
  [100; 300; 500; 700; 150; 350; 650; 850].

(** [camera_assigned.add(cam_pos)] on a Python set. *)
Definition set_add (a : Q) (s : list Q) : list Q :=
  if existsb (Qeq_bool a) s then s else s ++ [a].

(** [SensorNode.__init__]. *)
Definition new_sensor_node (dd : deploy_draws) (i : nat) (px py : Q)
    (cam : bool) : SensorNode :=
  mkNode (S i) px py cam true (draw_battery dd i) None
         (mkReadings 0 0 25 0 (draw_signal dd i) false)
         (if cam then Some IDLE else None) IDLE [].

(** The anchor that grants node at [px] a camera, if any: the first
    [cam_pos] with [abs(x - cam_pos) < 25 and len(camera_assigned) < camera_count]. *)
Definition camera_anchor (px : Q) (camera_assigned : list Q)
    (camera_count : Z) : option Q :=
  find (fun cam_pos =>
          Qltb (Qabs (px - cam_pos)) 25
          && (Z.of_nat (length camera_assigned) <? camera_count)%Z)
       perfect_camera_positions.

(** The node loop of deployment over the indices [idxs]. *)
Fixpoint deploy_nodes (cfg : config) (dd : deploy_draws) (camera_count : Z)
    (idxs : list nat) (camera_assigned : list Q) : list SensorNode :=
  match idxs with
  | [] => []
  | i :: rest =>
      let px := (inject_Z (Z.of_nat i) / inject_Z (Z.of_nat (cfg_sensor_nodes cfg)))
                * border_length cfg in
      let py := draw_y dd i in
      match camera_anchor px camera_assigned camera_count with
      | Some cam_pos =>
          new_sensor_node dd i px py true
          :: deploy_nodes cfg dd camera_count rest (set_add cam_pos camera_assigned)
      | None =>
          new_sensor_node dd i px py false
          :: deploy_nodes cfg dd camera_count rest camera_assigned
      end
  end.

Definition camera_quota (cfg : config) : Z :=
  py_int (inject_Z (Z.of_nat (cfg_sensor_nodes cfg)) * camera_node_percentage cfg).

Definition deploy_sensor_nodes (cfg : config) (dd : deploy_draws) : list SensorNode :=
  deploy_nodes cfg dd (camera_quota cfg) (seq 0 (cfg_sensor_nodes cfg)) [].

(** [ClusterHead.__init__] at the [i]-th evenly spaced position. *)
Definition deploy_cluster_heads (cfg : config) : list ClusterHead :=
  map (fun i =>
         mkHead (S i)
                (border_length cfg * inject_Z (Z.of_nat i + 1)
                 / inject_Z (Z.of_nat (cfg_cluster_heads cfg) + 1))
                (border_width cfg / 2)
                true 100 [] [] [])
      (seq 0 (cfg_cluster_heads cfg)).

Section Engine.

(** [np.sqrt]. *)
Variable np_sqrt : Q -> Q.

(** The trained classifier behind [predict] and [predict_proba]:
    [None] when the invocation raises. *)
Variable ai_model : Q * Q * Q * Q -> option (label * Q).

(** [self.config]. *)
Variable cfg : config.

Definition distance (x1 y1 x2 y2 : Q) : Q :=
  np_sqrt ((x1 - x2) ^ 2 + (y1 - y2) ^ 2).

(** [distance < min_distance], [min_distance] starting at [float('inf')]. *)
Definition below (d : Q) (min_distance : option Q) : bool :=
  match min_distance with
  | None => true
  | Some m => Qltb d m
  end.

(** The inner loop of [_assign_clusters] for one node. *)
Fixpoint nearest_head (n : SensorNode) (heads : list ClusterHead)
    (min_distance : option Q) (nearest_ch : option ClusterHead)
    : option ClusterHead :=
  match heads with
  | [] => nearest_ch
  | ch :: rest =>
      let d := distance (x n) (y n) (ch_x ch) (ch_y ch) in
      if below d min_distance && Qle_bool d (communication_range cfg)
      then nearest_head n rest (Some d) (Some ch)
      else nearest_head n rest min_distance nearest_ch
  end.

(** [ClusterHead.add_cluster_member], on the head with id [c] in [heads]. *)
Definition add_cluster_member (c : nat) (n : SensorNode)
    (heads : list ClusterHead) : SensorNode * list ClusterHead :=
  match find (fun ch => Nat.eqb (ch_id ch) c) heads with
  | Some ch =>
      if existsb (Nat.eqb (node_id n)) (cluster_members ch)
      then (n, heads)
      else (set_cluster_head_id n (Some c),
            map (fun h =>
                   if Nat.eqb (ch_id h) c
                   then mkHead (ch_id h) (ch_x h) (ch_y h) (ch_is_active h)
                               (ch_battery h) (cluster_members h ++ [node_id n])
                               (prediction_history h) (data_buffer h)
                   else h) heads)
  | None => (n, heads)
  end.

Fixpoint _assign_clusters (nodes : list SensorNode) (heads : list ClusterHead)
    : list SensorNode * list ClusterHead :=
  match nodes with
  | [] => ([], heads)
  | n :: rest =>
      match nearest_head n heads None None with
      | Some ch =>
          let '(n', heads') := add_cluster_member (ch_id ch) n heads in
          let '(rest', heads'') := _assign_clusters rest heads' in
          (n' :: rest', heads'')
      | None =>
          let '(rest', heads') := _assign_clusters rest heads in
          (n :: rest', heads')
      end
  end.

(** [PerfectBorderSecuritySimulator.__init__]. *)
Definition _deploy_perfect_network (dd : deploy_draws) : simulator :=
  let '(nodes, heads) :=
    _assign_clusters (deploy_sensor_nodes cfg dd) (deploy_cluster_heads cfg) in
  mkSim nodes heads 0%Z [] 0 0 [] [] 0.

(** ** Fault pass (first loop of [run_realtime_cycle]) *)

(** [SensorNode.simulate_sensor_fault("random")]: the drawn reading is set to 0. *)
Definition simulate_sensor_fault (d : cycle_draws) (n : SensorNode) : SensorNode :=
  let r := sensor_readings n in
  match sensor_fault d (node_id n) with
  | None => n
  | Some k_pir =>
      set_readings n (mkReadings 0 (vibration r) (thermal r) (acoustic r)
                                 (signal_strength r) (intrusion_detected r))
  | Some k_vibration =>
      set_readings n (mkReadings (pir r) 0 (thermal r) (acoustic r)
                                 (signal_strength r) (intrusion_detected r))
  | Some k_thermal =>
      set_readings n (mkReadings (pir r) (vibration r) 0 (acoustic r)
                                 (signal_strength r) (intrusion_detected r))
  | Some k_acoustic =>
      set_readings n (mkReadings (pir r) (vibration r) (thermal r) 0
                                 (signal_strength r) (intrusion_detected r))
  end.

(** [simulate_camera_fault("random")] on a non-faulty camera,
    [attempt_auto_recovery] on a faulty one. *)
Definition camera_fault_pass (d : cycle_draws) (n : SensorNode) : SensorNode :=
  match camera_module n with
  | Some st =>
      if has_camera n then
        if negb (cam_eqb st FAULTY)
        then if camera_fault d (node_id n)
             then set_camera_module n (Some FAULTY) else n
        else if camera_recovery d (node_id n)
             then set_camera_module n (Some IDLE) else n
      else n
  | None => n
  end.

Definition fault_pass (d : cycle_draws) (nodes : list SensorNode) : list SensorNode :=
  map (fun n =>
         if is_active n
         then camera_fault_pass d (simulate_sensor_fault d n)
         else n) nodes.

(** ** Intrusion lifecycle ([_simulate_intrusions]) *)

(** The comprehension that keeps the unexpired intrusions. *)
Definition remove_expired (current_time : Z) (ints : list intrusion)
    : list intrusion :=
  filter (fun i => (current_time - start_time i <? duration i)%Z) ints.

Definition _simulate_intrusions (d : cycle_draws) (s : simulator) : simulator :=
  let kept := remove_expired (simulation_time s) (current_intrusions s) in
  match spawn d with
  | Some (intrusion_type, position_x, dur) =>
      mkSim (sensor_nodes s) (cluster_heads s) (simulation_time s)
            (kept ++ [mkIntrusion (total_intrusions s) intrusion_type position_x
                                  (simulation_time s) dur false 0])
            (S (total_intrusions s)) (detected_intrusions s)
            (response_times s) (intrusion_alerts s) (cycle_count s)
  | None =>
      mkSim (sensor_nodes s) (cluster_heads s) (simulation_time s) kept
            (total_intrusions s) (detected_intrusions s)
            (response_times s) (intrusion_alerts s) (cycle_count s)
  end.

(** ** Reading synthesis ([_activate_nearby_sensors], [collect_real_time_data]) *)

Definition activation_range : Q := sensor_range cfg * (105 # 100).

(** The guard [distance <= activation_range and node.is_active]. *)
Definition in_activation (n : SensorNode) (position_x : Q) : bool :=
  Qle_bool (Qabs (x n - position_x)) activation_range && is_active n.

(** The type-specific pattern written into an activated node. *)
Definition activated_readings (intrusion_type : label) (r : readings) : readings :=
  match intrusion_type with
  | human => mkReadings 1 (8 # 10) 36 (9 # 10) (signal_strength r) true
  | vehicle => mkReadings 1 1 55 1 (signal_strength r) true
  | animal => mkReadings 1 (6 # 10) 32 (7 # 10) (signal_strength r) true
  | normal => mkReadings 1 (vibration r) (thermal r) (acoustic r)
                         (signal_strength r) true
  end.

(** The trailing loop that stores [affected_count] in the first intrusion
    at that position and of that type. *)
Fixpoint record_affected (ints : list intrusion) (position_x : Q)
    (intrusion_type : label) (affected_count : nat) : list intrusion :=
  match ints with
  | [] => []
  | i :: rest =>
      if Qltb (Qabs (position i - position_x)) 10
         && label_eqb (i_type i) intrusion_type
      then set_affected_nodes i affected_count :: rest
      else i :: record_affected rest position_x intrusion_type affected_count
  end.

(** The body of the node loop of [_activate_nearby_sensors] for one node. *)
Definition activate_node (position_x : Q) (intrusion_type : label)
    (n : SensorNode) : SensorNode :=
  if in_activation n position_x
  then set_readings n (activated_readings intrusion_type (sensor_readings n))
  else n.

Definition _activate_nearby_sensors (nodes : list SensorNode)
    (ints : list intrusion) (position_x : Q) (intrusion_type : label)
    : list SensorNode * list intrusion :=
  let affected_count :=
    length (filter (fun n => in_activation n position_x) nodes) in
  (map (activate_node position_x intrusion_type) nodes,
   record_affected ints position_x intrusion_type affected_count).

(** The first loop of [collect_real_time_data]. *)
Definition reset_flags (nodes : list SensorNode) : list SensorNode :=
  map (fun n => set_readings n (set_intrusion_detected (sensor_readings n) false))
      nodes.

(** The second loop: one activation per entry of [current_intrusions]. *)
Definition synthesize (nodes : list SensorNode) (ints : list intrusion)
    : list SensorNode * list intrusion :=
  fold_left (fun st i => _activate_nearby_sensors (fst st) (snd st)
                           (position i) (i_type i))
            ints (nodes, ints).

(** [_update_sensor_history], for the thermal stream (length limit 50). *)
Definition _update_sensor_history (n : SensorNode) : SensorNode :=
  let h := thermal_history n ++ [thermal (sensor_readings n)] in
  set_thermal_history n (if (50 <? length h)%nat then tl h else h).

(** [get_real_time_sensor_data]: the ['max_temp_since_last_check'] entry of
    the returned dict, and the node after its history update. *)
Definition get_real_time_sensor_data (n : SensorNode) : Q * SensorNode :=
  (np_max 25 (thermal_history n), _update_sensor_history n).

(** Whether the camera of [n] is to record this cycle. *)
Definition should_activate (n : SensorNode) (ints : list intrusion) : bool :=
  if intrusion_detected (sensor_readings n) then true
  else existsb (fun i =>
                  Qle_bool (Qabs (x n - position i))
                           (detection_ranges cfg (i_type i) * (12 # 10)))
               ints.

(** The camera branch of the third loop: [activate_recording] or
    [stop_recording] on the module. *)
Definition drive_camera (n : SensorNode) (ints : list intrusion) : SensorNode :=
  match camera_module n with
  | Some st =>
      if has_camera n then
        if should_activate n ints then
          if negb (cam_eqb st RECORDING)
          then if negb (cam_eqb st FAULTY) && is_active n
               then set_camera_module n (Some RECORDING) else n
          else n
        else if cam_eqb st RECORDING
             then set_camera_module n (Some IDLE) else n
      else n
  | None => n
  end.

(** [SensorNode.update_camera_status]. *)
Definition update_camera_status (n : SensorNode) : SensorNode :=
  match camera_module n with
  | Some st => if has_camera n then set_camera_status n st else n
  | None => n
  end.

Definition collect_node (ints : list intrusion) (n : SensorNode) : SensorNode :=
  if is_active n
  then drive_camera (update_camera_status (snd (get_real_time_sensor_data n))) ints
  else n.

Definition collect_real_time_data (s : simulator) : simulator :=
  let '(nodes, ints) :=
    synthesize (reset_flags (sensor_nodes s)) (current_intrusions s) in
  mkSim (map (collect_node ints) nodes) (cluster_heads s) (simulation_time s)
        ints (total_intrusions s) (detected_intrusions s)
        (response_times s) (intrusion_alerts s) (cycle_count s).

(** ** Aggregation ([ClusterHead.collect_cluster_data]) *)

(** [ClusterHead._is_in_range]. *)
Definition _is_in_range (ch : ClusterHead) (n : SensorNode) : bool :=
  Qle_bool (distance (ch_x ch) (ch_y ch) (x n) (y n)) (communication_range cfg).

Definition head_eqb (c : option nat) (k : nat) : bool :=
  match c with
  | Some c' => Nat.eqb c' k
  | None => false
  end.

(** The membership test of the [active_members] loop. *)
Definition is_member (ch : ClusterHead) (n : SensorNode) : bool :=
  is_active n && head_eqb (cluster_head_id n) (ch_id ch) && _is_in_range ch n.

(** [ClusterHead._aggregate_sensor_data] on a non-empty member list. *)
Definition _aggregate_sensor_data (members : list SensorNode) : sensor_summary :=
  let pir_values := map (fun n => pir (sensor_readings n)) members in
  let vibration_values := map (fun n => vibration (sensor_readings n)) members in
  let thermal_values := map (fun n => thermal (sensor_readings n)) members in
  let acoustic_values := map (fun n => acoustic (sensor_readings n)) members in
  let max_temp_values := map (fun n => fst (get_real_time_sensor_data n)) members in
  mkSummary (fold_left Z.add pir_values 0%Z)
            (np_mean vibration_values)
            (np_max 0 vibration_values)
            (np_mean thermal_values)
            (np_max 0 max_temp_values)
            (length (filter (fun v => Qltb (5 # 10) v) acoustic_values))
            (length (filter (fun n => intrusion_detected (sensor_readings n)) members))
            (length (filter (fun n => has_camera n && cam_eqb (camera_status n) RECORDING)
                            members)).

(** [collect_cluster_data]: the snapshot (if any), the nodes after the
    history updates done while aggregating, and the head after buffering. *)
Definition collect_cluster_data (ch : ClusterHead) (all_sensor_nodes : list SensorNode)
    : option cluster_data * list SensorNode * ClusterHead :=
  if negb (ch_is_active ch) then (None, all_sensor_nodes, ch)
  else
    let members := filter (is_member ch) all_sensor_nodes in
    match members with
    | [] => (None, all_sensor_nodes, ch)
    | _ :: _ =>
        let cd := mkClusterData (ch_id ch) (ch_x ch, ch_y ch) (length members)
                                (map node_id members)
                                (Some (_aggregate_sensor_data members))
                                (map battery members) in
        (Some cd,
         map (fun n => if is_member ch n
                       then snd (get_real_time_sensor_data n) else n)
             all_sensor_nodes,
         mkHead (ch_id ch) (ch_x ch) (ch_y ch) (ch_is_active ch) (ch_battery ch)
                (cluster_members ch) (prediction_history ch)
                (data_buffer ch ++ [cd]))
    end.

(** ** Classification ([AIGateway]) *)

(** The feature vector [analyze_intrusion] builds from a snapshot. *)
Definition features (c : cluster_data) (sm : sensor_summary) : Q * Q * Q * Q :=
  (inject_Z (total_motion sm),
   avg_vibration sm,
   max_temperature sm,
   inject_Z (Z.of_nat (acoustic_events sm))
   / inject_Z (Z.max 1 (Z.of_nat (total_nodes c)))).

(** [analyze_intrusion]; the argument is [None] for a falsy [cluster_data].
    An exception raised inside the [try] block yields the [except] result. *)
Definition analyze_intrusion (cd : option cluster_data) : label * Q :=
  match cd with
  | None => (normal, 0)
  | Some c =>
      match summary c with
      | None => (normal, 0)
      | Some sm =>
          match ai_model (features c sm) with
          | Some (prediction, conf) => (prediction, conf)
          | None => (normal, 0)
          end
      end
  end.

Definition _calculate_severity (intrusion_type : label) (conf : Q) : severity :=
  if Qltb conf (8 # 10) then LOW
  else if label_eqb intrusion_type human && Qle_bool (95 # 100) conf then CRITICAL
  else if label_eqb intrusion_type vehicle && Qle_bool (90 # 100) conf then HIGH
  else MEDIUM.

(** [generate_alert], given the alerts logged so far. *)
Definition generate_alert (logged : list alert) (intrusion_type : label)
    (conf : Q) (cd : cluster_data) : alert :=
  mkAlert (length logged + 1) intrusion_type conf (cluster_id cd)
          (cluster_position cd) (_calculate_severity intrusion_type conf)
          (match summary cd with Some sm => intrusion_nodes sm | None => 0%nat end).

(** [ClusterHead.update_prediction_history] (most recent 20). *)
Definition update_prediction_history (ch : ClusterHead) (prediction : label)
    (conf : Q) : ClusterHead :=
  let h := prediction_history ch ++ [(prediction, conf)] in
  mkHead (ch_id ch) (ch_x ch) (ch_y ch) (ch_is_active ch) (ch_battery ch)
         (cluster_members ch) (if (20 <? length h)%nat then tl h else h)
         (data_buffer ch).

(** ** Detection matching (the inner loop of [_process_cluster_data]) *)

(** Marks the first intrusion that passes the guard and reports its [uid]
    and detection time; [None] when the loop ends without a [break]. *)
Fixpoint mark_detected (ints : list intrusion) (cluster_x : Q) (now : Z)
    : list intrusion * option (nat * Z) :=
  match ints with
  | [] => ([], None)
  | i :: rest =>
      if negb (detected i) && Qltb (Qabs (position i - cluster_x)) 100
      then (set_detected i true :: rest, Some (uid i, (now - start_time i)%Z))
      else let '(rest', ev) := mark_detected rest cluster_x now in
           (i :: rest', ev)
  end.

(** The state threaded through the cluster loop, with the list of alerts the
    call returns and the detections it reports (uid, detection time). *)
Record process_state : Type := mkProcess {
  p_sim : simulator;
  p_done : list ClusterHead;
  p_alerts : list alert;
  p_detections : list (nat * Z)
}.

(** The alert guard of [_process_cluster_data]. *)
Definition alert_raised (prediction : label) (conf : Q) : bool :=
  negb (label_eqb prediction normal) && Qltb (confidence_threshold cfg) conf.

(** The simulator with its node list replaced. *)
Definition with_nodes (s : simulator) (nodes : list SensorNode) : simulator :=
  mkSim nodes (cluster_heads s) (simulation_time s) (current_intrusions s)
        (total_intrusions s) (detected_intrusions s) (response_times s)
        (intrusion_alerts s) (cycle_count s).

(** The outcome of the matching loop as a list: one entry on a [break]. *)
Definition reported (ev : option (nat * Z)) : list (nat * Z) :=
  match ev with
  | Some e => [e]
  | None => []
  end.

(** One iteration of the cluster loop. *)
Definition process_cluster (st : process_state) (cluster_head : ClusterHead)
    : process_state :=
  let s := p_sim st in
  let '(cdo, nodes, ch) := collect_cluster_data cluster_head (sensor_nodes s) in
  let skipped :=
    mkProcess (with_nodes s nodes) (p_done st ++ [ch]) (p_alerts st)
              (p_detections st) in
  match cdo with
  | Some cd =>
      if (0 <? total_nodes cd)%nat then
        let '(prediction, conf) := analyze_intrusion (Some cd) in
        let ch' := update_prediction_history ch prediction conf in
        if alert_raised prediction conf then
          let a := generate_alert (intrusion_alerts s) prediction conf cd in
          let '(ints, ev) :=
            mark_detected (current_intrusions s) (fst (cluster_position cd))
                          (simulation_time s) in
          mkProcess
            (mkSim nodes (cluster_heads s) (simulation_time s) ints
                   (total_intrusions s)
                   (detected_intrusions s + length (reported ev))
                   (response_times s ++ map snd (reported ev))
                   (intrusion_alerts s ++ [a]) (cycle_count s))
            (p_done st ++ [ch']) (p_alerts st ++ [a])
            (p_detections st ++ reported ev)
        else
          mkProcess (with_nodes s nodes) (p_done st ++ [ch']) (p_alerts st)
                    (p_detections st)
      else skipped
  | None => skipped
  end.

(** [_process_cluster_data]: the simulator afterwards, the alerts returned
    and the detections reported. *)
Definition _process_cluster_data (s : simulator)
    : simulator * list alert * list (nat * Z) :=
  let st := fold_left process_cluster (cluster_heads s) (mkProcess s [] [] []) in
  let s' := p_sim st in
  (mkSim (sensor_nodes s') (p_done st) (simulation_time s')
         (current_intrusions s') (total_intrusions s') (detected_intrusions s')
         (response_times s') (intrusion_alerts s') (cycle_count s'),
   p_alerts st, p_detections st).

(** ** Energy model *)

(** [any(node.sensor_readings.values())]. *)
Definition any_reading (r : readings) : bool :=
  negb (Z.eqb (pir r) 0) || truthy (vibration r) || truthy (thermal r)
  || truthy (acoustic r) || truthy (signal_strength r) || intrusion_detected r.

(** The per-cycle consumption of an active node. *)
Definition consumption (n : SensorNode) : Q :=
  (15 # 1000)
  + (if any_reading (sensor_readings n) then 8 # 1000 else 0)
  + (match camera_module n with
     | Some st => if has_camera n && cam_eqb st RECORDING then 25 # 1000 else 0
     | None => 0
     end).

(** The body of the loop of [_update_energy_consumption] for one node. The
    subtraction and the addition are exact here; float64 rounds each by
    less than 1e-13 at these magnitudes, which the statements about battery
    levels leave room for. *)
Definition update_node_energy (d : cycle_draws) (n : SensorNode) : SensorNode :=
  if is_active n then
    let n1 := set_battery n (py_max 0 (battery n - consumption n)) in
    if solar_recharge d (node_id n)
    then set_battery n1 (py_min 100 (battery n1 + solar_recharge_amount cfg))
    else n1
  else n.

Definition _update_energy_consumption (d : cycle_draws) (nodes : list SensorNode)
    : list SensorNode :=
  map (update_node_energy d) nodes.

(** [ClusterHead.simulate_energy_consumption]. *)
Definition simulate_energy_consumption (ch : ClusterHead) : ClusterHead :=
  let cons :=
    (5 # 100)
    + (match data_buffer ch with
       | [] => 0
       | _ :: _ => (2 # 100) * inject_Z (Z.of_nat (length (data_buffer ch)))
       end) in
  let b := py_max 0 (ch_battery ch - cons) in
  mkHead (ch_id ch) (ch_x ch) (ch_y ch)
         (if Qltb b 5 then false else ch_is_active ch)
         b (cluster_members ch) (prediction_history ch) (data_buffer ch).

(** ** The cycle *)

(** [run_realtime_cycle] with the configured [cycle_duration]: the simulator
    afterwards, the alerts of the cycle and the detections it reported. *)
Definition run_realtime_cycle (d : cycle_draws) (s : simulator)
    : simulator * list alert * list (nat * Z) :=
  let s1 := mkSim (fault_pass d (sensor_nodes s)) (cluster_heads s)
                  (simulation_time s) (current_intrusions s)
                  (total_intrusions s) (detected_intrusions s)
                  (response_times s) (intrusion_alerts s) (S (cycle_count s)) in
  let s2 := _simulate_intrusions d s1 in
  let s3 := collect_real_time_data s2 in
  let '(s4, alerts, detections) := _process_cluster_data s3 in
  (mkSim (_update_energy_consumption d (sensor_nodes s4)) (cluster_heads s4)
         (simulation_time s4 + cycle_duration cfg)%Z (current_intrusions s4)
         (total_intrusions s4) (detected_intrusions s4)
         (response_times s4) (intrusion_alerts s4) (cycle_count s4),
   alerts, detections).

(** The loop of [run_perfect_simulation], one entry of [ds] per cycle;
    returns the final simulator with all alerts and detections in order. *)
Fixpoint run_perfect_simulation (ds : list cycle_draws) (s : simulator)
    : simulator * list alert * list (nat * Z) :=
  match ds with
  | [] => (s, [], [])
  | d :: rest =>
      let '(s1, alerts, detections) := run_realtime_cycle d s in
      let '(s2, alerts', detections') := run_perfect_simulation rest s1 in
      (s2, alerts ++ alerts', detections ++ detections')
  end.

End Engine.

(** * Specification vocabulary *)

(** The fields no phase of the cycle assigns. *)
Definition static (n : SensorNode) : nat * Q * Q * bool * bool * option nat :=
  (node_id n, x n, y n, has_camera n, is_active n, cluster_head_id n).

(** What only the energy update changes: the static fields and the battery. *)
Definition powered (n : SensorNode) : (nat * Q * Q * bool * bool * option nat) * Q :=
  (static n, battery n).


(** Where a sensor node is and which head it reports to. *)
Definition node_place (n : SensorNode) : Q * Q * option nat :=
  (x n, y n, cluster_head_id n).

(** The fields of a cluster head the cycle never assigns. *)
Definition head_static (ch : ClusterHead) : nat * Q * Q * bool * Q * list nat :=
  (ch_id ch, ch_x ch, ch_y ch, ch_is_active ch, ch_battery ch, cluster_members ch).

(** Where a cluster head is and what it is called. *)
Definition head_place (h : ClusterHead) : nat * Q * Q := (ch_id h, ch_x h, ch_y h).

(** A battery level within its physical range. *)
Definition battery_ok (b : Q) : Prop := 0 <= b <= 100.

(** The guard of the matching loop: undetected and strictly within 100 of
    the cluster's x position. The intrusion type is not part of it. *)
Definition matches (cluster_x : Q) (i : intrusion) : Prop :=
  detected i = false /\ Qabs (position i - cluster_x) < 100.

(** What one alert does to the intrusion list: either the first matching
    intrusion [i] is flagged and reported with its detection time, or
    nothing matches and nothing changes. *)
Definition matcher_outcome (ints : list intrusion) (cluster_x : Q) (now : Z)
    (ints' : list intrusion) (ev : option (nat * Z)) : Prop :=
  (exists l1 i l2,
      ints = l1 ++ i :: l2
      /\ Forall (fun j => ~ matches cluster_x j) l1
      /\ matches cluster_x i
      /\ ints' = l1 ++ set_detected i true :: l2
      /\ ev = Some (uid i, (now - start_time i)%Z))
  \/ (Forall (fun j => ~ matches cluster_x j) ints
      /\ ints' = ints /\ ev = None).

(** The uid and flag of every entry, in list order. *)
Definition marks (ints : list intrusion) : list (nat * bool) :=
  map (fun i => (uid i, detected i)) ints.

(** The bookkeeping invariant of detection: uids are unique and below the
    spawn counter, and an intrusion is flagged exactly when its uid is in
    the log [L] of reported detections, which has no repetition. *)
Definition log_inv (ints : list intrusion) (total : nat) (L : list nat) : Prop :=
  NoDup (map uid ints)
  /\ (forall i, In i ints -> (uid i < total)%nat)
  /\ (forall u, In u L -> (u < total)%nat)
  /\ (forall i, In i ints -> (detected i = true <-> In (uid i) L))
  /\ NoDup L.

(** Node [n] is active and within the activation range of position [px]
    of some intrusion of [ints]. *)
Definition activated_by (cfg : config) (n : SensorNode) (ints : list intrusion) : bool :=
  existsb (fun i => in_activation cfg n (position i)) ints.





(** An alert as the cluster loop creates it: it passed the alert guard and
    carries the severity computed from its own type and confidence. *)
Definition well_formed_alert (cfg : config) (a : alert) : Prop :=
  alert_raised cfg (intrusion_type a) (confidence a) = true
  /\ a_severity a = _calculate_severity (intrusion_type a) (confidence a).

(** The sum of the motion flags of the nodes that are active, assigned to
    cluster head [ch] and within communication range of it. *)
Definition motion_of_members (np_sqrt : Q -> Q) (cfg : config) (ch : ClusterHead)
    (nodes : list SensorNode) : Z :=
  fold_right
    (fun n acc =>
       if is_active n
          && match cluster_head_id n with
             | Some c => Nat.eqb c (ch_id ch)
             | None => false
             end
          && Qle_bool (np_sqrt ((ch_x ch - x n) ^ 2 + (ch_y ch - y n) ^ 2))
                      (communication_range cfg)
       then (pir (sensor_readings n) + acc)%Z
       else acc)
    0%Z nodes.

(** The distance [_assign_clusters] computes from node [n] to head [h]. *)
Definition dist_to (np_sqrt : Q -> Q) (n : SensorNode) (h : ClusterHead) : Q :=
  distance np_sqrt (x n) (y n) (ch_x h) (ch_y h).

(** Node [n] is assigned to a nearest head among those within communication
    range, or to none when no head is within range. *)
Definition nearest_in_range (np_sqrt : Q -> Q) (cfg : config) (n : SensorNode)
    (heads : list ClusterHead) : Prop :=
  match cluster_head_id n with
  | Some c =>
      exists ch, In ch heads /\ ch_id ch = c
                 /\ dist_to np_sqrt n ch <= communication_range cfg
                 /\ forall h, In h heads ->
                              dist_to np_sqrt n h <= communication_range cfg ->
                              dist_to np_sqrt n ch <= dist_to np_sqrt n h
  | None =>
      forall h, In h heads -> ~ dist_to np_sqrt n h <= communication_range cfg
  end.

(** What [nearest_head] has found after scanning the heads [seen]. *)
Definition scanned (np_sqrt : Q -> Q) (cfg : config) (n : SensorNode)
    (seen : list ClusterHead) (min_distance : option Q)
    (nearest_ch : option ClusterHead) : Prop :=
  match nearest_ch with
  | None =>
      min_distance = None
      /\ forall h, In h seen -> ~ dist_to np_sqrt n h <= communication_range cfg
  | Some ch =>
      min_distance = Some (dist_to np_sqrt n ch) /\ In ch seen
      /\ dist_to np_sqrt n ch <= communication_range cfg
      /\ forall h, In h seen -> dist_to np_sqrt n h <= communication_range cfg ->
                   dist_to np_sqrt n ch <= dist_to np_sqrt n h
  end.

(** No head lists any of the nodes still to be assigned. *)
Definition unlisted (nodes : list SensorNode) (heads : list ClusterHead) : Prop :=
  forall h n, In h heads -> In n nodes -> ~ In (node_id n) (cluster_members h).

(** * Concrete inputs *)

(** A square root good to the unit: the integer square root of the floor. *)
Definition floor_sqrt (q : Q) : Q := inject_Z (Z.sqrt (Qfloor q)).

(** A classifier that answers every snapshot with the same result. *)
Definition constant_classifier (l : label) (c : Q)
    : Q * Q * Q * Q -> option (label * Q) :=
  fun _ => Some (l, c).

(** A classifier whose invocation always raises. *)
Definition failing_classifier : Q * Q * Q * Q -> option (label * Q) :=
  fun _ => None.

(** Deployment draws: every node at mid-width with a 90% battery. *)
Definition level_draws : deploy_draws :=
  mkDeployDraws (fun _ => 125) (fun _ => 90) (fun _ => 3 # 4).

(** Deployment draws for [drained_config]: every battery at 0.01%. *)
Definition drained_draws : deploy_draws :=
  mkDeployDraws (fun _ => 125) (fun _ => 1 # 100) (fun _ => 3 # 4).

(** A cycle without fault, recharge or spawn. *)
Definition quiet_cycle : cycle_draws :=
  mkCycleDraws (fun _ => None) (fun _ => false) (fun _ => false) None
               (fun _ => false).


(** A cycle that only spawns one intrusion. *)
Definition spawning_cycle (ty : label) (px : Q) (dur : Z) : cycle_draws :=
  mkCycleDraws (fun _ => None) (fun _ => false) (fun _ => false)
               (Some (ty, px, dur)) (fun _ => false).

(** A cycle in which every node draws the solar recharge. *)
Definition recharging_cycle : cycle_draws :=
  mkCycleDraws (fun _ => None) (fun _ => false) (fun _ => false) None
               (fun _ => true).

(** The shipped configuration with nearly empty batteries at deployment. *)
Definition drained_config : config :=
  mkConfig 1000 250 32 4 120 (25 # 100) 200 (95 # 100)
           (1 # 100) (1 # 100) 12
           (detection_ranges SIMULATION_CONFIG) 30 60 1.

(** The shipped configuration with the confidence threshold lowered to 0.8. *)
Definition threshold_080_config : config :=
  mkConfig 1000 250 32 4 120 (25 # 100) 200 (8 # 10)
           85 100 12 (detection_ranges SIMULATION_CONFIG) 30 60 1.

(** The cluster head with the given id of a simulator (CH2 sits at 400 m). *)
Definition head_of (s : simulator) (c : nat) : ClusterHead :=
  nth (c - 1) (cluster_heads s) (mkHead 0 0 0 false 0 [] [] []).

(** The sensor node with the given id of a simulator (ids count from 1). *)
Definition node_of (s : simulator) (k : nat) : SensorNode :=
  nth (k - 1) (sensor_nodes s)
      (mkNode 0 0 0 false false 0 None (mkReadings 0 0 0 0 0 false) None IDLE []).

(** The simulator as the cluster loop of the first cycle finds it, when that
    cycle spawns a human intrusion at 450 m: deployed, spawned, synthesised. *)
Definition first_cycle_collected : simulator :=
  collect_real_time_data SIMULATION_CONFIG
    (_simulate_intrusions (spawning_cycle human 450 30)
       (_deploy_perfect_network floor_sqrt SIMULATION_CONFIG level_draws)).

(** A classifier that reads the rolling maximum temperature alone: engine
    heat is a vehicle, body heat a human, anything cooler normal. *)
Definition thermal_classifier : Q * Q * Q * Q -> option (label * Q) :=
  fun f =>
    let '(_, _, max_temp, _) := f in
    if Qle_bool 50 max_temp then Some (vehicle, 99 # 100)
    else if Qle_bool 36 max_temp then Some (human, 99 # 100)
    else Some (normal, 99 # 100).

(** * Further embedded code: reports, diagnostics and the camera's view *)

(** ** Health report ([get_system_health_report]) *)

(** The numeric entries of the report; clock readings and the training
    accuracy are left out. The [false_positives] counter of
    [performance_metrics] is initialised to 0 and assigned nowhere. *)
Record health_report : Type := mkHealth {
  system_uptime : Z;
  hr_total_nodes : nat;
  hr_active_nodes : nat;
  availability_rate : Q;
  hr_camera_nodes : nat;
  hr_active_cameras : nat;
  detection_rate : Q;
  false_positives : Q;
  total_alerts : nat;
  intrusions_detected : nat * nat
}.

Definition count_nodes (p : SensorNode -> bool) (nodes : list SensorNode) : nat :=
  length (filter p nodes).

(** A camera that exists and is not faulty. *)
Definition camera_available (n : SensorNode) : bool :=
  has_camera n
  && match camera_module n with
     | Some st => negb (cam_eqb st FAULTY)
     | None => false
     end.

(** [get_system_health_report]; [None] is the [ZeroDivisionError] of
    [active_nodes / len(self.sensor_nodes)] on an empty network. *)
Definition get_system_health_report (s : simulator) : option health_report :=
  let active_nodes := count_nodes is_active (sensor_nodes s) in
  let rate :=
    if (0 <? total_intrusions s)%nat
    then inject_Z (Z.of_nat (detected_intrusions s))
         / inject_Z (Z.of_nat (total_intrusions s))
    else 0 in
  match sensor_nodes s with
  | [] => None
  | _ :: _ =>
      Some (mkHealth (simulation_time s)
                     (length (sensor_nodes s))
                     active_nodes
                     (inject_Z (Z.of_nat active_nodes)
                      / inject_Z (Z.of_nat (length (sensor_nodes s))))
                     (count_nodes has_camera (sensor_nodes s))
                     (count_nodes camera_available (sensor_nodes s))
                     rate
                     (0 / inject_Z (Z.max 1 (Z.of_nat (detected_intrusions s) + 0)))
                     (length (intrusion_alerts s))
                     (detected_intrusions s, total_intrusions s))
  end.

(** ** Bounded streams (the tail of [collect_real_time_data]) *)

(** [stream.extend(batch)] followed by
    [if len(stream) > 150: stream = stream[-100:]]. *)
Definition keep_recent {A : Type} (stream batch : list A) : list A :=
  let s := stream ++ batch in
  if (150 <? length s)%nat then skipn (length s - 100) s else s.

(** ** Node diagnostics ([get_sensor_trends], [get_sensor_health_report]) *)

(** [np.min] of a non-empty list, [d] standing for the empty case. *)
Definition np_min (d : Q) (l : list Q) : Q :=
  match l with
  | [] => d
  | a :: r => fold_left py_min r a
  end.

Inductive direction : Type := increasing | decreasing.

Record trend : Type := mkTrend {
  t_current : Q;
  t_average : Q;
  t_max : Q;
  t_min : Q;
  t_trend : direction
}.

(** The entry [get_sensor_trends] builds for one history; [None] when the
    history is empty and the entry is skipped.
    [history[-1]] and [history[-2]] are the last two values. *)
Definition sensor_trend (history : list Q) : option trend :=
  match history with
  | [] => None
  | _ :: _ =>
      let n := length history in
      Some (mkTrend (nth (n - 1) history 0)
                    (np_mean history)
                    (np_max 0 history)
                    (np_min 0 history)
                    (if (1 <? n)%nat
                        && Qltb (nth (n - 2) history 0) (nth (n - 1) history 0)
                     then increasing else decreasing))
  end.

Inductive battery_health : Type := battery_GOOD | battery_LOW | battery_CRITICAL.
Inductive signal_health : Type := STRONG | WEAK.
Inductive sensor_state : Type := ACTIVE | sensor_FAULTY.

Record sensor_health : Type := mkSensorHealth {
  sh_node_id : nat;
  sh_battery : battery_health;
  sh_signal : signal_health;
  pir_status : sensor_state;
  vibration_status : sensor_state;
  thermal_status : sensor_state;
  acoustic_status : sensor_state
}.

(** [SensorNode.get_sensor_health_report]. *)
Definition get_sensor_health_report (n : SensorNode) : sensor_health :=
  let r := sensor_readings n in
  mkSensorHealth
    (node_id n)
    (if Qltb 50 (battery n) then battery_GOOD
     else if Qltb 20 (battery n) then battery_LOW else battery_CRITICAL)
    (if Qltb (7 # 10) (signal_strength r) then STRONG else WEAK)
    (if (0 <=? pir r)%Z then ACTIVE else sensor_FAULTY)
    (if Qle_bool 0 (vibration r) then ACTIVE else sensor_FAULTY)
    (if Qle_bool 15 (thermal r) && Qle_bool (thermal r) 50
     then ACTIVE else sensor_FAULTY)
    (if Qle_bool 0 (acoustic r) then ACTIVE else sensor_FAULTY).

(** ** Cluster status ([ClusterHead.get_cluster_status]) *)

(** The node with id [k] is listed in [cluster_members]. *)
Definition listed (ch : ClusterHead) (n : SensorNode) : bool :=
  existsb (Nat.eqb (node_id n)) (cluster_members ch).

(** The ['member_count'] and ['active_members'] entries; the members are
    looked up among [nodes] by id. *)
Definition get_cluster_status (ch : ClusterHead) (nodes : list SensorNode)
    : nat * nat :=
  (length (cluster_members ch),
   length (filter (fun n => listed ch n && is_active n) nodes)).

(** ** Gateway diagnostics ([AIGateway._calculate_recent_accuracy]) *)

(** On the confidences of [prediction_history], oldest first. *)
Definition _calculate_recent_accuracy (confidences : list Q) : Q :=
  if (length confidences <? 10)%nat then 0
  else
    let recent := skipn (length confidences - 10) confidences in
    inject_Z (Z.of_nat (length (filter (fun c => Qltb (95 # 100) c) recent)))
    / inject_Z (Z.of_nat (length recent)).

(** ** The camera's reading of a node ([CameraModule]) *)

Inductive camera_label : Type :=
  cam_vehicle | cam_human | cam_animal | cam_suspicious_object | cam_unknown.

(** [CameraModule._infer_intrusion_type]. *)
Definition _infer_intrusion_type (r : readings) : camera_label :=
  let vibration_score := vibration r in
  let thermal_score := (thermal r - 25) / 15 in
  let acoustic_score := acoustic r in
  if Qltb (7 # 10) vibration_score && Qltb (5 # 10) thermal_score then cam_vehicle
  else if Qltb (6 # 10) thermal_score && Qltb vibration_score (4 # 10) then cam_human
  else if Qltb (3 # 10) vibration_score && Qltb vibration_score (6 # 10)
          && Qltb thermal_score (5 # 10) then cam_animal
  else if Qltb (8 # 10) acoustic_score then cam_suspicious_object
  else cam_unknown.

(** The [detection_confidence] of [_simulate_object_detection]. *)
Definition detection_confidence (r : readings) : Q :=
  py_min 1 (inject_Z (pir r)
            + vibration r * (8 # 10)
            + (thermal r - 25) / 20 * (5 # 10)
            + acoustic r * (7 # 10)).

(** [_simulate_object_detection]: the type of the object it reports, if
    any (every inferred type is a non-empty string, hence truthy). *)
Definition _simulate_object_detection (r : readings) : option camera_label :=
  if Qltb (3 # 10) (detection_confidence r)
  then Some (_infer_intrusion_type r) else None.

(** ** The phases of a cycle, named *)

(** The simulator after the fault pass that opens [run_realtime_cycle]. *)
Definition faulted (d : cycle_draws) (s : simulator) : simulator :=
  mkSim (fault_pass d (sensor_nodes s)) (cluster_heads s)
        (simulation_time s) (current_intrusions s)
        (total_intrusions s) (detected_intrusions s)
        (response_times s) (intrusion_alerts s) (S (cycle_count s)).

(** The simulator as the cluster loop of the cycle finds it. *)
Definition collected (cfg : config) (d : cycle_draws) (s : simulator) : simulator :=
  collect_real_time_data cfg (_simulate_intrusions d (faulted d s)).

(** A spawn draw as [random.randint(duration_min, duration_max)] yields it. *)
Definition valid_spawn (cfg : config) (d : cycle_draws) : Prop :=
  match spawn d with
  | Some (_, _, dur) => (duration_min cfg <= dur <= duration_max cfg)%Z
  | None => True
  end.

(** Whether the cycle spawns, as a number. *)
Definition spawned (d : cycle_draws) : nat :=
  match spawn d with
  | Some _ => 1
  | None => 0
  end.

(** Everything of an intrusion but its [affected_nodes] count. *)
Definition essentials (i : intrusion) : nat * label * Q * Z * Z * bool :=
  (uid i, i_type i, position i, start_time i, duration i, detected i).

(** An intrusion as the cluster loop may find it at time [now]: started,
    younger than the longest duration the configuration allows, and with an
    allowed duration itself. *)
Definition alive (cfg : config) (now : Z) (i : intrusion) : Prop :=
  (start_time i <= now /\ now - start_time i < duration_max cfg
   /\ duration i <= duration_max cfg)%Z.

(** An intrusion as a finished cycle leaves it: started at least one cycle
    duration ago, with a duration the configuration allows. *)
Definition aged (cfg : config) (s : simulator) : Prop :=
  Forall (fun i => (start_time i + cycle_duration cfg <= simulation_time s
                    /\ duration i <= duration_max cfg)%Z)
         (current_intrusions s).

(** A node property that no step of a cycle can break: it survives the
    fault pass, the flag reset, an activation, the history update, the
    camera updates and the battery update. *)
Definition node_stable (P : SensorNode -> Prop) : Prop :=
  (forall d n, P n -> P (simulate_sensor_fault d n))
  /\ (forall n, P n ->
        P (set_readings n (set_intrusion_detected (sensor_readings n) false)))
  /\ (forall ty n, P n ->
        P (set_readings n (activated_readings ty (sensor_readings n))))
  /\ (forall n, P n -> P (_update_sensor_history n))
  /\ (forall c n, P n -> P (set_camera_module n c))
  /\ (forall c n, P n -> P (set_camera_status n c))
  /\ (forall b n, P n -> P (set_battery n b)).

(** A cluster-head property that survives buffering a snapshot and logging
    a prediction. *)
Definition head_stable (P : ClusterHead -> Prop) : Prop :=
  (forall cd h, P h ->
     P (mkHead (ch_id h) (ch_x h) (ch_y h) (ch_is_active h) (ch_battery h)
               (cluster_members h) (prediction_history h) (data_buffer h ++ [cd])))
  /\ (forall p c h, P h -> P (update_prediction_history h p c)).

(** The thermal history of an active node ends with its current reading. *)
Definition history_current (n : SensorNode) : Prop :=
  is_active n = true ->
  exists h, thermal_history n = h ++ [thermal (sensor_readings n)].

(** The values the engine ever writes into a reading vector: the initial
    ones, the three activation patterns and the 0 of a sensor fault. *)
Definition engine_readings (r : readings) : Prop :=
  (pir r = 0 \/ pir r = 1)%Z
  /\ In (vibration r) [0; 6 # 10; 8 # 10; 1]
  /\ In (thermal r) [0; 25; 32; 36; 55]
  /\ In (acoustic r) [0; 7 # 10; 9 # 10; 1].

(** The state of the cluster loop of a cycle after the heads [before] have
    been processed. *)
Definition loop_state (np_sqrt : Q -> Q)
    (ai_model : Q * Q * Q * Q -> option (label * Q)) (cfg : config)
    (d : cycle_draws) (s : simulator) (before : list ClusterHead) : process_state :=
  fold_left (process_cluster np_sqrt ai_model cfg) before
            (mkProcess (collected cfg d s) [] [] []).

(** The order of the severities, LOW lowest. *)
Definition severity_rank (v : severity) : nat :=
  match v with
  | LOW => 0
  | MEDIUM => 1
  | HIGH => 2
  | CRITICAL => 3
  end.

(** What the camera makes of the pattern an intrusion of type [ty] leaves. *)
Definition camera_reading_of (ty : label) : camera_label :=
  match ty with
  | vehicle | human => cam_vehicle
  | animal | normal => cam_unknown
  end.


(** Whether an intrusion of [ints] calls for the camera of node [n]: the
    node is activated by one of them, or one of them lies within 1.2 times
    the detection range of its type. *)
Definition camera_called (cfg : config) (n : SensorNode) (ints : list intrusion) : bool :=
  activated_by cfg n ints
  || existsb (fun i => Qle_bool (Qabs (x n - position i))
                                (detection_ranges cfg (i_type i) * (12 # 10)))
             ints.
(** * Properties *)

(** ** Comparisons and clamps *)

Lemma Qltb_lt (a b : Q) : Qltb a b = true <-> a < b.
Proof.
  unfold Qltb. rewrite negb_true_iff.
  split; intro H.
  - apply Qnot_le_lt. intro Hle. apply Qle_bool_iff in Hle. congruence.
  - destruct (Qle_bool b a) eqn:E; [|reflexivity].
    apply Qle_bool_iff in E. exfalso. exact (Qlt_not_le _ _ H E).
Qed.

Lemma Qltb_ge (a b : Q) : Qltb a b = false <-> b <= a.
Proof.
  unfold Qltb. rewrite negb_false_iff. apply Qle_bool_iff.
Qed.

Lemma py_max_lower (a b : Q) : a <= py_max a b.
Proof.
  unfold py_max. destruct (Qltb a b) eqn:E.
  - apply Qltb_lt in E. apply Qlt_le_weak, E.
  - apply Qle_refl.
Qed.

Lemma py_max_upper (a b c : Q) : a <= c -> b <= c -> py_max a b <= c.
Proof.
  intros Ha Hb. unfold py_max. destruct (Qltb a b); assumption.
Qed.

Lemma py_min_upper (a b : Q) : py_min a b <= a.
Proof.
  unfold py_min. destruct (Qltb b a) eqn:E.
  - apply Qltb_lt in E. apply Qlt_le_weak, E.
  - apply Qle_refl.
Qed.

Lemma py_min_lower (a b c : Q) : c <= a -> c <= b -> c <= py_min a b.
Proof.
  intros Ha Hb. unfold py_min. destruct (Qltb b a); assumption.
Qed.

(** ** Frame lemmas: what each phase leaves untouched *)

Lemma map_map_ext {A B : Type} (p : A -> B) (f : A -> A) (l : list A) :
  (forall a, p (f a) = p a) -> map p (map f l) = map p l.
Proof.
  intro H. rewrite map_map. apply map_ext. exact H.
Qed.

Ltac node_cases :=
  repeat match goal with
         | |- context [match ?c with _ => _ end] => destruct c
         end; reflexivity.

Section Frames.

Variable np_sqrt : Q -> Q.
Variable ai_model : Q * Q * Q * Q -> option (label * Q).
Variable cfg : config.

Lemma simulate_sensor_fault_powered d n :
  powered (simulate_sensor_fault d n) = powered n.
Proof. unfold simulate_sensor_fault. node_cases. Qed.

Lemma camera_fault_pass_powered d n :
  powered (camera_fault_pass d n) = powered n.
Proof. unfold camera_fault_pass. node_cases. Qed.

Lemma fault_pass_powered d nodes :
  map powered (fault_pass d nodes) = map powered nodes.
Proof.
  apply map_map_ext. intro n. destruct (is_active n); [|reflexivity].
  now rewrite camera_fault_pass_powered, simulate_sensor_fault_powered.
Qed.

Lemma reset_flags_powered nodes :
  map powered (reset_flags nodes) = map powered nodes.
Proof. apply map_map_ext. reflexivity. Qed.

Lemma activate_powered nodes ints px ty :
  map powered (fst (_activate_nearby_sensors cfg nodes ints px ty))
  = map powered nodes.
Proof.
  apply map_map_ext. intro n. unfold activate_node.
  destruct (in_activation cfg n px); reflexivity.
Qed.

Lemma synthesize_powered ints nodes :
  map powered (fst (synthesize cfg nodes ints)) = map powered nodes.
Proof.
  unfold synthesize. generalize ints at 2. intros acc.
  revert nodes acc. induction ints as [|i rest IH]; intros nodes acc; simpl.
  - reflexivity.
  - destruct (_activate_nearby_sensors cfg nodes acc (position i) (i_type i))
      as [nodes' acc'] eqn:E.
    rewrite IH.
    change nodes' with (fst (nodes', acc')). rewrite <- E.
    apply activate_powered.
Qed.

Lemma collect_node_powered ints n :
  powered (collect_node cfg ints n) = powered n.
Proof.
  unfold collect_node, drive_camera, update_camera_status,
    get_real_time_sensor_data, _update_sensor_history; simpl.
  node_cases.
Qed.

Lemma collect_powered s :
  map powered (sensor_nodes (collect_real_time_data cfg s))
  = map powered (sensor_nodes s).
Proof.
  unfold collect_real_time_data.
  destruct (synthesize cfg (reset_flags (sensor_nodes s)) (current_intrusions s))
    as [nodes ints] eqn:E. simpl.
  rewrite (map_map_ext powered (collect_node cfg ints)) by apply collect_node_powered.
  change nodes with (fst (nodes, ints)). rewrite <- E.
  now rewrite synthesize_powered, reset_flags_powered.
Qed.

Lemma collect_cluster_data_frame {B : Type} (p : SensorNode -> B) ch nodes :
  (forall n, p (_update_sensor_history n) = p n) ->
  map p (snd (fst (collect_cluster_data np_sqrt cfg ch nodes))) = map p nodes.
Proof.
  intro Hp. unfold collect_cluster_data.
  destruct (negb (ch_is_active ch)); [reflexivity|].
  destruct (filter (is_member np_sqrt cfg ch) nodes); [reflexivity|]. simpl.
  apply map_map_ext. intro n.
  destruct (is_member np_sqrt cfg ch n); [apply Hp | reflexivity].
Qed.

Lemma collect_cluster_data_position ch nodes cd nodes' ch' :
  collect_cluster_data np_sqrt cfg ch nodes = (Some cd, nodes', ch') ->
  cluster_position cd = (ch_x ch, ch_y ch) /\ cluster_id cd = ch_id ch.
Proof.
  unfold collect_cluster_data.
  destruct (negb (ch_is_active ch)); [discriminate|].
  destruct (filter (is_member np_sqrt cfg ch) nodes); [discriminate|].
  intro H. injection H as <- _ _. split; reflexivity.
Qed.

(** The two ways an iteration of the cluster loop can end. *)
Lemma process_cluster_shape st ch :
  let s := p_sim st in
  let st' := process_cluster np_sqrt ai_model cfg st ch in
  let s' := p_sim st' in
  sensor_nodes s' = snd (fst (collect_cluster_data np_sqrt cfg ch (sensor_nodes s)))
  /\ cluster_heads s' = cluster_heads s
  /\ simulation_time s' = simulation_time s
  /\ total_intrusions s' = total_intrusions s
  /\ cycle_count s' = cycle_count s
  /\ ((current_intrusions s' = current_intrusions s
       /\ detected_intrusions s' = detected_intrusions s
       /\ response_times s' = response_times s
       /\ intrusion_alerts s' = intrusion_alerts s
       /\ p_alerts st' = p_alerts st
       /\ p_detections st' = p_detections st)
      \/ (exists cd prediction conf,
             fst (fst (collect_cluster_data np_sqrt cfg ch (sensor_nodes s))) = Some cd
             /\ analyze_intrusion ai_model (Some cd) = (prediction, conf)
             /\ alert_raised cfg prediction conf = true
             /\ let a := generate_alert (intrusion_alerts s) prediction conf cd in
                let m := mark_detected (current_intrusions s) (ch_x ch)
                                       (simulation_time s) in
                current_intrusions s' = fst m
                /\ detected_intrusions s'
                   = (detected_intrusions s + length (reported (snd m)))%nat
                /\ response_times s' = response_times s ++ map snd (reported (snd m))
                /\ intrusion_alerts s' = intrusion_alerts s ++ [a]
                /\ p_alerts st' = p_alerts st ++ [a]
                /\ p_detections st' = p_detections st ++ reported (snd m))).
Proof.
  intros s st' s'. subst st' s'. unfold process_cluster. fold s.
  destruct (collect_cluster_data np_sqrt cfg ch (sensor_nodes s))
    as [[cdo nodes] ch1] eqn:E.
  destruct cdo as [cd|].
  2:{ simpl. repeat split; try reflexivity. left. repeat split; reflexivity. }
  destruct (analyze_intrusion ai_model (Some cd)) as [prediction conf] eqn:Ea.
  destruct (collect_cluster_data_position _ _ _ _ _ E) as [Hpos _].
  rewrite Hpos.
  destruct (mark_detected (current_intrusions s) (fst (ch_x ch, ch_y ch))
                          (simulation_time s)) as [ints ev] eqn:Em.
  simpl in Em.
  destruct (0 <? total_nodes cd)%nat.
  2:{ simpl. repeat split; try reflexivity. left. repeat split; reflexivity. }
  destruct (alert_raised cfg prediction conf) eqn:Er.
  2:{ simpl. repeat split; try reflexivity. left. repeat split; reflexivity. }
  cbn [p_sim sensor_nodes cluster_heads simulation_time total_intrusions
       cycle_count current_intrusions detected_intrusions response_times
       intrusion_alerts p_alerts p_detections fst snd].
  rewrite Em. cbn [fst snd].
  repeat split; try reflexivity.
  right. exists cd, prediction, conf.
  repeat split; try reflexivity; assumption.
Qed.

End Frames.

(** ** Detection matching *)

Lemma mark_detected_outcome ints cluster_x now :
  matcher_outcome ints cluster_x now
                  (fst (mark_detected ints cluster_x now))
                  (snd (mark_detected ints cluster_x now)).
Proof.
  induction ints as [|i rest IH]; cbn [mark_detected].
  - right. repeat split. constructor.
  - destruct (negb (detected i) && Qltb (Qabs (position i - cluster_x)) 100) eqn:G.
    + apply andb_true_iff in G. destruct G as [Gd Gp].
      apply negb_true_iff in Gd. apply Qltb_lt in Gp.
      left. exists [], i, rest. cbn [fst snd app].
      repeat split; try assumption; try reflexivity. constructor.
    + assert (Hn : ~ matches cluster_x i).
      { intros [Hd Hp]. apply Qltb_lt in Hp. rewrite Hd, Hp in G. discriminate. }
      destruct (mark_detected rest cluster_x now) as [rest' ev]. cbn [fst snd] in *.
      destruct IH as [(l1 & j & l2 & -> & Hl1 & Hj & -> & ->) | (Hall & -> & ->)].
      * left. exists (i :: l1), j, l2.
        split; [reflexivity|]. split; [constructor; assumption|].
        split; [assumption|]. split; reflexivity.
      * right. repeat split. constructor; assumption.
Qed.

(** ** The detection log invariant *)

Lemma NoDup_map_filter {A B : Type} (p : A -> B) (f : A -> bool) (l : list A) :
  NoDup (map p l) -> NoDup (map p (filter f l)).
Proof.
  induction l as [|a l IH]; simpl; intro H; [constructor|].
  inversion H as [|? ? Hn Hd]; subst.
  destruct (f a); simpl; auto.
  constructor; auto.
  intro Hin. apply Hn. apply in_map_iff in Hin.
  destruct Hin as (b & Hb & Hin). apply filter_In in Hin.
  apply in_map_iff. exists b. tauto.
Qed.

Lemma log_inv_filter f ints total L :
  log_inv ints total L -> log_inv (filter f ints) total L.
Proof.
  intros (Hnd & Hlt & HL & Hdet & HndL).
  split; [|split; [|split; [|split]]]; try assumption.
  - now apply NoDup_map_filter.
  - intros i Hi. apply filter_In in Hi. apply Hlt, Hi.
  - intros i Hi. apply filter_In in Hi. apply Hdet, Hi.
Qed.

Lemma log_inv_spawn ints total L ty px t dur :
  log_inv ints total L ->
  log_inv (ints ++ [mkIntrusion total ty px t dur false 0]) (S total) L.
Proof.
  intros (Hnd & Hlt & HL & Hdet & HndL).
  split; [|split; [|split; [|split]]].
  - rewrite map_app. simpl. apply NoDup_app; [assumption | repeat constructor; intros [] |].
    intros u Hu [<-|[]]. apply in_map_iff in Hu. destruct Hu as (i & Hi & Hin).
    apply Hlt in Hin. simpl in Hi. lia.
  - intros i Hi. apply in_app_or in Hi. destruct Hi as [Hi|[<-|[]]].
    + apply Hlt in Hi. lia.
    + simpl. lia.
  - intros u Hu. apply HL in Hu. lia.
  - intros i Hi. apply in_app_or in Hi. destruct Hi as [Hi|[<-|[]]].
    + apply Hdet, Hi.
    + simpl. split; [discriminate|]. intro Hu. apply HL in Hu. lia.
  - assumption.
Qed.

Lemma log_inv_marks ints ints' total L :
  marks ints' = marks ints -> log_inv ints total L -> log_inv ints' total L.
Proof.
  intros Hm (Hnd & Hlt & HL & Hdet & HndL).
  assert (Hsame : forall i', In i' ints' ->
            exists i, In i ints /\ uid i = uid i' /\ detected i = detected i').
  { intros i' Hi'.
    assert (Hin : In (uid i', detected i') (marks ints)).
    { rewrite <- Hm. unfold marks. apply in_map_iff. now exists i'. }
    unfold marks in Hin. apply in_map_iff in Hin.
    destruct Hin as (i & Hi & Hin). injection Hi as Hu Hd. now exists i. }
  assert (Huid : map uid ints' = map uid ints).
  { assert (Hfst : forall l, map uid l = map fst (marks l)).
    { intro l. unfold marks. rewrite map_map. reflexivity. }
    now rewrite !Hfst, Hm. }
  split; [|split; [|split; [|split]]]; try assumption.
  - now rewrite Huid.
  - intros i' Hi'. destruct (Hsame i' Hi') as (i & Hin & Hu & _).
    rewrite <- Hu. now apply Hlt.
  - intros i' Hi'. destruct (Hsame i' Hi') as (i & Hin & Hu & Hd).
    rewrite <- Hu, <- Hd. apply Hdet, Hin.
Qed.

Lemma record_affected_marks ints px ty k :
  marks (record_affected ints px ty k) = marks ints.
Proof.
  induction ints as [|i rest IH]; cbn [record_affected]; [reflexivity|].
  destruct (Qltb (Qabs (position i - px)) 10 && label_eqb (i_type i) ty).
  - reflexivity.
  - unfold marks in *. simpl. now rewrite IH.
Qed.

Lemma activations_marks cfg todo st :
  marks (snd (fold_left
                (fun st i => _activate_nearby_sensors cfg (fst st) (snd st)
                               (position i) (i_type i)) todo st))
  = marks (snd st).
Proof.
  revert st. induction todo as [|i rest IH]; intros st; cbn [fold_left].
  - reflexivity.
  - rewrite IH. unfold _activate_nearby_sensors. cbn [snd].
    apply record_affected_marks.
Qed.

Lemma synthesize_marks cfg ints nodes :
  marks (snd (synthesize cfg nodes ints)) = marks ints.
Proof. unfold synthesize. now rewrite activations_marks. Qed.

Lemma mark_detected_log_inv ints total L cluster_x now :
  log_inv ints total L ->
  log_inv (fst (mark_detected ints cluster_x now)) total
          (L ++ map fst (reported (snd (mark_detected ints cluster_x now)))).
Proof.
  intros Hinv.
  destruct (mark_detected_outcome ints cluster_x now)
    as [(l1 & j & l2 & E & _ & [Hjd _] & -> & ->) | (_ & -> & ->)].
  2:{ simpl. now rewrite app_nil_r. }
  destruct Hinv as (Hnd & Hlt & HL & Hdet & HndL). subst ints. simpl.
  assert (HjL : ~ In (uid j) L).
  { intro Hin. apply (Hdet j) in Hin; [congruence|].
    apply in_or_app. right. left. reflexivity. }
  assert (Huid : map uid (l1 ++ set_detected j true :: l2)
                 = map uid (l1 ++ j :: l2)).
  { rewrite !map_app. reflexivity. }
  split; [|split; [|split; [|split]]].
  - now rewrite Huid.
  - intros i Hi. apply in_app_or in Hi. destruct Hi as [Hi|[<-|Hi]].
    + apply Hlt. apply in_or_app. now left.
    + simpl. apply (Hlt j). apply in_or_app. right. now left.
    + apply Hlt. apply in_or_app. right. now right.
  - intros u Hu. apply in_app_or in Hu. destruct Hu as [Hu|[<-|[]]].
    + now apply HL.
    + apply (Hlt j). apply in_or_app. right. now left.
  - intros i Hi.
    assert (Hcase : i = set_detected j true
                    \/ (In i (l1 ++ j :: l2) /\ uid i <> uid j)).
    { rewrite map_app in Hnd. simpl in Hnd.
      apply in_app_or in Hi. destruct Hi as [Hi|[<-|Hi]].
      - right. split; [apply in_or_app; now left|].
        intro Heq. apply NoDup_remove_2 in Hnd. apply Hnd.
        apply in_or_app. left. rewrite <- Heq. now apply in_map.
      - now left.
      - right. split; [apply in_or_app; right; now right|].
        intro Heq. apply NoDup_remove_2 in Hnd. apply Hnd.
        apply in_or_app. right. rewrite <- Heq. now apply in_map. }
    destruct Hcase as [-> | [Hin Hne]].
    + simpl. split; [|reflexivity]. intros _. apply in_or_app. right. now left.
    + rewrite (Hdet i Hin). split.
      * intro. apply in_or_app. now left.
      * intro Hu. apply in_app_or in Hu. destruct Hu as [Hu|[Hu|[]]]; [assumption|].
        congruence.
  - apply NoDup_app; [assumption | repeat constructor; intros [] |].
    intros u Hu [<-|[]]. contradiction.
Qed.

Section Runs.

Variable np_sqrt : Q -> Q.
Variable ai_model : Q * Q * Q * Q -> option (label * Q).
Variable cfg : config.

Local Abbreviation process_cluster' := (process_cluster np_sqrt ai_model cfg).
Local Abbreviation cycle := (run_realtime_cycle np_sqrt ai_model cfg).
Local Abbreviation run := (run_perfect_simulation np_sqrt ai_model cfg).

(** Induction over the cluster loop. *)
Lemma process_fold_ind (P : process_state -> Prop) heads st :
  P st ->
  (forall st' ch, P st' -> P (process_cluster' st' ch)) ->
  P (fold_left process_cluster' heads st).
Proof.
  intros H0 Hstep. revert st H0.
  induction heads as [|ch rest IH]; intros st H0; simpl; auto.
Qed.

Lemma simulate_intrusions_log_inv d s L :
  log_inv (current_intrusions s) (total_intrusions s) L ->
  log_inv (current_intrusions (_simulate_intrusions d s))
          (total_intrusions (_simulate_intrusions d s)) L.
Proof.
  intro H. unfold _simulate_intrusions, remove_expired.
  destruct (spawn d) as [[[ty px] dur]|]; simpl.
  - apply log_inv_spawn. now apply log_inv_filter.
  - now apply log_inv_filter.
Qed.

Lemma collect_intrusions s :
  current_intrusions (collect_real_time_data cfg s)
  = snd (synthesize cfg (reset_flags (sensor_nodes s)) (current_intrusions s))
  /\ total_intrusions (collect_real_time_data cfg s) = total_intrusions s
  /\ simulation_time (collect_real_time_data cfg s) = simulation_time s
  /\ cluster_heads (collect_real_time_data cfg s) = cluster_heads s.
Proof.
  unfold collect_real_time_data.
  destruct (synthesize cfg (reset_flags (sensor_nodes s)) (current_intrusions s)).
  repeat split.
Qed.

Lemma collect_log_inv s L :
  log_inv (current_intrusions s) (total_intrusions s) L ->
  log_inv (current_intrusions (collect_real_time_data cfg s))
          (total_intrusions (collect_real_time_data cfg s)) L.
Proof.
  intro H. destruct (collect_intrusions s) as (-> & -> & _).
  eapply log_inv_marks; [apply synthesize_marks | exact H].
Qed.

Lemma process_cluster_log_inv L st ch :
  log_inv (current_intrusions (p_sim st)) (total_intrusions (p_sim st))
          (L ++ map fst (p_detections st)) ->
  log_inv (current_intrusions (p_sim (process_cluster' st ch)))
          (total_intrusions (p_sim (process_cluster' st ch)))
          (L ++ map fst (p_detections (process_cluster' st ch))).
Proof.
  intro H.
  destruct (process_cluster_shape np_sqrt ai_model cfg st ch)
    as (_ & _ & _ & Ht & _ & Hcase).
  rewrite Ht.
  destruct Hcase as [(-> & _ & _ & _ & _ & ->) | (cd & p & c & _ & _ & _ & Hm)].
  - exact H.
  - cbv zeta in Hm. destruct Hm as (-> & _ & _ & _ & _ & ->).
    rewrite map_app, app_assoc. now apply mark_detected_log_inv.
Qed.

Lemma process_log_inv s L :
  log_inv (current_intrusions s) (total_intrusions s) L ->
  let r := _process_cluster_data np_sqrt ai_model cfg s in
  log_inv (current_intrusions (fst (fst r))) (total_intrusions (fst (fst r)))
          (L ++ map fst (snd r)).
Proof.
  intro H. unfold _process_cluster_data. cbn [fst snd current_intrusions total_intrusions].
  apply (process_fold_ind
           (fun st => log_inv (current_intrusions (p_sim st))
                              (total_intrusions (p_sim st))
                              (L ++ map fst (p_detections st)))).
  - simpl. now rewrite app_nil_r.
  - intros st' ch. apply process_cluster_log_inv.
Qed.

Lemma cycle_log_inv d s L :
  log_inv (current_intrusions s) (total_intrusions s) L ->
  let r := cycle d s in
  log_inv (current_intrusions (fst (fst r))) (total_intrusions (fst (fst r)))
          (L ++ map fst (snd r)).
Proof.
  intro H. unfold run_realtime_cycle.
  match goal with
  | |- context [_process_cluster_data np_sqrt ai_model cfg ?s3] =>
      pose proof (process_log_inv s3 L) as Hp;
      destruct (_process_cluster_data np_sqrt ai_model cfg s3) as [[s4 al] dets]
  end.
  cbn [fst snd current_intrusions total_intrusions] in *.
  apply Hp. apply collect_log_inv. apply simulate_intrusions_log_inv. exact H.
Qed.

Lemma run_log_inv ds s L :
  log_inv (current_intrusions s) (total_intrusions s) L ->
  let r := run ds s in
  log_inv (current_intrusions (fst (fst r))) (total_intrusions (fst (fst r)))
          (L ++ map fst (snd r)).
Proof.
  revert s L. induction ds as [|d rest IH]; intros s L H; cbn [run_perfect_simulation].
  - simpl. now rewrite app_nil_r.
  - pose proof (cycle_log_inv d s L H) as Hc. cbv zeta in Hc.
    destruct (cycle d s) as [[s1 al] dets]. cbn [fst snd] in Hc.
    specialize (IH s1 _ Hc). cbv zeta in IH.
    destruct (run rest s1) as [[s2 al'] dets']. cbn [fst snd] in *.
    now rewrite map_app, app_assoc.
Qed.

Lemma deploy_log_inv dd :
  let s := _deploy_perfect_network np_sqrt cfg dd in
  log_inv (current_intrusions s) (total_intrusions s) [].
Proof.
  unfold _deploy_perfect_network.
  destruct (_assign_clusters np_sqrt cfg (deploy_sensor_nodes cfg dd)
                             (deploy_cluster_heads cfg)) as [nodes heads].
  simpl. split; [apply NoDup_nil|].
  split; [intros i []|]. split; [intros u []|].
  split; [intros i []|apply NoDup_nil].
Qed.

End Runs.

(** ** Nodes and heads across the cluster loop and the cycle *)

Section CycleFrames.

Variable np_sqrt : Q -> Q.
Variable ai_model : Q * Q * Q * Q -> option (label * Q).
Variable cfg : config.

Lemma process_nodes_frame {B : Type} (p : SensorNode -> B) s :
  (forall n, p (_update_sensor_history n) = p n) ->
  map p (sensor_nodes (fst (fst (_process_cluster_data np_sqrt ai_model cfg s))))
  = map p (sensor_nodes s).
Proof.
  intro Hp. unfold _process_cluster_data. cbn [fst sensor_nodes].
  apply (process_fold_ind np_sqrt ai_model cfg
           (fun st => map p (sensor_nodes (p_sim st)) = map p (sensor_nodes s))).
  - reflexivity.
  - intros st ch H.
    destruct (process_cluster_shape np_sqrt ai_model cfg st ch) as (-> & _).
    rewrite collect_cluster_data_frame by exact Hp. exact H.
Qed.

Lemma collect_cluster_data_head ch nodes :
  head_static (snd (collect_cluster_data np_sqrt cfg ch nodes)) = head_static ch.
Proof.
  unfold collect_cluster_data.
  destruct (negb (ch_is_active ch)); [reflexivity|].
  destruct (filter (is_member np_sqrt cfg ch) nodes); reflexivity.
Qed.

Lemma process_cluster_done st ch :
  exists ch', p_done (process_cluster np_sqrt ai_model cfg st ch) = p_done st ++ [ch']
              /\ head_static ch' = head_static ch.
Proof.
  unfold process_cluster.
  pose proof (collect_cluster_data_head ch (sensor_nodes (p_sim st))) as Hh.
  destruct (collect_cluster_data np_sqrt cfg ch (sensor_nodes (p_sim st)))
    as [[cdo nodes] ch1]. cbn [snd] in Hh.
  destruct cdo as [cd|]; [|now exists ch1].
  destruct (0 <? total_nodes cd)%nat; [|now exists ch1].
  destruct (analyze_intrusion ai_model (Some cd)) as [prediction conf].
  destruct (alert_raised cfg prediction conf).
  - destruct (mark_detected (current_intrusions (p_sim st))
                (fst (cluster_position cd)) (simulation_time (p_sim st))).
    exists (update_prediction_history ch1 prediction conf). split; [reflexivity|].
    exact Hh.
  - exists (update_prediction_history ch1 prediction conf). split; [reflexivity|].
    exact Hh.
Qed.

Lemma process_heads_frame s :
  map head_static (cluster_heads (fst (fst (_process_cluster_data np_sqrt ai_model cfg s))))
  = map head_static (cluster_heads s).
Proof.
  unfold _process_cluster_data. cbn [fst cluster_heads].
  change (map head_static (cluster_heads s))
    with (map head_static (p_done (mkProcess s [] [] [])) ++ map head_static (cluster_heads s)).
  generalize (mkProcess s [] [] []) as st.
  induction (cluster_heads s) as [|ch rest IH]; intro st; cbn [fold_left].
  - now rewrite app_nil_r.
  - rewrite IH. destruct (process_cluster_done st ch) as (ch' & -> & Hh).
    rewrite map_app, <- app_assoc. simpl. now rewrite Hh.
Qed.

Lemma powered_battery l l' :
  map powered l' = map powered l -> map battery l' = map battery l.
Proof.
  intro H. transitivity (map snd (map powered l')); [now rewrite map_map|].
  rewrite H. now rewrite map_map.
Qed.

Lemma powered_static l l' :
  map powered l' = map powered l -> map static l' = map static l.
Proof.
  intro H. transitivity (map fst (map powered l')); [now rewrite map_map|].
  rewrite H. now rewrite map_map.
Qed.

Lemma simulate_intrusions_nodes d s :
  sensor_nodes (_simulate_intrusions d s) = sensor_nodes s
  /\ cluster_heads (_simulate_intrusions d s) = cluster_heads s
  /\ simulation_time (_simulate_intrusions d s) = simulation_time s.
Proof.
  unfold _simulate_intrusions. destruct (spawn d) as [[[ty px] dur]|]; repeat split.
Qed.

(** Everything before the energy update leaves static fields and batteries
    of the nodes as they were. *)
Lemma before_energy_powered d s :
  let s1 := mkSim (fault_pass d (sensor_nodes s)) (cluster_heads s)
                  (simulation_time s) (current_intrusions s)
                  (total_intrusions s) (detected_intrusions s)
                  (response_times s) (intrusion_alerts s) (S (cycle_count s)) in
  let s3 := collect_real_time_data cfg (_simulate_intrusions d s1) in
  map powered (sensor_nodes (fst (fst (_process_cluster_data np_sqrt ai_model cfg s3))))
  = map powered (sensor_nodes s).
Proof.
  intros s1 s3.
  rewrite process_nodes_frame by reflexivity.
  unfold s3. rewrite collect_powered.
  destruct (simulate_intrusions_nodes d s1) as (-> & _).
  apply fault_pass_powered.
Qed.

Lemma update_node_energy_static d n :
  static (update_node_energy cfg d n) = static n.
Proof.
  unfold update_node_energy.
  destruct (is_active n) eqn:E; [|reflexivity].
  destruct (solar_recharge d (node_id n)); unfold static; simpl; now rewrite E.
Qed.

Lemma cycle_static d s :
  map static (sensor_nodes (fst (fst (run_realtime_cycle np_sqrt ai_model cfg d s))))
  = map static (sensor_nodes s).
Proof.
  unfold run_realtime_cycle.
  pose proof (before_energy_powered d s) as H. cbv zeta in H.
  destruct (_process_cluster_data np_sqrt ai_model cfg _) as [[s4 al] dets].
  cbn [fst sensor_nodes] in *.
  unfold _update_energy_consumption.
  rewrite (map_map_ext static) by apply update_node_energy_static.
  now apply powered_static.
Qed.

Lemma cycle_heads d s :
  map head_static (cluster_heads (fst (fst (run_realtime_cycle np_sqrt ai_model cfg d s))))
  = map head_static (cluster_heads s).
Proof.
  unfold run_realtime_cycle.
  match goal with
  | |- context [_process_cluster_data np_sqrt ai_model cfg ?s3] =>
      pose proof (process_heads_frame s3) as H;
      destruct (collect_intrusions cfg (_simulate_intrusions d
        (mkSim (fault_pass d (sensor_nodes s)) (cluster_heads s)
               (simulation_time s) (current_intrusions s)
               (total_intrusions s) (detected_intrusions s)
               (response_times s) (intrusion_alerts s) (S (cycle_count s)))))
        as (_ & _ & _ & Hc);
      rewrite Hc in H;
      destruct (_process_cluster_data np_sqrt ai_model cfg s3) as [[s4 al] dets]
  end.
  cbn [fst cluster_heads] in *. rewrite H.
  now destruct (simulate_intrusions_nodes d
        (mkSim (fault_pass d (sensor_nodes s)) (cluster_heads s)
               (simulation_time s) (current_intrusions s)
               (total_intrusions s) (detected_intrusions s)
               (response_times s) (intrusion_alerts s) (S (cycle_count s))))
    as (_ & -> & _).
Qed.



End CycleFrames.

(** * The claims *)

Section Matching.

Variable np_sqrt : Q -> Q.
Variable ai_model : Q * Q * Q * Q -> option (label * Q).
Variable cfg : config.

Lemma collect_cluster_data_total ch nodes cd nodes' ch' :
  collect_cluster_data np_sqrt cfg ch nodes = (Some cd, nodes', ch') ->
  (0 <? total_nodes cd)%nat = true.
Proof.
  unfold collect_cluster_data.
  destruct (negb (ch_is_active ch)); [discriminate|].
  destruct (filter (is_member np_sqrt cfg ch) nodes); [discriminate|].
  intro H. injection H as <- _ _. reflexivity.
Qed.

(** An iteration whose classification passes the alert guard. *)
Lemma process_cluster_alert st ch cd nodes ch1 prediction conf :
  collect_cluster_data np_sqrt cfg ch (sensor_nodes (p_sim st)) = (Some cd, nodes, ch1) ->
  analyze_intrusion ai_model (Some cd) = (prediction, conf) ->
  alert_raised cfg prediction conf = true ->
  let s := p_sim st in
  let a := generate_alert (intrusion_alerts s) prediction conf cd in
  let m := mark_detected (current_intrusions s) (ch_x ch) (simulation_time s) in
  process_cluster np_sqrt ai_model cfg st ch
  = mkProcess
      (mkSim nodes (cluster_heads s) (simulation_time s) (fst m)
             (total_intrusions s)
             (detected_intrusions s + length (reported (snd m)))
             (response_times s ++ map snd (reported (snd m)))
             (intrusion_alerts s ++ [a]) (cycle_count s))
      (p_done st ++ [update_prediction_history ch1 prediction conf])
      (p_alerts st ++ [a])
      (p_detections st ++ reported (snd m)).
Proof.
  intros E Ea Er s a m. subst s a m. unfold process_cluster.
  rewrite E, Ea, Er, (collect_cluster_data_total _ _ _ _ _ E).
  destruct (collect_cluster_data_position _ _ _ _ _ _ _ E) as [-> _].
  cbn [fst].
  destruct (mark_detected (current_intrusions (p_sim st)) (ch_x ch)
                          (simulation_time (p_sim st))) as [ints ev].
  reflexivity.
Qed.

(** An iteration whose classification does not pass the alert guard. *)
Lemma process_cluster_no_alert st ch cd nodes ch1 prediction conf :
  collect_cluster_data np_sqrt cfg ch (sensor_nodes (p_sim st)) = (Some cd, nodes, ch1) ->
  analyze_intrusion ai_model (Some cd) = (prediction, conf) ->
  alert_raised cfg prediction conf = false ->
  process_cluster np_sqrt ai_model cfg st ch
  = mkProcess (with_nodes (p_sim st) nodes)
              (p_done st ++ [update_prediction_history ch1 prediction conf])
              (p_alerts st) (p_detections st).
Proof.
  intros E Ea Er. unfold process_cluster.
  rewrite E, Ea, Er, (collect_cluster_data_total _ _ _ _ _ E). reflexivity.
Qed.

(** C1 (as the code has it). When an iteration of the cluster loop raises an
    alert, the matcher flags the first intrusion in list order that is still
    undetected and whose position is strictly within 100 of the alerting
    cluster's x position, whatever its type, and reports and records its
    detection time, current time minus start time; every other intrusion is
    left as it was, and when no intrusion matches nothing is flagged. *)
Theorem alert_flags_first_match st ch cd nodes ch1 prediction conf :
  collect_cluster_data np_sqrt cfg ch (sensor_nodes (p_sim st)) = (Some cd, nodes, ch1) ->
  analyze_intrusion ai_model (Some cd) = (prediction, conf) ->
  alert_raised cfg prediction conf = true ->
  let s := p_sim st in
  let st' := process_cluster np_sqrt ai_model cfg st ch in
  exists ev,
    matcher_outcome (current_intrusions s) (ch_x ch) (simulation_time s)
                    (current_intrusions (p_sim st')) ev
    /\ p_detections st' = p_detections st ++ reported ev
    /\ response_times (p_sim st') = response_times s ++ map snd (reported ev)
    /\ detected_intrusions (p_sim st')
       = (detected_intrusions s + length (reported ev))%nat.
Proof.
  intros E Ea Er s st'. subst s st'.
  rewrite (process_cluster_alert _ _ _ _ _ _ _ E Ea Er). cbn [p_sim p_detections
    current_intrusions response_times detected_intrusions].
  eexists. split; [apply mark_detected_outcome|].
  repeat split.
Qed.

End Matching.

(** Witness of [alert_flags_first_match]: cluster head CH2 (at 400 m) raising
    a human alert while a human intrusion is active at 450 m. *)
Lemma alert_flags_first_match_witness :
  let st := mkProcess first_cycle_collected [] [] [] in
  let ch := head_of first_cycle_collected 2 in
  let st' := process_cluster floor_sqrt (constant_classifier human (99 # 100))
                             SIMULATION_CONFIG st ch in
  exists ev,
    matcher_outcome (current_intrusions (p_sim st)) (ch_x ch)
                    (simulation_time (p_sim st))
                    (current_intrusions (p_sim st')) ev
    /\ p_detections st' = p_detections st ++ reported ev
    /\ response_times (p_sim st')
       = response_times (p_sim st) ++ map snd (reported ev)
    /\ detected_intrusions (p_sim st')
       = (detected_intrusions (p_sim st) + length (reported ev))%nat.
Proof.
  intros st ch.
  eapply (alert_flags_first_match floor_sqrt (constant_classifier human (99 # 100))
            SIMULATION_CONFIG st ch).
  - vm_compute. reflexivity.
  - vm_compute. reflexivity.
  - vm_compute. reflexivity.
Defined.

(** C1, counterexample. Shipped configuration. (1) A human intrusion spawns
    at 450 m and the classifier labels every snapshot [animal] with
    confidence 0.99: all four alerts carry the label [animal], and the human
    intrusion is flagged detected by one of them. (2) With a classifier that
    tells humans and vehicles by temperature, an animal intrusion spawns at
    420 m (no alert), then a human intrusion at 450 m: the two alerts of that
    cycle are human alerts, the one of CH2 flags the animal intrusion, first
    in the list, and the human intrusion stays unflagged. *)
Lemma alert_flags_other_type :
  (let r := run_realtime_cycle floor_sqrt (constant_classifier animal (99 # 100))
              SIMULATION_CONFIG (spawning_cycle human 450 30)
              (_deploy_perfect_network floor_sqrt SIMULATION_CONFIG level_draws) in
   map intrusion_type (snd (fst r)) = [animal; animal; animal; animal]
   /\ map (fun i => (i_type i, detected i)) (current_intrusions (fst (fst r)))
      = [(human, true)]
   /\ snd r = [(0%nat, 0%Z)])
  /\ (let r := run_perfect_simulation floor_sqrt thermal_classifier
                 SIMULATION_CONFIG
                 [spawning_cycle animal 420 60; spawning_cycle human 450 60]
                 (_deploy_perfect_network floor_sqrt SIMULATION_CONFIG level_draws) in
      map (fun a => (intrusion_type a, a_cluster_id a)) (snd (fst r))
      = [(human, 2%nat); (human, 3%nat)]
      /\ map (fun i => (i_type i, detected i)) (current_intrusions (fst (fst r)))
         = [(animal, true); (human, false)]
      /\ snd r = [(0%nat, 1%Z)]).
Proof. vm_compute. repeat split. Qed.

Section Lifetime.

Variable np_sqrt : Q -> Q.
Variable ai_model : Q * Q * Q * Q -> option (label * Q).
Variable cfg : config.

(** C4. Along any run from deployment, continued by any further cycles: the
    detections reported never name the same intrusion twice, and an intrusion
    that is flagged detected at some point is still flagged at every later
    point at which it is in the active list. *)
Theorem detected_flag_set_once (dd : deploy_draws) (ds1 ds2 : list cycle_draws) :
  let r1 := run_perfect_simulation np_sqrt ai_model cfg ds1
              (_deploy_perfect_network np_sqrt cfg dd) in
  let r2 := run_perfect_simulation np_sqrt ai_model cfg ds2 (fst (fst r1)) in
  NoDup (map fst (snd r1 ++ snd r2))
  /\ forall i i',
       In i (current_intrusions (fst (fst r1))) ->
       In i' (current_intrusions (fst (fst r2))) ->
       uid i' = uid i -> detected i = true -> detected i' = true.
Proof.
  intros r1 r2.
  pose proof (run_log_inv np_sqrt ai_model cfg ds1 _ [] (deploy_log_inv np_sqrt cfg dd))
    as H1. cbv zeta in H1. fold r1 in H1. cbn [app] in H1.
  pose proof (run_log_inv np_sqrt ai_model cfg ds2 _ _ H1) as H2.
  cbv zeta in H2. fold r2 in H2. rewrite <- map_app in H2.
  split.
  - apply H2.
  - intros i i' Hi Hi' Hu Hd.
    destruct H1 as (_ & _ & _ & Hdet1 & _).
    destruct H2 as (_ & _ & _ & Hdet2 & _).
    apply Hdet2; [exact Hi'|]. rewrite Hu, map_app. apply in_or_app. left.
    now apply Hdet1.
Qed.

End Lifetime.

(** Witness of [detected_flag_set_once]: a human intrusion spawned at 450 m,
    flagged in its first cycle under a classifier that always answers human,
    followed by two quiet cycles. *)
Lemma detected_flag_set_once_witness :
  let r1 := run_perfect_simulation floor_sqrt (constant_classifier human (99 # 100))
              SIMULATION_CONFIG [spawning_cycle human 450 30]
              (_deploy_perfect_network floor_sqrt SIMULATION_CONFIG level_draws) in
  let r2 := run_perfect_simulation floor_sqrt (constant_classifier human (99 # 100))
              SIMULATION_CONFIG [quiet_cycle; quiet_cycle] (fst (fst r1)) in
  NoDup (map fst (snd r1 ++ snd r2))
  /\ forall i i',
       In i (current_intrusions (fst (fst r1))) ->
       In i' (current_intrusions (fst (fst r2))) ->
       uid i' = uid i -> detected i = true -> detected i' = true.
Proof.
  exact (detected_flag_set_once floor_sqrt (constant_classifier human (99 # 100))
           SIMULATION_CONFIG level_draws [spawning_cycle human 450 30]
           [quiet_cycle; quiet_cycle]).
Defined.

Section Energy.

Variable np_sqrt : Q -> Q.
Variable ai_model : Q * Q * Q * Q -> option (label * Q).
Variable cfg : config.

Lemma consumption_nonneg n : 0 <= consumption n.
Proof.
  unfold consumption.
  destruct (any_reading (sensor_readings n));
    destruct (camera_module n) as [st|];
    try destruct (has_camera n && cam_eqb st RECORDING);
    vm_compute; discriminate.
Qed.

Lemma update_node_energy_ok d n :
  0 <= solar_recharge_amount cfg ->
  battery_ok (battery n) ->
  battery_ok (battery (update_node_energy cfg d n)).
Proof.
  intros Hr [Hlo Hhi]. unfold update_node_energy.
  destruct (is_active n); [|split; assumption].
  pose proof (consumption_nonneg n) as Hc.
  assert (H1 : battery_ok (py_max 0 (battery n - consumption n))).
  { split; [apply py_max_lower|]. apply py_max_upper; lra. }
  destruct (solar_recharge d (node_id n)); cbn [battery set_battery]; [|exact H1].
  destruct H1 as [H1lo H1hi]. split.
  - apply py_min_lower; lra.
  - apply py_min_upper.
Qed.

Lemma simulate_energy_consumption_ok ch :
  battery_ok (ch_battery ch) ->
  battery_ok (ch_battery (simulate_energy_consumption ch)).
Proof.
  intros [Hlo Hhi]. unfold simulate_energy_consumption. cbn [ch_battery].
  split; [apply py_max_lower|].
  apply py_max_upper; [lra|].
  destruct (data_buffer ch) as [|c rest]; [lra|].
  assert (0 <= inject_Z (Z.of_nat (length (c :: rest)))).
  { change 0 with (inject_Z 0). rewrite <- Zle_Qle. lia. }
  nra.
Qed.

Lemma iter_energy_ok k ch :
  battery_ok (ch_battery ch) ->
  battery_ok (ch_battery (Nat.iter k simulate_energy_consumption ch)).
Proof.
  intro H. induction k as [|k IH]; simpl; [exact H|].
  now apply simulate_energy_consumption_ok.
Qed.

Lemma deploy_nodes_battery dd cc idxs ca :
  map battery (deploy_nodes cfg dd cc idxs ca) = map (draw_battery dd) idxs.
Proof.
  revert ca. induction idxs as [|i rest IH]; intro ca; cbn [deploy_nodes map].
  - reflexivity.
  - destruct (camera_anchor _ ca cc); cbn [map]; now rewrite IH.
Qed.

Lemma add_cluster_member_battery c n heads :
  battery (fst (add_cluster_member c n heads)) = battery n
  /\ map ch_battery (snd (add_cluster_member c n heads)) = map ch_battery heads.
Proof.
  unfold add_cluster_member.
  destruct (find (fun ch => Nat.eqb (ch_id ch) c) heads) as [ch|]; [|now split].
  destruct (existsb (Nat.eqb (node_id n)) (cluster_members ch)); [now split|].
  split; [reflexivity|]. cbn [snd].
  apply map_map_ext. intro h. now destruct (Nat.eqb (ch_id h) c).
Qed.

Lemma assign_clusters_battery nodes heads :
  map battery (fst (_assign_clusters np_sqrt cfg nodes heads)) = map battery nodes
  /\ map ch_battery (snd (_assign_clusters np_sqrt cfg nodes heads))
     = map ch_battery heads.
Proof.
  revert heads. induction nodes as [|n rest IH]; intro heads;
    cbn [_assign_clusters]; [now split|].
  destruct (nearest_head np_sqrt cfg n heads None None) as [ch|].
  - destruct (add_cluster_member_battery (ch_id ch) n heads) as [Hb Hh].
    destruct (add_cluster_member (ch_id ch) n heads) as [n' heads'].
    cbn [fst snd] in Hb, Hh.
    destruct (IH heads') as [IHb IHh].
    destruct (_assign_clusters np_sqrt cfg rest heads') as [rest' heads''].
    cbn [fst snd map] in *. rewrite Hb, IHb, IHh, Hh. now split.
  - destruct (IH heads) as [IHb IHh].
    destruct (_assign_clusters np_sqrt cfg rest heads) as [rest' heads'].
    cbn [fst snd map] in *. rewrite IHb, IHh. now split.
Qed.

Lemma deploy_batteries dd :
  let s := _deploy_perfect_network np_sqrt cfg dd in
  map battery (sensor_nodes s) = map (draw_battery dd) (seq 0 (cfg_sensor_nodes cfg))
  /\ Forall (fun b => b = 100) (map ch_battery (cluster_heads s)).
Proof.
  unfold _deploy_perfect_network.
  destruct (assign_clusters_battery (deploy_sensor_nodes cfg dd)
                                    (deploy_cluster_heads cfg)) as [Hb Hh].
  destruct (_assign_clusters np_sqrt cfg (deploy_sensor_nodes cfg dd)
                             (deploy_cluster_heads cfg)) as [nodes heads].
  cbn [fst snd sensor_nodes cluster_heads] in *.
  rewrite Hb, Hh. split.
  - apply deploy_nodes_battery.
  - unfold deploy_cluster_heads. rewrite map_map. cbn [ch_battery].
    apply Forall_forall. intros b Hin. apply in_map_iff in Hin.
    now destruct Hin as (i & <- & _).
Qed.

Lemma cycle_batteries_ok d s :
  0 <= solar_recharge_amount cfg ->
  Forall battery_ok (map battery (sensor_nodes s)) ->
  Forall battery_ok
    (map battery (sensor_nodes (fst (fst (run_realtime_cycle np_sqrt ai_model cfg d s))))).
Proof.
  intros Hr H. unfold run_realtime_cycle.
  pose proof (before_energy_powered np_sqrt ai_model cfg d s) as Hp. cbv zeta in Hp.
  apply powered_battery in Hp.
  destruct (_process_cluster_data np_sqrt ai_model cfg _) as [[s4 al] dets].
  cbn [fst sensor_nodes] in *. rewrite <- Hp in H.
  unfold _update_energy_consumption. rewrite map_map.
  rewrite Forall_map in *. eapply Forall_impl; [|exact H].
  intros n Hn. now apply update_node_energy_ok.
Qed.

Lemma run_batteries_ok ds s :
  0 <= solar_recharge_amount cfg ->
  Forall battery_ok (map battery (sensor_nodes s)) ->
  Forall battery_ok (map ch_battery (cluster_heads s)) ->
  let s' := fst (fst (run_perfect_simulation np_sqrt ai_model cfg ds s)) in
  Forall battery_ok (map battery (sensor_nodes s'))
  /\ Forall battery_ok (map ch_battery (cluster_heads s')).
Proof.
  intro Hr. revert s. induction ds as [|d rest IH]; intros s Hn Hh;
    cbn [run_perfect_simulation].
  - now split.
  - pose proof (cycle_batteries_ok d s Hr Hn) as Hn1.
    pose proof (cycle_heads np_sqrt ai_model cfg d s) as Hh1.
    destruct (run_realtime_cycle np_sqrt ai_model cfg d s) as [[s1 al] dets].
    cbn [fst] in Hn1, Hh1.
    assert (Hh1' : Forall battery_ok (map ch_battery (cluster_heads s1))).
    { assert (E : map ch_battery (cluster_heads s1) = map ch_battery (cluster_heads s)).
      { transitivity (map (fun p => snd (fst p)) (map head_static (cluster_heads s1)));
          [now rewrite map_map|]. rewrite Hh1. now rewrite map_map. }
      now rewrite E. }
    specialize (IH s1 Hn1 Hh1'). cbv zeta in IH.
    destruct (run_perfect_simulation np_sqrt ai_model cfg rest s1) as [[s2 al'] dets'].
    exact IH.
Qed.

(** C6. With initial batteries drawn inside a configured range that lies in
    [0, 100] and a recharge amount that is not negative (85..100 and 12 as
    shipped), after every cycle of any run the battery of every sensor node
    is in [0, 100]; and the battery of every cluster head stays in [0, 100]
    under any number of its own energy updates. *)
Theorem battery_within_bounds (dd : deploy_draws) (ds : list cycle_draws) :
  0 <= initial_battery_min cfg ->
  initial_battery_max cfg <= 100 ->
  0 <= solar_recharge_amount cfg ->
  (forall i, initial_battery_min cfg <= draw_battery dd i <= initial_battery_max cfg) ->
  let s := fst (fst (run_perfect_simulation np_sqrt ai_model cfg ds
                       (_deploy_perfect_network np_sqrt cfg dd))) in
  (forall n, In n (sensor_nodes s) -> 0 <= battery n <= 100)
  /\ (forall ch k, In ch (cluster_heads s) ->
        0 <= ch_battery (Nat.iter k simulate_energy_consumption ch) <= 100).
Proof.
  intros Hmin Hmax Hr Hdraw s.
  destruct (deploy_batteries dd) as [Hb Hh]. cbv zeta in Hb, Hh.
  destruct (run_batteries_ok ds (_deploy_perfect_network np_sqrt cfg dd) Hr)
    as [Hn' Hh'].
  - rewrite Hb. rewrite Forall_map. apply Forall_forall. intros i _.
    specialize (Hdraw i). unfold battery_ok. lra.
  - eapply Forall_impl; [|exact Hh]. intros b ->. unfold battery_ok. lra.
  - fold s in Hn', Hh'. rewrite Forall_map in Hn', Hh'. split.
    + intros n Hin. exact (proj1 (Forall_forall _ _) Hn' n Hin).
    + intros ch k Hin. apply iter_energy_ok.
      exact (proj1 (Forall_forall _ _) Hh' ch Hin).
Qed.

End Energy.

(** Witness of [battery_within_bounds]: the shipped configuration, a cycle
    with an intrusion and a cycle in which every node recharges. *)
Lemma battery_within_bounds_witness :
  let s := fst (fst (run_perfect_simulation floor_sqrt
                       (constant_classifier human (99 # 100)) SIMULATION_CONFIG
                       [spawning_cycle vehicle 500 40; recharging_cycle]
                       (_deploy_perfect_network floor_sqrt SIMULATION_CONFIG
                                                level_draws))) in
  (forall n, In n (sensor_nodes s) -> 0 <= battery n <= 100)
  /\ (forall ch k, In ch (cluster_heads s) ->
        0 <= ch_battery (Nat.iter k simulate_energy_consumption ch) <= 100).
Proof.
  apply (battery_within_bounds floor_sqrt (constant_classifier human (99 # 100))
           SIMULATION_CONFIG level_draws
           [spawning_cycle vehicle 500 40; recharging_cycle]).
  - unfold Qle; simpl; lia.
  - unfold Qle; simpl; lia.
  - unfold Qle; simpl; lia.
  - intro i. split; unfold Qle; simpl; lia.
Defined.

Section Expiry.

Variable np_sqrt : Q -> Q.
Variable ai_model : Q * Q * Q * Q -> option (label * Q).
Variable cfg : config.



End Expiry.


Section Synthesis.

Variable cfg : config.

Lemma activate_as_map nodes ints px ty :
  fst (_activate_nearby_sensors cfg nodes ints px ty)
  = map (activate_node cfg px ty) nodes.
Proof. reflexivity. Qed.

Lemma synthesize_as_map todo nodes ints :
  fst (fold_left (fun st i => _activate_nearby_sensors cfg (fst st) (snd st)
                                (position i) (i_type i)) todo (nodes, ints))
  = map (fun n => fold_left (fun m i => activate_node cfg (position i) (i_type i) m)
                            todo n) nodes.
Proof.
  revert nodes ints. induction todo as [|i rest IH]; intros nodes ints; cbn [fold_left].
  - now rewrite map_id.
  - unfold _activate_nearby_sensors at 2. cbn [fst snd].
    rewrite IH, map_map. reflexivity.
Qed.

Lemma activate_node_static px ty n :
  static (activate_node cfg px ty n) = static n.
Proof. unfold activate_node. now destruct (in_activation cfg n px). Qed.

Lemma in_activation_static n m px :
  static m = static n -> in_activation cfg m px = in_activation cfg n px.
Proof.
  unfold static, in_activation. intro H. injection H as _ Hx _ _ Ha _.
  now rewrite Hx, Ha.
Qed.

Lemma activated_by_static n m ints :
  static m = static n -> activated_by cfg m ints = activated_by cfg n ints.
Proof.
  intro H. unfold activated_by. induction ints as [|j rest IH]; [reflexivity|].
  cbn [existsb]. f_equal; [now apply in_activation_static | exact IH].
Qed.

Lemma activated_readings_flag ty r :
  intrusion_detected (activated_readings ty r) = true.
Proof. now destruct ty. Qed.

(** A node under a sequence of activations. *)
Lemma activations_node todo n :
  let n' := fold_left (fun m i => activate_node cfg (position i) (i_type i) m) todo n in
  static n' = static n
  /\ intrusion_detected (sensor_readings n')
     = intrusion_detected (sensor_readings n) || activated_by cfg n todo
  /\ (activated_by cfg n todo = false -> sensor_readings n' = sensor_readings n).
Proof.
  revert n. induction todo as [|i rest IH]; intro n; cbn [fold_left].
  - cbn. rewrite orb_false_r. repeat split.
  - destruct (IH (activate_node cfg (position i) (i_type i) n)) as (Hs & Hf & Hr).
    pose proof (activate_node_static (position i) (i_type i) n) as Hs1.
    rewrite (activated_by_static n _ rest Hs1) in Hf, Hr. cbv zeta.
    split; [now rewrite Hs|]. unfold activated_by at 1 2. cbn [existsb].
    fold (activated_by cfg n rest).
    destruct (in_activation cfg n (position i)) eqn:E.
    + assert (Ean : activate_node cfg (position i) (i_type i) n
                    = set_readings n (activated_readings (i_type i) (sensor_readings n)))
        by (unfold activate_node; now rewrite E).
      split; [|discriminate]. rewrite Hf, Ean. cbn [sensor_readings set_readings].
      rewrite activated_readings_flag. cbn [orb]. now rewrite orb_true_r.
    + assert (Ean : activate_node cfg (position i) (i_type i) n = n)
        by (unfold activate_node; now rewrite E).
      rewrite Ean in Hf, Hr |- *. cbn [orb]. split; [exact Hf | exact Hr].
Qed.

Lemma collect_node_readings ints n :
  sensor_readings (collect_node cfg ints n) = sensor_readings n
  /\ static (collect_node cfg ints n) = static n.
Proof.
  unfold collect_node, drive_camera, update_camera_status,
    get_real_time_sensor_data, _update_sensor_history; simpl.
  split; node_cases.
Qed.

Lemma Forall2_map_self {A : Type} (R : A -> A -> Prop) (f : A -> A) (l : list A) :
  (forall a, R a (f a)) -> Forall2 R l (map f l).
Proof. intro H. induction l; simpl; constructor; auto. Qed.


End Synthesis.

Section CycleSynthesis.

Variable np_sqrt : Q -> Q.
Variable ai_model : Q * Q * Q * Q -> option (label * Q).
Variable cfg : config.





End CycleSynthesis.

Lemma Forall2_nth_rel {A B : Type} (R : A -> B -> Prop) (l : list A) (l' : list B)
    (k : nat) (d : A) (d' : B) :
  Forall2 R l l' -> (k < length l)%nat -> R (nth k l d) (nth k l' d').
Proof.
  intro H. revert k. induction H as [|a b l l' Hab _ IH]; intros k Hk;
    cbn [length] in Hk; [lia|].
  destruct k as [|k]; cbn [nth]; [exact Hab|]. apply IH. lia.
Qed.



Section Activity.

Variable np_sqrt : Q -> Q.
Variable ai_model : Q * Q * Q * Q -> option (label * Q).
Variable cfg : config.

Lemma deploy_nodes_active dd cc idxs ca :
  Forall (fun n => is_active n = true) (deploy_nodes cfg dd cc idxs ca).
Proof.
  revert ca. induction idxs as [|i rest IH]; intro ca; cbn [deploy_nodes].
  - constructor.
  - destruct (camera_anchor _ ca cc); constructor; auto.
Qed.

Lemma add_cluster_member_active c n heads :
  is_active (fst (add_cluster_member c n heads)) = is_active n.
Proof.
  unfold add_cluster_member.
  destruct (find (fun ch => Nat.eqb (ch_id ch) c) heads) as [ch|]; [|reflexivity].
  now destruct (existsb (Nat.eqb (node_id n)) (cluster_members ch)).
Qed.

Lemma assign_clusters_active nodes heads :
  map is_active (fst (_assign_clusters np_sqrt cfg nodes heads)) = map is_active nodes.
Proof.
  revert heads. induction nodes as [|n rest IH]; intro heads;
    cbn [_assign_clusters]; [reflexivity|].
  destruct (nearest_head np_sqrt cfg n heads None None) as [ch|].
  - pose proof (add_cluster_member_active (ch_id ch) n heads) as Ha.
    destruct (add_cluster_member (ch_id ch) n heads) as [n' heads'].
    specialize (IH heads').
    destruct (_assign_clusters np_sqrt cfg rest heads') as [rest' heads''].
    cbn [fst map] in *. now rewrite Ha, IH.
  - specialize (IH heads).
    destruct (_assign_clusters np_sqrt cfg rest heads) as [rest' heads'].
    cbn [fst map] in *. now rewrite IH.
Qed.

Lemma run_static ds s :
  map static (sensor_nodes (fst (fst (run_perfect_simulation np_sqrt ai_model cfg ds s))))
  = map static (sensor_nodes s).
Proof.
  revert s. induction ds as [|d rest IH]; intro s; cbn [run_perfect_simulation].
  - reflexivity.
  - pose proof (cycle_static np_sqrt ai_model cfg d s) as Hc.
    destruct (run_realtime_cycle np_sqrt ai_model cfg d s) as [[s1 al] dets].
    specialize (IH s1).
    destruct (run_perfect_simulation np_sqrt ai_model cfg rest s1) as [[s2 al'] dets'].
    cbn [fst] in *. now rewrite IH.
Qed.

(** No cycle ever clears (or sets) [is_active]: every sensor node is active
    in every state a run reaches, whatever its battery. *)
Lemma nodes_always_active dd ds :
  Forall (fun n => is_active n = true)
         (sensor_nodes (fst (fst (run_perfect_simulation np_sqrt ai_model cfg ds
                                    (_deploy_perfect_network np_sqrt cfg dd))))).
Proof.
  assert (H : forall l, map is_active l = map (fun p => snd (fst p)) (map static l)).
  { intro l. now rewrite map_map. }
  rewrite <- Forall_map with (f := is_active) (P := fun b => b = true).
  rewrite H, run_static, <- H.
  unfold _deploy_perfect_network.
  pose proof (assign_clusters_active (deploy_sensor_nodes cfg dd)
                                     (deploy_cluster_heads cfg)) as Ha.
  destruct (_assign_clusters np_sqrt cfg (deploy_sensor_nodes cfg dd)
                             (deploy_cluster_heads cfg)) as [nodes heads].
  cbn [fst sensor_nodes] in *. rewrite Ha, Forall_map.
  apply deploy_nodes_active.
Qed.

End Activity.

(** C2, the code at a failing input. Batteries deployed at 0.01%: after one
    quiet cycle node SN13 has battery 0 and is still marked active; in the
    next cycle, which spawns a vehicle intrusion at 400 m, the node is still
    active, its readings are synthesised, its cluster head CH2 counts it
    among 7 active members, and it draws the solar recharge. *)
Lemma depleted_node_stays_active :
  let s1 := fst (fst (run_realtime_cycle floor_sqrt (constant_classifier normal 0)
                        drained_config quiet_cycle
                        (_deploy_perfect_network floor_sqrt drained_config
                                                 drained_draws))) in
  let d2 := mkCycleDraws (fun _ => None) (fun _ => false) (fun _ => false)
                         (Some (vehicle, 400, 30%Z)) (fun _ => true) in
  let s2 := fst (fst (run_realtime_cycle floor_sqrt (constant_classifier normal 0)
                        drained_config d2 s1)) in
  battery (node_of s1 13) == 0
  /\ is_active (node_of s1 13) = true
  /\ is_active (node_of s2 13) = true
  /\ sensor_readings (node_of s2 13) = mkReadings 1 1 55 1 (3 # 4) true
  /\ map total_nodes (data_buffer (head_of s2 2)) = [7%nat; 7%nat]
  /\ battery (node_of s2 13) == 12.
Proof. vm_compute. repeat split. Qed.

(** C7, the code at the shipped configuration. The quota is 8 cameras, and
    deployment flags 10 nodes camera-capable (SN04, SN06, SN10, SN11, SN12,
    SN17, SN22, SN23, SN24, SN28), whatever the random draws: anchors 300 and
    700 each serve two nodes, because a repeated anchor does not grow the
    [camera_assigned] set that the quota test measures. *)
Theorem deployed_cameras_exceed_quota (dd : deploy_draws) :
  camera_quota SIMULATION_CONFIG = 8%Z
  /\ map node_id (filter has_camera (deploy_sensor_nodes SIMULATION_CONFIG dd))
     = [4; 6; 10; 11; 12; 17; 22; 23; 24; 28]%nat
  /\ length (filter has_camera
               (sensor_nodes (_deploy_perfect_network floor_sqrt SIMULATION_CONFIG
                                                      level_draws))) = 10%nat.
Proof. vm_compute. repeat split. Qed.

(** The part of C7 the code does satisfy: a camera-capable node lies within
    25 of one of the fixed anchors. *)
Lemma camera_only_near_anchor cfg dd cc idxs ca n :
  In n (deploy_nodes cfg dd cc idxs ca) ->
  has_camera n = true ->
  exists cam_pos, In cam_pos perfect_camera_positions /\ Qabs (x n - cam_pos) < 25.
Proof.
  revert ca. induction idxs as [|i rest IH]; intros ca Hin Hc;
    cbn [deploy_nodes] in Hin; [contradiction|].
  destruct (camera_anchor _ ca cc) as [cam_pos|] eqn:E.
  - destruct Hin as [<-|Hin]; [|eauto].
    unfold camera_anchor in E. apply find_some in E. destruct E as [Hp Hg].
    apply andb_true_iff in Hg. destruct Hg as [Hg _]. apply Qltb_lt in Hg.
    exists cam_pos. split; [exact Hp|exact Hg].
  - destruct Hin as [<-|Hin]; [discriminate|eauto].
Qed.

Section Classification.

Variable np_sqrt : Q -> Q.
Variable ai_model : Q * Q * Q * Q -> option (label * Q).
Variable cfg : config.

Lemma alert_raised_normal c : alert_raised cfg normal c = false.
Proof. reflexivity. Qed.

(** C8. When the classifier invocation raises on the snapshot of a cluster,
    [analyze_intrusion] returns ('normal', 0.0); that iteration of the
    cluster loop then creates no alert, flags no intrusion, reports no
    detection, and ends in an ordinary state from which the loop goes on.
    The same result is returned for a snapshot without sensor_summary and
    for an empty input. *)
Theorem failed_classification_degrades st ch cd nodes ch1 sm :
  collect_cluster_data np_sqrt cfg ch (sensor_nodes (p_sim st)) = (Some cd, nodes, ch1) ->
  summary cd = Some sm ->
  ai_model (features cd sm) = None ->
  analyze_intrusion ai_model (Some cd) = (normal, 0)
  /\ process_cluster np_sqrt ai_model cfg st ch
     = mkProcess (with_nodes (p_sim st) nodes)
                 (p_done st ++ [update_prediction_history ch1 normal 0])
                 (p_alerts st) (p_detections st)
  /\ (forall c, summary c = None -> analyze_intrusion ai_model (Some c) = (normal, 0))
  /\ analyze_intrusion ai_model None = (normal, 0).
Proof.
  intros E Hs Hf.
  assert (Ha : analyze_intrusion ai_model (Some cd) = (normal, 0)).
  { unfold analyze_intrusion. now rewrite Hs, Hf. }
  split; [exact Ha|]. split.
  - exact (process_cluster_no_alert np_sqrt ai_model cfg st ch cd nodes ch1
             normal 0 E Ha (alert_raised_normal 0)).
  - split; [|reflexivity]. intros c Hc. unfold analyze_intrusion. now rewrite Hc.
Qed.

Lemma severity_of_raised prediction conf :
  8 # 10 <= confidence_threshold cfg ->
  alert_raised cfg prediction conf = true ->
  _calculate_severity prediction conf <> LOW
  /\ (95 # 100 <= confidence_threshold cfg -> prediction = human ->
      _calculate_severity prediction conf = CRITICAL).
Proof.
  intros Ht Hr. unfold alert_raised in Hr. apply andb_true_iff in Hr.
  destruct Hr as [_ Hc]. apply Qltb_lt in Hc.
  assert (Hlow : Qltb conf (8 # 10) = false) by (apply Qltb_ge; lra).
  unfold _calculate_severity. rewrite Hlow. split.
  - destruct (label_eqb prediction human && Qle_bool (95 # 100) conf);
      [discriminate|].
    destruct (label_eqb prediction vehicle && Qle_bool (90 # 100) conf);
      discriminate.
  - intros Ht' ->. cbn [label_eqb andb].
    assert (Hc' : Qle_bool (95 # 100) conf = true) by (apply Qle_bool_iff; lra).
    now rewrite Hc'.
Qed.

Lemma process_alerts_well_formed s :
  Forall (well_formed_alert cfg)
         (snd (fst (_process_cluster_data np_sqrt ai_model cfg s))).
Proof.
  unfold _process_cluster_data. cbn [fst snd].
  apply (process_fold_ind np_sqrt ai_model cfg
           (fun st => Forall (well_formed_alert cfg) (p_alerts st))).
  - constructor.
  - intros st ch H.
    destruct (process_cluster_shape np_sqrt ai_model cfg st ch)
      as (_ & _ & _ & _ & _ & Hcase).
    destruct Hcase as [(_ & _ & _ & _ & -> & _) | (cd & p & c & _ & _ & Hr & Hm)];
      [exact H|].
    cbv zeta in Hm. destruct Hm as (_ & _ & _ & _ & -> & _).
    apply Forall_app. split; [exact H|]. constructor; [|constructor].
    split; [exact Hr | reflexivity].
Qed.

Lemma run_alerts_well_formed ds s :
  Forall (well_formed_alert cfg)
         (snd (fst (run_perfect_simulation np_sqrt ai_model cfg ds s))).
Proof.
  revert s. induction ds as [|d rest IH]; intro s; cbn [run_perfect_simulation].
  - constructor.
  - assert (Hc : Forall (well_formed_alert cfg)
                   (snd (fst (run_realtime_cycle np_sqrt ai_model cfg d s)))).
    { unfold run_realtime_cycle.
      match goal with
      | |- context [_process_cluster_data np_sqrt ai_model cfg ?s3] =>
          pose proof (process_alerts_well_formed s3) as Hp;
          destruct (_process_cluster_data np_sqrt ai_model cfg s3) as [[s4 al] dets]
      end. exact Hp. }
    destruct (run_realtime_cycle np_sqrt ai_model cfg d s) as [[s1 al] dets].
    specialize (IH s1).
    destruct (run_perfect_simulation np_sqrt ai_model cfg rest s1) as [[s2 al'] dets'].
    cbn [fst snd] in *. apply Forall_app. now split.
Qed.

(** C10 (as the code has it). When the configured confidence threshold is at
    least 0.8, every alert a run creates has severity CRITICAL, HIGH or
    MEDIUM, never LOW; and when the threshold is at least 0.95, as shipped,
    every human alert has severity CRITICAL. *)
Theorem alert_severity_above_threshold (ds : list cycle_draws) (s : simulator) :
  8 # 10 <= confidence_threshold cfg ->
  Forall (fun a =>
            a_severity a <> LOW
            /\ (95 # 100 <= confidence_threshold cfg ->
                intrusion_type a = human -> a_severity a = CRITICAL))
         (snd (fst (run_perfect_simulation np_sqrt ai_model cfg ds s))).
Proof.
  intro Ht. eapply Forall_impl; [|apply run_alerts_well_formed].
  intros a [Hr ->]. now apply severity_of_raised.
Qed.

End Classification.

(** Witness of [failed_classification_degrades]: cluster head CH2 in the
    first cycle, with a classifier whose invocation raises. *)
Lemma failed_classification_degrades_witness :
  let st := mkProcess first_cycle_collected [] [] [] in
  let ch := head_of first_cycle_collected 2 in
  exists cd nodes ch1,
    collect_cluster_data floor_sqrt SIMULATION_CONFIG ch (sensor_nodes (p_sim st))
    = (Some cd, nodes, ch1)
    /\ analyze_intrusion failing_classifier (Some cd) = (normal, 0)
    /\ process_cluster floor_sqrt failing_classifier SIMULATION_CONFIG st ch
       = mkProcess (with_nodes (p_sim st) nodes)
                   (p_done st ++ [update_prediction_history ch1 normal 0])
                   (p_alerts st) (p_detections st).
Proof.
  intros st ch.
  destruct (collect_cluster_data floor_sqrt SIMULATION_CONFIG ch
              (sensor_nodes (p_sim st))) as [[[cd|] nodes] ch1] eqn:E;
    [|vm_compute in E; discriminate].
  destruct (summary cd) as [sm|] eqn:Es;
    [|unfold collect_cluster_data in E; vm_compute in E; injection E as <- _ _;
      discriminate].
  exists cd, nodes, ch1. split; [reflexivity|].
  destruct (failed_classification_degrades floor_sqrt failing_classifier
              SIMULATION_CONFIG st ch cd nodes ch1 sm E Es eq_refl)
    as (Ha & Hp & _).
  split; assumption.
Defined.

(** Witness of [alert_severity_above_threshold]: the shipped threshold 0.95
    and a classifier that always answers human with confidence 0.99. *)
Lemma alert_severity_above_threshold_witness :
  Forall (fun a =>
            a_severity a <> LOW
            /\ (95 # 100 <= confidence_threshold SIMULATION_CONFIG ->
                intrusion_type a = human -> a_severity a = CRITICAL))
         (snd (fst (run_perfect_simulation floor_sqrt
                      (constant_classifier human (99 # 100)) SIMULATION_CONFIG
                      [spawning_cycle human 450 30; quiet_cycle]
                      (_deploy_perfect_network floor_sqrt SIMULATION_CONFIG
                                               level_draws)))).
Proof.
  apply (alert_severity_above_threshold floor_sqrt
           (constant_classifier human (99 # 100)) SIMULATION_CONFIG).
  unfold Qle; simpl; lia.
Defined.

(** C10, counterexample. With the threshold configured at 0.8 and a
    classifier that always answers human with confidence 0.9, the first
    cycle creates four human alerts, all of severity MEDIUM. *)
Lemma human_alert_medium_below_095 :
  8 # 10 <= confidence_threshold threshold_080_config
  /\ map (fun a => (intrusion_type a, a_severity a))
         (snd (fst (run_realtime_cycle floor_sqrt
                      (constant_classifier human (9 # 10)) threshold_080_config
                      (spawning_cycle human 450 30)
                      (_deploy_perfect_network floor_sqrt threshold_080_config
                                               level_draws))))
     = [(human, MEDIUM); (human, MEDIUM); (human, MEDIUM); (human, MEDIUM)].
Proof. split; [unfold Qle; simpl; lia | vm_compute; reflexivity]. Qed.

Section Aggregation.

Variable np_sqrt : Q -> Q.
Variable ai_model : Q * Q * Q * Q -> option (label * Q).
Variable cfg : config.

Lemma fold_left_Zadd_shift (l : list Z) (a : Z) :
  fold_left Z.add l a = (a + fold_left Z.add l 0)%Z.
Proof.
  revert a. induction l as [|z l IH]; intro a; cbn [fold_left]; [lia|].
  rewrite (IH (a + z)%Z), (IH (0 + z)%Z). lia.
Qed.

Lemma sum_of_member_motion ch nodes :
  fold_left Z.add
    (map (fun n => pir (sensor_readings n)) (filter (is_member np_sqrt cfg ch) nodes))
    0%Z
  = motion_of_members np_sqrt cfg ch nodes.
Proof.
  induction nodes as [|n rest IH]; [reflexivity|].
  cbn [filter motion_of_members fold_right].
  fold (motion_of_members np_sqrt cfg ch rest).
  change (is_active n
          && match cluster_head_id n with
             | Some c => Nat.eqb c (ch_id ch)
             | None => false
             end
          && Qle_bool (np_sqrt ((ch_x ch - x n) ^ 2 + (ch_y ch - y n) ^ 2))
                      (communication_range cfg))
    with (is_member np_sqrt cfg ch n).
  destruct (is_member np_sqrt cfg ch n).
  - cbn [map fold_left]. rewrite fold_left_Zadd_shift, IH. lia.
  - exact IH.
Qed.

Lemma snapshot_total_motion ch nodes cd nodes' ch' :
  collect_cluster_data np_sqrt cfg ch nodes = (Some cd, nodes', ch') ->
  exists sm, summary cd = Some sm
             /\ total_motion sm = motion_of_members np_sqrt cfg ch nodes.
Proof.
  unfold collect_cluster_data.
  destruct (negb (ch_is_active ch)); [discriminate|].
  destruct (filter (is_member np_sqrt cfg ch) nodes) as [|m ms] eqn:E; [discriminate|].
  intro H. injection H as <- _ _. eexists. split; [reflexivity|].
  cbn [total_motion _aggregate_sensor_data]. rewrite <- E.
  apply sum_of_member_motion.
Qed.

Lemma member_of_one_head ch1 ch2 n :
  ch_id ch1 <> ch_id ch2 ->
  is_member np_sqrt cfg ch1 n = true ->
  is_member np_sqrt cfg ch2 n = false.
Proof.
  intros Hne H. unfold is_member in *.
  apply andb_true_iff in H. destruct H as [H _].
  apply andb_true_iff in H. destruct H as [_ H].
  destruct (cluster_head_id n) as [c|]; [|discriminate]. cbn [head_eqb] in *.
  apply Nat.eqb_eq in H. subst c.
  destruct (Nat.eqb (ch_id ch1) (ch_id ch2)) eqn:E.
  - apply Nat.eqb_eq in E. contradiction.
  - now rewrite andb_false_r.
Qed.

End Aggregation.

Section Assignment.

Variable np_sqrt : Q -> Q.
Variable ai_model : Q * Q * Q * Q -> option (label * Q).
Variable cfg : config.

Local Abbreviation dist := (dist_to np_sqrt).
Local Abbreviation range := (communication_range cfg).

Lemma nearest_head_scanned n rest seen min_distance nearest_ch :
  scanned np_sqrt cfg n seen min_distance nearest_ch ->
  scanned np_sqrt cfg n (seen ++ rest)
          (match nearest_head np_sqrt cfg n rest min_distance nearest_ch with
           | Some ch => Some (dist n ch)
           | None => None
           end)
          (nearest_head np_sqrt cfg n rest min_distance nearest_ch).
Proof.
  revert seen min_distance nearest_ch.
  induction rest as [|h rest IH]; intros seen min_distance nearest_ch H;
    cbn [nearest_head].
  - rewrite app_nil_r. destruct nearest_ch as [ch|]; cbn [scanned] in *.
    + destruct H as (_ & H). split; [reflexivity|exact H].
    + destruct H as (_ & H). split; [reflexivity|exact H].
  - change (distance np_sqrt (x n) (y n) (ch_x h) (ch_y h)) with (dist n h).
    replace (seen ++ h :: rest) with ((seen ++ [h]) ++ rest)
      by (rewrite <- app_assoc; reflexivity).
    destruct (below (dist n h) min_distance && Qle_bool (dist n h) range) eqn:G.
    + apply andb_true_iff in G. destruct G as [Gb Gr]. apply Qle_bool_iff in Gr.
      apply IH. cbn [scanned]. split; [reflexivity|].
      split; [apply in_or_app; right; now left|]. split; [exact Gr|].
      intros h' Hin Hr'. apply in_app_or in Hin. destruct Hin as [Hin|[<-|[]]].
      * destruct nearest_ch as [ch|]; cbn [scanned] in H.
        -- destruct H as (-> & _ & _ & Hmin). cbn [below] in Gb.
           apply Qltb_lt in Gb. specialize (Hmin h' Hin Hr'). lra.
        -- destruct H as (_ & Hnone). exfalso. exact (Hnone h' Hin Hr').
      * apply Qle_refl.
    + apply IH. destruct nearest_ch as [ch|]; cbn [scanned] in *.
      * destruct H as (-> & Hin & Hr & Hmin). split; [reflexivity|].
        split; [apply in_or_app; now left|]. split; [exact Hr|].
        intros h' Hin' Hr'. apply in_app_or in Hin'. destruct Hin' as [Hin'|[<-|[]]].
        -- now apply Hmin.
        -- cbn [below] in G. apply Qle_bool_iff in Hr'. rewrite Hr', andb_true_r in G.
           apply Qltb_ge in G. exact G.
      * destruct H as (-> & Hnone). split; [reflexivity|].
        intros h' Hin' Hr'. apply in_app_or in Hin'. destruct Hin' as [Hin'|[<-|[]]].
        -- exact (Hnone h' Hin' Hr').
        -- cbn [below] in G. apply Qle_bool_iff in Hr'. rewrite Hr' in G. discriminate.
Qed.

Lemma nearest_head_found n heads :
  scanned np_sqrt cfg n heads
          (match nearest_head np_sqrt cfg n heads None None with
           | Some ch => Some (dist n ch)
           | None => None
           end)
          (nearest_head np_sqrt cfg n heads None None).
Proof.
  apply (nearest_head_scanned n heads [] None None).
  split; [reflexivity|]. intros h [].
Qed.

Lemma nearest_in_range_places n n' heads heads' :
  node_place n' = node_place n ->
  map head_place heads' = map head_place heads ->
  nearest_in_range np_sqrt cfg n heads ->
  nearest_in_range np_sqrt cfg n' heads'.
Proof.
  intros Hn Hh H. unfold node_place in Hn. injection Hn as Hx Hy Hc.
  assert (Hd : forall h h', head_place h' = head_place h -> dist n' h' = dist n h).
  { intros h h' Hp. unfold head_place in Hp. injection Hp as _ Hhx Hhy.
    unfold dist_to. now rewrite Hx, Hy, Hhx, Hhy. }
  assert (Hback : forall h', In h' heads' ->
                    exists h, In h heads /\ head_place h' = head_place h).
  { intros h' Hin. apply (in_map head_place) in Hin. rewrite Hh in Hin.
    apply in_map_iff in Hin. destruct Hin as (h & Hp & Hin). now exists h. }
  assert (Hforth : forall h, In h heads ->
                     exists h', In h' heads' /\ head_place h' = head_place h).
  { intros h Hin. apply (in_map head_place) in Hin. rewrite <- Hh in Hin.
    apply in_map_iff in Hin. destruct Hin as (h' & Hp & Hin). now exists h'. }
  unfold nearest_in_range in *. rewrite Hc.
  destruct (cluster_head_id n) as [c|].
  - destruct H as (ch & Hin & Hid & Hr & Hmin).
    destruct (Hforth ch Hin) as (ch' & Hin' & Hp).
    exists ch'. split; [exact Hin'|]. split.
    { unfold head_place in Hp. injection Hp as Hi _ _. congruence. }
    rewrite (Hd ch ch' Hp). split; [exact Hr|].
    intros h' Hh' Hr'. destruct (Hback h' Hh') as (h & Hinh & Hph).
    rewrite (Hd h h' Hph) in *. now apply Hmin.
  - intros h' Hh' Hr'. destruct (Hback h' Hh') as (h & Hinh & Hph).
    rewrite (Hd h h' Hph) in Hr'. exact (H h Hinh Hr').
Qed.

Lemma add_cluster_member_places c n heads :
  map head_place (snd (add_cluster_member c n heads)) = map head_place heads
  /\ x (fst (add_cluster_member c n heads)) = x n
  /\ y (fst (add_cluster_member c n heads)) = y n.
Proof.
  unfold add_cluster_member.
  destruct (find (fun ch => Nat.eqb (ch_id ch) c) heads) as [ch|]; [|now repeat split].
  destruct (existsb (Nat.eqb (node_id n)) (cluster_members ch)); [now repeat split|].
  split; [|now split]. cbn [snd].
  apply map_map_ext. intro h. now destruct (Nat.eqb (ch_id h) c).
Qed.

Lemma add_cluster_member_joins ch n heads :
  In ch heads ->
  unlisted [n] heads ->
  fst (add_cluster_member (ch_id ch) n heads) = set_cluster_head_id n (Some (ch_id ch))
  /\ forall h', In h' (snd (add_cluster_member (ch_id ch) n heads)) ->
                forall k, In k (cluster_members h') ->
                          k = node_id n \/ exists h, In h heads /\ In k (cluster_members h).
Proof.
  intros Hin Hun. unfold add_cluster_member.
  destruct (find (fun h => Nat.eqb (ch_id h) (ch_id ch)) heads) as [ch0|] eqn:E.
  2:{ exfalso. apply (find_none _ _ E) in Hin. now rewrite Nat.eqb_refl in Hin. }
  apply find_some in E. destruct E as [Hin0 _].
  destruct (existsb (Nat.eqb (node_id n)) (cluster_members ch0)) eqn:Ex.
  { exfalso. apply existsb_exists in Ex. destruct Ex as (k & Hk & Hek).
    apply Nat.eqb_eq in Hek. subst k.
    exact (Hun ch0 n Hin0 (or_introl eq_refl) Hk). }
  split; [reflexivity|]. cbn [snd]. intros h' Hh' k Hk.
  apply in_map_iff in Hh'. destruct Hh' as (h & <- & Hh).
  destruct (Nat.eqb (ch_id h) (ch_id ch)).
  - cbn [cluster_members] in Hk. apply in_app_or in Hk.
    destruct Hk as [Hk|[<-|[]]]; [right; now exists h | now left].
  - right. now exists h.
Qed.

Lemma assign_clusters_nearest nodes heads :
  NoDup (map node_id nodes) ->
  unlisted nodes heads ->
  Forall (fun n => cluster_head_id n = None) nodes ->
  map head_place (snd (_assign_clusters np_sqrt cfg nodes heads)) = map head_place heads
  /\ Forall (fun n => nearest_in_range np_sqrt cfg n heads)
            (fst (_assign_clusters np_sqrt cfg nodes heads)).
Proof.
  revert heads. induction nodes as [|n rest IH]; intros heads Hnd Hun Hnone;
    cbn [_assign_clusters]; [split; [reflexivity|constructor]|].
  cbn [map] in Hnd. inversion Hnd as [|? ? Hfresh Hnd']; subst.
  inversion Hnone as [|? ? Hn0 Hnone']; subst.
  pose proof (nearest_head_found n heads) as Hscan.
  destruct (nearest_head np_sqrt cfg n heads None None) as [ch|].
  - cbn [scanned] in Hscan. destruct Hscan as (_ & Hin & Hr & Hmin).
    destruct (add_cluster_member_joins ch n heads Hin) as [Hn' Hmem].
    { intros h m Hh [<-|[]]. apply Hun; [exact Hh|now left]. }
    destruct (add_cluster_member_places (ch_id ch) n heads) as (Hpl & _ & _).
    destruct (add_cluster_member (ch_id ch) n heads) as [n' heads'].
    cbn [fst snd] in Hn', Hmem, Hpl. subst n'.
    destruct (IH heads' Hnd') as [IHp IHn]; [|exact Hnone'|].
    { intros h' m Hh' Hm Hk. destruct (Hmem h' Hh' _ Hk) as [Heq|(h & Hh & Hkh)].
      - apply Hfresh. rewrite <- Heq. now apply in_map.
      - apply (Hun h m Hh); [now right|exact Hkh]. }
    destruct (_assign_clusters np_sqrt cfg rest heads') as [rest' heads''].
    cbn [fst snd] in *. split; [now rewrite IHp|].
    constructor.
    + unfold nearest_in_range. cbn [cluster_head_id set_cluster_head_id].
      exists ch. split; [exact Hin|]. split; [reflexivity|].
      split; [exact Hr|exact Hmin].
    + eapply Forall_impl; [|exact IHn]. intros m Hm.
      now apply (nearest_in_range_places m m heads' heads).
  - cbn [scanned] in Hscan. destruct Hscan as (_ & Hnone_r).
    destruct (IH heads Hnd') as [IHp IHn]; [|exact Hnone'|].
    { intros h m Hh Hm. apply Hun; [exact Hh|now right]. }
    destruct (_assign_clusters np_sqrt cfg rest heads) as [rest' heads'].
    cbn [fst snd] in *. split; [exact IHp|].
    constructor; [|exact IHn].
    unfold nearest_in_range. rewrite Hn0. exact Hnone_r.
Qed.

End Assignment.

Section Membership.

Variable np_sqrt : Q -> Q.
Variable ai_model : Q * Q * Q * Q -> option (label * Q).
Variable cfg : config.

Lemma deploy_nodes_fresh dd cc idxs ca :
  map node_id (deploy_nodes cfg dd cc idxs ca) = map S idxs
  /\ Forall (fun n => cluster_head_id n = None) (deploy_nodes cfg dd cc idxs ca).
Proof.
  revert ca. induction idxs as [|i rest IH]; intro ca; cbn [deploy_nodes].
  - split; [reflexivity|constructor].
  - destruct (camera_anchor _ ca cc); cbn [map];
      match goal with
      | |- context [deploy_nodes cfg dd cc rest ?a] => destruct (IH a) as [-> Hn]
      end; (split; [reflexivity|constructor; [reflexivity|exact Hn]]).
Qed.

Lemma NoDup_map_S (l : list nat) : NoDup l -> NoDup (map S l).
Proof.
  induction 1 as [|a l Hn Hd IH]; cbn [map]; constructor; [|exact IH].
  intro Hin. apply in_map_iff in Hin. destruct Hin as (b & E & Hb).
  injection E as ->. contradiction.
Qed.

Lemma deploy_head_ids : map ch_id (deploy_cluster_heads cfg)
                        = map S (seq 0 (cfg_cluster_heads cfg)).
Proof. unfold deploy_cluster_heads. now rewrite map_map. Qed.

Lemma place_ids (l l' : list ClusterHead) :
  map head_place l' = map head_place l -> map ch_id l' = map ch_id l.
Proof.
  intro H. transitivity (map (fun p => fst (fst p)) (map head_place l'));
    [now rewrite map_map|]. rewrite H. now rewrite map_map.
Qed.

Lemma static_places (l l' : list SensorNode) :
  map static l' = map static l -> map node_place l' = map node_place l.
Proof.
  intro H.
  transitivity (map (fun p : nat * Q * Q * bool * bool * option nat =>
                       let '(_, px, py, _, _, c) := p in (px, py, c))
                    (map static l')); [now rewrite map_map|].
  rewrite H. now rewrite map_map.
Qed.

Lemma head_static_places (l l' : list ClusterHead) :
  map head_static l' = map head_static l -> map head_place l' = map head_place l.
Proof.
  intro H.
  transitivity (map (fun p : nat * Q * Q * bool * Q * list nat =>
                       let '(i, px, py, _, _, _) := p in (i, px, py))
                    (map head_static l')); [now rewrite map_map|].
  rewrite H. now rewrite map_map.
Qed.

Lemma run_heads ds s :
  map head_static (cluster_heads (fst (fst (run_perfect_simulation np_sqrt ai_model cfg ds s))))
  = map head_static (cluster_heads s).
Proof.
  revert s. induction ds as [|d rest IH]; intro s; cbn [run_perfect_simulation].
  - reflexivity.
  - pose proof (cycle_heads np_sqrt ai_model cfg d s) as Hc.
    destruct (run_realtime_cycle np_sqrt ai_model cfg d s) as [[s1 al] dets].
    specialize (IH s1).
    destruct (run_perfect_simulation np_sqrt ai_model cfg rest s1) as [[s2 al'] dets'].
    cbn [fst] in *. now rewrite IH.
Qed.

Lemma Forall_same_places (nodes nodes' : list SensorNode)
    (heads heads' : list ClusterHead) :
  map node_place nodes' = map node_place nodes ->
  map head_place heads' = map head_place heads ->
  Forall (fun n => nearest_in_range np_sqrt cfg n heads) nodes ->
  Forall (fun n => nearest_in_range np_sqrt cfg n heads') nodes'.
Proof.
  intros Hn Hh H. revert nodes' Hn.
  induction H as [|n rest Hn0 Hrest IH]; intros nodes' Hn.
  - destruct nodes'; [constructor|discriminate].
  - destruct nodes' as [|n' rest']; [discriminate|].
    cbn [map] in Hn.
    assert (Hp : node_place n' = node_place n) by congruence.
    assert (Hr : map node_place rest' = map node_place rest) by congruence.
    constructor.
    + exact (nearest_in_range_places np_sqrt cfg n n' heads heads' Hp Hh Hn0).
    + now apply IH.
Qed.

Lemma deploy_assignment dd :
  let s := _deploy_perfect_network np_sqrt cfg dd in
  NoDup (map ch_id (cluster_heads s))
  /\ Forall (fun n => nearest_in_range np_sqrt cfg n (cluster_heads s)) (sensor_nodes s).
Proof.
  unfold _deploy_perfect_network.
  destruct (deploy_nodes_fresh dd (camera_quota cfg) (seq 0 (cfg_sensor_nodes cfg)) [])
    as [Hids Hnone].
  destruct (assign_clusters_nearest np_sqrt cfg (deploy_sensor_nodes cfg dd)
              (deploy_cluster_heads cfg)) as [Hp Hn].
  - unfold deploy_sensor_nodes. rewrite Hids. apply NoDup_map_S, seq_NoDup.
  - intros h n Hh _. unfold deploy_cluster_heads in Hh. apply in_map_iff in Hh.
    destruct Hh as (i & <- & _). intros [].
  - exact Hnone.
  - destruct (_assign_clusters np_sqrt cfg (deploy_sensor_nodes cfg dd)
                               (deploy_cluster_heads cfg)) as [nodes heads].
    cbn [fst snd cluster_heads sensor_nodes] in *. split.
    + rewrite (place_ids _ _ Hp), deploy_head_ids. apply NoDup_map_S, seq_NoDup.
    + now apply (Forall_same_places nodes nodes (deploy_cluster_heads cfg) heads).
Qed.

(** C9. Whenever a cluster head produces a snapshot from a node list, the
    snapshot's total_motion is the sum of the pir flags of exactly the nodes
    that are active, assigned to that head and within its communication
    range; a node that one head counts is counted by no head with another id;
    and in every state a run reaches the head ids are pairwise distinct and
    every node is assigned to a nearest head among those in range at
    deployment, or to none when no head is in range. *)
Theorem snapshot_counts_members_once (dd : deploy_draws) (ds : list cycle_draws) :
  let s := fst (fst (run_perfect_simulation np_sqrt ai_model cfg ds
                       (_deploy_perfect_network np_sqrt cfg dd))) in
  (forall ch nodes cd nodes' ch',
      collect_cluster_data np_sqrt cfg ch nodes = (Some cd, nodes', ch') ->
      exists sm, summary cd = Some sm
                 /\ total_motion sm = motion_of_members np_sqrt cfg ch nodes)
  /\ (forall ch1 ch2 n,
         ch_id ch1 <> ch_id ch2 ->
         is_member np_sqrt cfg ch1 n = true -> is_member np_sqrt cfg ch2 n = false)
  /\ NoDup (map ch_id (cluster_heads s))
  /\ Forall (fun n => nearest_in_range np_sqrt cfg n (cluster_heads s))
            (sensor_nodes s).
Proof.
  intro s.
  split; [apply snapshot_total_motion|].
  split; [apply member_of_one_head|].
  destruct (deploy_assignment dd) as [Hnd Hnear]. cbv zeta in Hnd, Hnear.
  pose proof (run_heads ds (_deploy_perfect_network np_sqrt cfg dd)) as Hh.
  pose proof (run_static np_sqrt ai_model cfg ds
                (_deploy_perfect_network np_sqrt cfg dd)) as Hs.
  fold s in Hh, Hs. apply head_static_places in Hh. apply static_places in Hs.
  split.
  - now rewrite (place_ids _ _ Hh).
  - exact (Forall_same_places _ _ _ _ Hs Hh Hnear).
Qed.

End Membership.

(** Witness of [snapshot_counts_members_once]: the shipped configuration
    after a cycle with a human intrusion at 450 m, and the snapshot of
    cluster head CH2 in that cycle, which counts six moving members. *)
Lemma snapshot_counts_members_once_witness :
  let s := fst (fst (run_perfect_simulation floor_sqrt
                       (constant_classifier human (99 # 100)) SIMULATION_CONFIG
                       [spawning_cycle human 450 30]
                       (_deploy_perfect_network floor_sqrt SIMULATION_CONFIG
                                                level_draws))) in
  let ch := head_of first_cycle_collected 2 in
  let nodes := sensor_nodes first_cycle_collected in
  (exists cd sm,
      fst (fst (collect_cluster_data floor_sqrt SIMULATION_CONFIG ch nodes)) = Some cd
      /\ summary cd = Some sm
      /\ total_motion sm = motion_of_members floor_sqrt SIMULATION_CONFIG ch nodes
      /\ total_motion sm = 6%Z)
  /\ NoDup (map ch_id (cluster_heads s))
  /\ Forall (fun n => nearest_in_range floor_sqrt SIMULATION_CONFIG n (cluster_heads s))
            (sensor_nodes s).
Proof.
  intros s ch nodes.
  destruct (snapshot_counts_members_once floor_sqrt
              (constant_classifier human (99 # 100)) SIMULATION_CONFIG level_draws
              [spawning_cycle human 450 30]) as (Hsum & _ & Hnd & Hnear).
  split; [|split; assumption].
  destruct (collect_cluster_data floor_sqrt SIMULATION_CONFIG ch nodes)
    as [[[cd|] nodes'] ch'] eqn:E; [|vm_compute in E; discriminate].
  destruct (Hsum ch nodes cd nodes' ch' E) as (sm & Hs & Ht).
  exists cd, sm. split; [reflexivity|]. split; [exact Hs|]. split; [exact Ht|].
  rewrite Ht. vm_compute. reflexivity.
Defined.

(** * Further properties of the engine *)

(** ** The cycle, phase by phase *)

Section Phases.

Variable np_sqrt : Q -> Q.
Variable ai_model : Q * Q * Q * Q -> option (label * Q).
Variable cfg : config.

Local Abbreviation cycle := (run_realtime_cycle np_sqrt ai_model cfg).
Local Abbreviation run := (run_perfect_simulation np_sqrt ai_model cfg).
Local Abbreviation process := (_process_cluster_data np_sqrt ai_model cfg).

Lemma cycle_phases d s :
  let p := process (collected cfg d s) in
  let s4 := fst (fst p) in
  cycle d s
  = (mkSim (_update_energy_consumption cfg d (sensor_nodes s4)) (cluster_heads s4)
           (simulation_time s4 + cycle_duration cfg)%Z (current_intrusions s4)
           (total_intrusions s4) (detected_intrusions s4)
           (response_times s4) (intrusion_alerts s4) (cycle_count s4),
     snd (fst p), snd p).
Proof.
  unfold run_realtime_cycle, collected, faulted.
  destruct (_process_cluster_data np_sqrt ai_model cfg _) as [[s4 al] dets].
  reflexivity.
Qed.

(** Induction over a run: a state property and properties of the alerts and
    detections handed out, under a condition on the draws of each cycle. *)
Lemma run_ind (V : cycle_draws -> Prop) (P : simulator -> Prop)
    (Pa : alert -> Prop) (Pd : nat * Z -> Prop) :
  (forall d s, V d -> P s ->
     P (fst (fst (cycle d s)))
     /\ Forall Pa (snd (fst (cycle d s))) /\ Forall Pd (snd (cycle d s))) ->
  forall ds s, Forall V ds -> P s ->
    P (fst (fst (run ds s)))
    /\ Forall Pa (snd (fst (run ds s))) /\ Forall Pd (snd (run ds s)).
Proof.
  intros Hstep ds. induction ds as [|d rest IH]; intros s Hv Hs;
    cbn [run_perfect_simulation].
  - repeat split; [exact Hs| |]; constructor.
  - inversion Hv as [|? ? Hd Hrest]; subst.
    destruct (Hstep d s Hd Hs) as (Hs1 & Ha1 & Hd1).
    destruct (cycle d s) as [[s1 al] dets]. cbn [fst snd] in *.
    destruct (IH s1 Hrest Hs1) as (Hs2 & Ha2 & Hd2).
    destruct (run rest s1) as [[s2 al'] dets']. cbn [fst snd] in *.
    repeat split; [exact Hs2| |]; apply Forall_app; now split.
Qed.

(** What the cluster loop does to the counters and logs, in terms of what
    it hands out. *)
Lemma process_counters s :
  let p := process s in
  let s' := fst (fst p) in
  detected_intrusions s' = (detected_intrusions s + length (snd p))%nat
  /\ response_times s' = response_times s ++ map snd (snd p)
  /\ intrusion_alerts s' = intrusion_alerts s ++ snd (fst p)
  /\ map alert_id (snd (fst p))
     = seq (S (length (intrusion_alerts s))) (length (snd (fst p)))
  /\ simulation_time s' = simulation_time s
  /\ total_intrusions s' = total_intrusions s
  /\ cycle_count s' = cycle_count s.
Proof.
  unfold _process_cluster_data.
  cbn [fst snd detected_intrusions response_times intrusion_alerts
       simulation_time total_intrusions cycle_count].
  apply (process_fold_ind np_sqrt ai_model cfg
    (fun st =>
       detected_intrusions (p_sim st)
       = (detected_intrusions s + length (p_detections st))%nat
       /\ response_times (p_sim st) = response_times s ++ map snd (p_detections st)
       /\ intrusion_alerts (p_sim st) = intrusion_alerts s ++ p_alerts st
       /\ map alert_id (p_alerts st)
          = seq (S (length (intrusion_alerts s))) (length (p_alerts st))
       /\ simulation_time (p_sim st) = simulation_time s
       /\ total_intrusions (p_sim st) = total_intrusions s
       /\ cycle_count (p_sim st) = cycle_count s)).
  - cbn. rewrite !app_nil_r, Nat.add_0_r. repeat split.
  - intros st ch (Hd & Hr & Ha & Hid & Ht & Hn & Hc).
    destruct (process_cluster_shape np_sqrt ai_model cfg st ch)
      as (_ & _ & Ht' & Hn' & Hc' & Hcase).
    rewrite Ht', Hn', Hc'.
    destruct Hcase as [(_ & -> & -> & -> & -> & ->)
                      | (cd & p & c & _ & _ & _ & Hm)].
    + repeat split; assumption.
    + cbv zeta in Hm. destruct Hm as (_ & -> & -> & -> & -> & ->).
      rewrite Hd, Hr, Ha, !length_app, !map_app, Hid, seq_app.
      cbn [length map alert_id generate_alert seq].
      rewrite length_app, <- !app_assoc.
      repeat split; try assumption; try reflexivity; try lia.
      do 2 f_equal. lia.
Qed.

Lemma collected_counters d s :
  let s3 := collected cfg d s in
  detected_intrusions s3 = detected_intrusions s
  /\ response_times s3 = response_times s
  /\ intrusion_alerts s3 = intrusion_alerts s
  /\ simulation_time s3 = simulation_time s
  /\ total_intrusions s3 = (total_intrusions s + spawned d)%nat
  /\ cycle_count s3 = S (cycle_count s)
  /\ cluster_heads s3 = cluster_heads s.
Proof.
  unfold collected, collect_real_time_data, _simulate_intrusions, faulted, spawned.
  destruct (spawn d) as [[[ty px] dur]|];
    cbn [sensor_nodes current_intrusions];
    match goal with
    | |- context [synthesize cfg ?a ?b] => destruct (synthesize cfg a b)
    end; cbn; repeat split; lia.
Qed.

Lemma cycle_counters d s :
  let r := cycle d s in
  let s' := fst (fst r) in
  detected_intrusions s' = (detected_intrusions s + length (snd r))%nat
  /\ response_times s' = response_times s ++ map snd (snd r)
  /\ intrusion_alerts s' = intrusion_alerts s ++ snd (fst r)
  /\ map alert_id (snd (fst r))
     = seq (S (length (intrusion_alerts s))) (length (snd (fst r)))
  /\ simulation_time s' = (simulation_time s + cycle_duration cfg)%Z
  /\ total_intrusions s' = (total_intrusions s + spawned d)%nat
  /\ cycle_count s' = S (cycle_count s).
Proof.
  cbv zeta. rewrite cycle_phases. cbn [fst snd detected_intrusions response_times
    intrusion_alerts simulation_time total_intrusions cycle_count].
  destruct (process_counters (collected cfg d s)) as (Hd & Hr & Ha & Hid & Ht & Hn & Hc).
  destruct (collected_counters d s) as (Hd3 & Hr3 & Ha3 & Ht3 & Hn3 & Hc3 & _).
  cbv zeta in *. rewrite Hd, Hr, Ha, Hid, Ht, Hn, Hc, Hd3, Hr3, Ha3, Ht3, Hn3, Hc3.
  repeat split.
Qed.

Lemma run_counters ds s :
  let r := run ds s in
  let s' := fst (fst r) in
  detected_intrusions s' = (detected_intrusions s + length (snd r))%nat
  /\ response_times s' = response_times s ++ map snd (snd r)
  /\ intrusion_alerts s' = intrusion_alerts s ++ snd (fst r)
  /\ map alert_id (snd (fst r))
     = seq (S (length (intrusion_alerts s))) (length (snd (fst r)))
  /\ simulation_time s'
     = (simulation_time s + Z.of_nat (length ds) * cycle_duration cfg)%Z
  /\ total_intrusions s' = (total_intrusions s + list_sum (map spawned ds))%nat
  /\ cycle_count s' = (cycle_count s + length ds)%nat.
Proof.
  revert s. induction ds as [|d rest IH]; intro s; cbn [run_perfect_simulation].
  - cbn. rewrite !app_nil_r, !Nat.add_0_r. repeat split. ring.
  - destruct (cycle_counters d s) as (Hd & Hr & Ha & Hid & Ht & Hn & Hc).
    cbv zeta in *. destruct (cycle d s) as [[s1 al] dets].
    specialize (IH s1). cbv zeta in IH.
    destruct (run rest s1) as [[s2 al'] dets'].
    cbn [fst snd] in *.
    destruct IH as (Hd' & Hr' & Ha' & Hid' & Ht' & Hn' & Hc').
    rewrite Hd', Hr', Ha', Ht', Hn', Hc', Hd, Hr, Ha, Ht, Hn, Hc.
    rewrite !length_app, !map_app, <- !app_assoc, Hid, Hid', seq_app.
    rewrite Ha, length_app.
    unfold list_sum. cbn [map fold_right length].
    repeat split; try reflexivity; lia.
Qed.

End Phases.

(** ** Clock, counters and logs over a run *)

Section Accounting.

Variable np_sqrt : Q -> Q.
Variable ai_model : Q * Q * Q * Q -> option (label * Q).
Variable cfg : config.

Local Abbreviation run := (run_perfect_simulation np_sqrt ai_model cfg).
Local Abbreviation deployed := (_deploy_perfect_network np_sqrt cfg).

Lemma deploy_initial dd :
  simulation_time (deployed dd) = 0%Z
  /\ current_intrusions (deployed dd) = []
  /\ total_intrusions (deployed dd) = 0%nat
  /\ detected_intrusions (deployed dd) = 0%nat
  /\ response_times (deployed dd) = []
  /\ intrusion_alerts (deployed dd) = []
  /\ cycle_count (deployed dd) = 0%nat.
Proof.
  unfold _deploy_perfect_network.
  destruct (_assign_clusters np_sqrt cfg (deploy_sensor_nodes cfg dd)
                             (deploy_cluster_heads cfg)).
  repeat split.
Qed.

Lemma reached_node_count dd ds :
  length (sensor_nodes (fst (fst (run ds (deployed dd))))) = cfg_sensor_nodes cfg.
Proof.
  pose proof (f_equal (@length _) (run_static np_sqrt ai_model cfg ds (deployed dd)))
    as Hs. rewrite !length_map in Hs. rewrite Hs.
  destruct (deploy_batteries np_sqrt cfg dd) as [Hb _].
  apply (f_equal (@length _)) in Hb. rewrite !length_map, length_seq in Hb.
  exact Hb.
Qed.

Lemma NoDup_bounded_length (l : list nat) (n : nat) :
  NoDup l -> (forall u, In u l -> (u < n)%nat) -> (length l <= n)%nat.
Proof.
  intros Hnd Hlt. rewrite <- (length_seq n 0).
  apply NoDup_incl_length; [exact Hnd|].
  intros u Hu. apply in_seq. specialize (Hlt u Hu). lia.
Qed.

(** The counters and logs of a state a run from deployment reaches. *)
Lemma reached_counters dd ds :
  let r := run ds (deployed dd) in
  let s := fst (fst r) in
  detected_intrusions s = length (snd r)
  /\ response_times s = map snd (snd r)
  /\ intrusion_alerts s = snd (fst r)
  /\ map alert_id (snd (fst r)) = seq 1 (length (snd (fst r)))
  /\ simulation_time s = (Z.of_nat (length ds) * cycle_duration cfg)%Z
  /\ total_intrusions s = list_sum (map spawned ds)
  /\ cycle_count s = length ds
  /\ (length (snd r) <= total_intrusions s)%nat
  /\ (length (current_intrusions s) <= total_intrusions s)%nat.
Proof.
  intros r s.
  destruct (run_counters np_sqrt ai_model cfg ds (deployed dd))
    as (Hd & Hr & Ha & Hid & Ht & Hn & Hc).
  destruct (deploy_initial dd) as (Ht0 & _ & Hn0 & Hd0 & Hr0 & Ha0 & Hc0).
  cbv zeta in *. fold r in Hd, Hr, Ha, Hid, Ht, Hn, Hc.
  fold s in Hd, Hr, Ha, Hid, Ht, Hn, Hc.
  rewrite Hd0 in Hd. rewrite Hr0 in Hr. rewrite Ha0 in Ha, Hid.
  rewrite Ht0 in Ht. rewrite Hn0 in Hn. rewrite Hc0 in Hc.
  cbn [app length Nat.add Z.add] in *.
  pose proof (run_log_inv np_sqrt ai_model cfg ds _ []
                (deploy_log_inv np_sqrt cfg dd)) as (Hnd & Hlt & HL & _ & HndL).
  fold r in Hnd, Hlt, HL, HndL. fold s in Hnd, Hlt, HL. cbn [app] in *.
  repeat split; try assumption.
  - rewrite <- (length_map fst). now apply NoDup_bounded_length.
  - rewrite <- (length_map uid). apply NoDup_bounded_length; [exact Hnd|].
    intros u Hu. apply in_map_iff in Hu. destruct Hu as (i & <- & Hi). now apply Hlt.
Qed.

(** X1. After [n] cycles from deployment the simulated time is [n] times the
    cycle duration, the cycle counter is [n], [total_intrusions] is the
    number of cycles that spawned, and the active list never holds more
    intrusions than were spawned. *)
Theorem clock_and_spawn_count (dd : deploy_draws) (ds : list cycle_draws) :
  let s := fst (fst (run ds (deployed dd))) in
  simulation_time s = (Z.of_nat (length ds) * cycle_duration cfg)%Z
  /\ cycle_count s = length ds
  /\ total_intrusions s = list_sum (map spawned ds)
  /\ (length (current_intrusions s) <= total_intrusions s)%nat.
Proof.
  intro s. destruct (reached_counters dd ds) as (_ & _ & _ & _ & Ht & Hn & Hc & _ & Hl).
  repeat split; assumption.
Qed.

(** X2. Over a run from deployment the gateway's alert log is exactly the
    alerts the cycles returned, in order, and their ids count 1, 2, 3, ... *)
Theorem alert_log_sequential (dd : deploy_draws) (ds : list cycle_draws) :
  let r := run ds (deployed dd) in
  intrusion_alerts (fst (fst r)) = snd (fst r)
  /\ map alert_id (intrusion_alerts (fst (fst r)))
     = seq 1 (length (intrusion_alerts (fst (fst r)))).
Proof.
  intro r. destruct (reached_counters dd ds) as (_ & _ & Ha & Hid & _).
  cbv zeta in Ha, Hid. fold r in Ha, Hid. split; [exact Ha|]. now rewrite Ha.
Qed.

(** X3. Over a run from deployment the [detected_intrusions] counter, the
    number of recorded response times and the number of detections
    reported agree, the recorded times are the reported ones in order, and
    the counter never exceeds [total_intrusions]. *)
Theorem detections_accounted (dd : deploy_draws) (ds : list cycle_draws) :
  let r := run ds (deployed dd) in
  let s := fst (fst r) in
  detected_intrusions s = length (snd r)
  /\ response_times s = map snd (snd r)
  /\ (detected_intrusions s <= total_intrusions s)%nat.
Proof.
  intros r s. destruct (reached_counters dd ds) as (Hd & Hr & _ & _ & _ & _ & _ & Hle & _).
  cbv zeta in Hd, Hr, Hle. fold r in Hd, Hr, Hle. fold s in Hd, Hr, Hle.
  split; [exact Hd|]. split; [exact Hr|]. now rewrite Hd.
Qed.

End Accounting.

(** ** The health report *)

Section Health.

Variable np_sqrt : Q -> Q.
Variable ai_model : Q * Q * Q * Q -> option (label * Q).
Variable cfg : config.

Local Abbreviation run := (run_perfect_simulation np_sqrt ai_model cfg).
Local Abbreviation deployed := (_deploy_perfect_network np_sqrt cfg).

Lemma count_nodes_le p nodes : (count_nodes p nodes <= length nodes)%nat.
Proof. apply filter_length_le. Qed.

Lemma count_nodes_all p nodes :
  Forall (fun n => p n = true) nodes -> count_nodes p nodes = length nodes.
Proof.
  unfold count_nodes. induction 1 as [|n rest Hn _ IH]; [reflexivity|].
  cbn [filter]. rewrite Hn. cbn [length]. now rewrite IH.
Qed.

Lemma count_nodes_weaken (p q : SensorNode -> bool) nodes :
  (forall n, p n = true -> q n = true) ->
  (count_nodes p nodes <= count_nodes q nodes)%nat.
Proof.
  intro H. unfold count_nodes. induction nodes as [|n rest IH]; [reflexivity|].
  cbn [filter]. destruct (p n) eqn:E.
  - rewrite (H n E). cbn [length]. lia.
  - destruct (q n); cbn [length]; lia.
Qed.

Lemma ratio_in_unit (a b : nat) :
  (a <= b)%nat -> (0 < b)%nat ->
  0 <= inject_Z (Z.of_nat a) / inject_Z (Z.of_nat b) <= 1.
Proof.
  intros Hab Hb.
  assert (Hb' : 0 < inject_Z (Z.of_nat b)).
  { change 0 with (inject_Z 0). rewrite <- Zlt_Qlt. lia. }
  split.
  - apply Qle_shift_div_l; [exact Hb'|]. rewrite Qmult_0_l.
    change 0 with (inject_Z 0). rewrite <- Zle_Qle. lia.
  - apply Qle_shift_div_r; [exact Hb'|]. rewrite Qmult_1_l.
    rewrite <- Zle_Qle. lia.
Qed.

(** X4. The health report of any state a run reaches. On a network without
    nodes the query fails on a division by zero. Otherwise the availability
    rate is 1 (no node is ever deactivated), the detection rate lies in
    [0, 1], the false-positive rate is 0, the camera counts are ordered
    active <= cameras <= nodes, the uptime is the simulated time and the
    alert total is the number of alerts the cycles returned. *)
Theorem health_report_rates (dd : deploy_draws) (ds : list cycle_draws) :
  let r := run ds (deployed dd) in
  let s := fst (fst r) in
  match cfg_sensor_nodes cfg with
  | O => get_system_health_report s = None
  | S _ =>
      exists h, get_system_health_report s = Some h
                /\ hr_total_nodes h = cfg_sensor_nodes cfg
                /\ hr_active_nodes h = cfg_sensor_nodes cfg
                /\ availability_rate h == 1
                /\ 0 <= detection_rate h <= 1
                /\ false_positives h == 0
                /\ (hr_active_cameras h <= hr_camera_nodes h <= hr_total_nodes h)%nat
                /\ system_uptime h = (Z.of_nat (length ds) * cycle_duration cfg)%Z
                /\ total_alerts h = length (snd (fst r))
  end.
Proof.
  intros r s.
  pose proof (reached_node_count np_sqrt ai_model cfg dd ds) as Hlen.
  fold r in Hlen. fold s in Hlen.
  unfold get_system_health_report.
  destruct (cfg_sensor_nodes cfg) as [|k] eqn:Ek.
  - destruct (sensor_nodes s); [reflexivity|discriminate].
  - destruct (sensor_nodes s) as [|n0 rest] eqn:En; [discriminate|].
    rewrite <- En in *. eexists. split; [reflexivity|].
    cbn [hr_total_nodes hr_active_nodes availability_rate detection_rate
         false_positives hr_active_cameras hr_camera_nodes system_uptime
         total_alerts].
    assert (Hact : count_nodes is_active (sensor_nodes s) = length (sensor_nodes s)).
    { apply count_nodes_all. apply (nodes_always_active np_sqrt ai_model cfg). }
    rewrite Hact, Hlen.
    split; [reflexivity|]. split; [reflexivity|]. split.
    { apply Qmult_inv_r. change 0 with (inject_Z 0). rewrite inject_Z_injective. lia. }
    split.
    { destruct (reached_counters np_sqrt ai_model cfg dd ds)
        as (Hd & _ & _ & _ & _ & _ & _ & Hle & _).
      cbv zeta in Hd, Hle. fold r in Hd, Hle. fold s in Hd, Hle. rewrite <- Hd in Hle.
      destruct (0 <? total_intrusions s)%nat eqn:Et.
      - apply Nat.ltb_lt in Et. now apply ratio_in_unit.
      - split; [apply Qle_refl | discriminate]. }
    split; [unfold Qdiv; apply Qmult_0_l|].
    split.
    { split; [|rewrite <- Hlen; apply count_nodes_le].
      apply count_nodes_weaken. intros n Hn. unfold camera_available in Hn.
      now apply andb_true_iff in Hn. }
    destruct (reached_counters np_sqrt ai_model cfg dd ds)
      as (_ & _ & Ha & _ & Ht & _).
    cbv zeta in Ht, Ha. fold r in Ht, Ha. fold s in Ht, Ha.
    split; [exact Ht|]. now rewrite Ha.
Qed.

End Health.

(** ** Detection latency *)

Section Latency.

Variable np_sqrt : Q -> Q.
Variable ai_model : Q * Q * Q * Q -> option (label * Q).
Variable cfg : config.

Local Abbreviation run := (run_perfect_simulation np_sqrt ai_model cfg).
Local Abbreviation deployed := (_deploy_perfect_network np_sqrt cfg).

Lemma record_affected_essentials ints px ty k :
  map essentials (record_affected ints px ty k) = map essentials ints.
Proof.
  induction ints as [|i rest IH]; cbn [record_affected]; [reflexivity|].
  destruct (Qltb (Qabs (position i - px)) 10 && label_eqb (i_type i) ty).
  - reflexivity.
  - cbn [map]. now rewrite IH.
Qed.

Lemma activations_essentials todo st :
  map essentials
      (snd (fold_left
              (fun st i => _activate_nearby_sensors cfg (fst st) (snd st)
                             (position i) (i_type i)) todo st))
  = map essentials (snd st).
Proof.
  revert st. induction todo as [|i rest IH]; intro st; cbn [fold_left]; [reflexivity|].
  rewrite IH. unfold _activate_nearby_sensors. cbn [snd].
  apply record_affected_essentials.
Qed.

Lemma synthesize_essentials ints nodes :
  map essentials (snd (synthesize cfg nodes ints)) = map essentials ints.
Proof. unfold synthesize. now rewrite activations_essentials. Qed.

(** A property of the essentials carries over between lists that agree on
    them. *)
Lemma Forall_essentials (P : nat * label * Q * Z * Z * bool -> Prop) l l' :
  map essentials l' = map essentials l ->
  Forall (fun i => P (essentials i)) l -> Forall (fun i => P (essentials i)) l'.
Proof.
  intros E H. rewrite <- Forall_map in *. now rewrite E.
Qed.

Lemma collected_alive d s :
  (0 <= cycle_duration cfg)%Z ->
  (0 < duration_max cfg)%Z ->
  valid_spawn cfg d ->
  aged cfg s ->
  Forall (alive cfg (simulation_time s)) (current_intrusions (collected cfg d s)).
Proof.
  intros Hc Hm Hv Ha. unfold collected.
  destruct (collect_intrusions cfg (_simulate_intrusions d (faulted d s)))
    as (-> & _).
  apply (Forall_essentials
           (fun e => let '(_, _, _, st, du, _) := e in
                     (st <= simulation_time s
                      /\ simulation_time s - st < duration_max cfg
                      /\ du <= duration_max cfg)%Z)
           (current_intrusions (_simulate_intrusions d (faulted d s))));
    [apply synthesize_essentials|].
  unfold _simulate_intrusions, remove_expired, valid_spawn, aged in *.
  cbn [simulation_time current_intrusions faulted].
  assert (Hkept : Forall (fun i => (start_time i <= simulation_time s
                                    /\ simulation_time s - start_time i
                                       < duration_max cfg
                                    /\ duration i <= duration_max cfg)%Z)
                    (filter (fun i => (simulation_time s - start_time i <? duration i)%Z)
                            (current_intrusions s))).
  { apply Forall_forall. intros i Hi. apply filter_In in Hi. destruct Hi as [Hi Hlt].
    apply Z.ltb_lt in Hlt. pose proof (proj1 (Forall_forall _ _) Ha i Hi) as [H1 H2].
    cbv beta in H1, H2. lia. }
  destruct (spawn d) as [[[ty px] dur]|]; cbn [current_intrusions].
  - apply Forall_app. split; [exact Hkept|]. constructor; [|constructor].
    cbn [essentials uid i_type position start_time duration detected]. lia.
  - exact Hkept.
Qed.

Lemma mark_detected_alive now ints cluster_x :
  Forall (alive cfg now) ints ->
  Forall (alive cfg now) (fst (mark_detected ints cluster_x now))
  /\ Forall (fun e => (0 <= snd e < duration_max cfg)%Z)
            (reported (snd (mark_detected ints cluster_x now))).
Proof.
  intro H.
  destruct (mark_detected_outcome ints cluster_x now)
    as [(l1 & j & l2 & E & _ & _ & -> & ->) | (_ & -> & ->)].
  - subst ints. apply Forall_app in H. destruct H as [H1 H2].
    inversion H2 as [|? ? Hj H2']; subst. split.
    + apply Forall_app. split; [exact H1|]. constructor; [exact Hj|exact H2'].
    + constructor; [|constructor]. destruct Hj as (Ha & Hb & Hc). cbn [snd]. lia.
  - split; [exact H|constructor].
Qed.

Lemma process_alive s :
  Forall (alive cfg (simulation_time s)) (current_intrusions s) ->
  let p := _process_cluster_data np_sqrt ai_model cfg s in
  Forall (alive cfg (simulation_time s)) (current_intrusions (fst (fst p)))
  /\ Forall (fun e => (0 <= snd e < duration_max cfg)%Z) (snd p).
Proof.
  intro H. unfold _process_cluster_data. cbn [fst snd current_intrusions].
  apply (process_fold_ind np_sqrt ai_model cfg
    (fun st => simulation_time (p_sim st) = simulation_time s
               /\ Forall (alive cfg (simulation_time s)) (current_intrusions (p_sim st))
               /\ Forall (fun e => (0 <= snd e < duration_max cfg)%Z)
                         (p_detections st))).
  - repeat split; [exact H|constructor].
  - intros st ch (Ht & Ha & Hd).
    destruct (process_cluster_shape np_sqrt ai_model cfg st ch)
      as (_ & _ & Ht' & _ & _ & Hcase).
    rewrite Ht'. split; [exact Ht|].
    destruct Hcase as [(-> & _ & _ & _ & _ & ->) | (cd & p & c & _ & _ & _ & Hm)].
    + split; assumption.
    + cbv zeta in Hm. destruct Hm as (-> & _ & _ & _ & _ & ->). rewrite Ht.
      destruct (mark_detected_alive (simulation_time s)
                  (current_intrusions (p_sim st)) (ch_x ch) Ha) as [Ha' Hd'].
      split; [exact Ha'|]. apply Forall_app. now split.
Qed.

Lemma cycle_aged d s :
  (0 <= cycle_duration cfg)%Z ->
  (0 < duration_max cfg)%Z ->
  valid_spawn cfg d ->
  aged cfg s ->
  aged cfg (fst (fst (run_realtime_cycle np_sqrt ai_model cfg d s)))
  /\ Forall (fun e => (0 <= snd e < duration_max cfg)%Z)
            (snd (run_realtime_cycle np_sqrt ai_model cfg d s)).
Proof.
  intros Hc Hm Hv Ha. rewrite cycle_phases. cbn [fst snd].
  pose proof (collected_alive d s Hc Hm Hv Ha) as H3.
  destruct (collected_counters cfg d s) as (_ & _ & _ & Ht3 & _).
  cbv zeta in Ht3. rewrite <- Ht3 in H3.
  destruct (process_alive _ H3) as [H4 Hd]. cbv zeta in H4, Hd.
  destruct (process_counters np_sqrt ai_model cfg (collected cfg d s))
    as (_ & _ & _ & _ & Ht4 & _).
  cbv zeta in Ht4. split; [|exact Hd].
  unfold aged. cbn [current_intrusions simulation_time]. rewrite Ht4.
  eapply Forall_impl; [|exact H4]. intros i (H1 & H2 & H3'). lia.
Qed.

(** X5. With a non-negative cycle duration, a positive maximum duration and
    spawn durations drawn within the configured range, every detection time
    a run reports is at least 0 and strictly below the configured maximum
    duration. *)
Theorem detection_latency_bounded (dd : deploy_draws) (ds : list cycle_draws) :
  (0 <= cycle_duration cfg)%Z ->
  (0 < duration_max cfg)%Z ->
  Forall (valid_spawn cfg) ds ->
  Forall (fun e => (0 <= snd e < duration_max cfg)%Z) (snd (run ds (deployed dd))).
Proof.
  intros Hc Hm Hv.
  apply (run_ind np_sqrt ai_model cfg (valid_spawn cfg) (aged cfg)
           (fun _ => True) (fun e => (0 <= snd e < duration_max cfg)%Z)).
  - intros d s Hd Hs. destruct (cycle_aged d s Hc Hm Hd Hs) as [H1 H2].
    split; [exact H1|]. split; [|exact H2]. apply Forall_forall. intros; exact I.
  - exact Hv.
  - unfold aged. destruct (deploy_initial np_sqrt cfg dd) as (_ & -> & _). constructor.
Qed.

End Latency.

(** Witness of [detection_latency_bounded]: the shipped configuration, a
    human intrusion spawned at 550 m and two quiet cycles after it. *)
Lemma detection_latency_bounded_witness :
  Forall (fun e => (0 <= snd e < duration_max SIMULATION_CONFIG)%Z)
         (snd (run_perfect_simulation floor_sqrt
                 (constant_classifier human (99 # 100)) SIMULATION_CONFIG
                 [spawning_cycle human 550 30; quiet_cycle; quiet_cycle]
                 (_deploy_perfect_network floor_sqrt SIMULATION_CONFIG level_draws))).
Proof.
  apply (detection_latency_bounded floor_sqrt (constant_classifier human (99 # 100))
           SIMULATION_CONFIG level_draws).
  - simpl; lia.
  - simpl; lia.
  - repeat constructor; simpl; lia.
Defined.

(** ** Properties that every phase preserves *)

Section Stability.

Variable np_sqrt : Q -> Q.
Variable ai_model : Q * Q * Q * Q -> option (label * Q).
Variable cfg : config.

Lemma Forall_map_stable {A : Type} (P : A -> Prop) (f : A -> A) (l : list A) :
  (forall a, P a -> P (f a)) -> Forall P l -> Forall P (map f l).
Proof. intros Hf H. rewrite Forall_map. eapply Forall_impl; [|exact H]. exact Hf. Qed.

Lemma fault_pass_stable P d nodes :
  node_stable P -> Forall P nodes -> Forall P (fault_pass d nodes).
Proof.
  intros (Hf & _ & _ & _ & Hm & _) H. apply Forall_map_stable; [|exact H].
  intros n Hn. destruct (is_active n); [|exact Hn].
  unfold camera_fault_pass.
  destruct (camera_module (simulate_sensor_fault d n)) as [st|]; [|now apply Hf].
  destruct (has_camera (simulate_sensor_fault d n)); [|now apply Hf].
  destruct (negb (cam_eqb st FAULTY)).
  - destruct (camera_fault d _); [apply Hm|]; now apply Hf.
  - destruct (camera_recovery d _); [apply Hm|]; now apply Hf.
Qed.

Lemma synthesize_stable P nodes ints :
  node_stable P -> Forall P nodes -> Forall P (fst (synthesize cfg nodes ints)).
Proof.
  intros (_ & _ & Ha & _) H. unfold synthesize. rewrite synthesize_as_map.
  apply Forall_map_stable; [|exact H]. intros n Hn.
  revert n Hn. induction ints as [|i rest IH]; intros n Hn; cbn [fold_left];
    [exact Hn|].
  apply IH. unfold activate_node. destruct (in_activation cfg n (position i));
    [now apply Ha|exact Hn].
Qed.

Lemma collect_node_stable P ints n :
  node_stable P -> P n -> P (collect_node cfg ints n).
Proof.
  intros (_ & _ & _ & Hu & Hm & Hs & _) Hn. unfold collect_node.
  destruct (is_active n); [|exact Hn].
  assert (H1 : P (update_camera_status (snd (get_real_time_sensor_data n)))).
  { unfold update_camera_status, get_real_time_sensor_data. cbn [snd].
    destruct (camera_module (_update_sensor_history n)) as [st|]; [|now apply Hu].
    destruct (has_camera (_update_sensor_history n)); [apply Hs|]; now apply Hu. }
  unfold drive_camera.
  destruct (camera_module _) as [st|]; [|exact H1].
  destruct (has_camera _); [|exact H1].
  destruct (should_activate cfg _ ints).
  - destruct (negb (cam_eqb st RECORDING)); [|exact H1].
    destruct (negb (cam_eqb st FAULTY) && is_active _); [now apply Hm|exact H1].
  - destruct (cam_eqb st RECORDING); [now apply Hm|exact H1].
Qed.

Lemma collect_stable P s :
  node_stable P -> Forall P (sensor_nodes s) ->
  Forall P (sensor_nodes (collect_real_time_data cfg s)).
Proof.
  intros HP H. unfold collect_real_time_data.
  pose proof (synthesize_stable P (reset_flags (sensor_nodes s))
                (current_intrusions s) HP) as Hs.
  destruct (synthesize cfg (reset_flags (sensor_nodes s)) (current_intrusions s))
    as [nodes ints]. cbn [fst sensor_nodes] in *.
  apply Forall_map_stable; [intros n Hn; now apply collect_node_stable|].
  apply Hs. apply Forall_map_stable; [|exact H].
  destruct HP as (_ & Hr & _). exact Hr.
Qed.

Lemma collect_cluster_data_stable P ch nodes :
  node_stable P -> Forall P nodes ->
  Forall P (snd (fst (collect_cluster_data np_sqrt cfg ch nodes))).
Proof.
  intros (_ & _ & _ & Hu & _) H. unfold collect_cluster_data.
  destruct (negb (ch_is_active ch)); [exact H|].
  destruct (filter (is_member np_sqrt cfg ch) nodes); [exact H|]. cbn [fst snd].
  apply Forall_map_stable; [|exact H]. intros n Hn.
  destruct (is_member np_sqrt cfg ch n); [now apply Hu|exact Hn].
Qed.

Lemma process_stable P s :
  node_stable P -> Forall P (sensor_nodes s) ->
  Forall P (sensor_nodes (fst (fst (_process_cluster_data np_sqrt ai_model cfg s)))).
Proof.
  intros HP H. unfold _process_cluster_data. cbn [fst sensor_nodes].
  apply (process_fold_ind np_sqrt ai_model cfg
           (fun st => Forall P (sensor_nodes (p_sim st)))); [exact H|].
  intros st ch Hst.
  destruct (process_cluster_shape np_sqrt ai_model cfg st ch) as (-> & _).
  now apply collect_cluster_data_stable.
Qed.

Lemma energy_stable P d nodes :
  node_stable P -> Forall P nodes -> Forall P (_update_energy_consumption cfg d nodes).
Proof.
  intros (_ & _ & _ & _ & _ & _ & Hb) H. apply Forall_map_stable; [|exact H].
  intros n Hn. unfold update_node_energy. destruct (is_active n); [|exact Hn].
  destruct (solar_recharge d (node_id n)); [apply Hb|]; now apply Hb.
Qed.

Lemma collected_stable P d s :
  node_stable P -> Forall P (sensor_nodes s) ->
  Forall P (sensor_nodes (collected cfg d s)).
Proof.
  intros HP H. unfold collected. apply collect_stable; [exact HP|].
  destruct (simulate_intrusions_nodes d (faulted d s)) as (-> & _).
  now apply fault_pass_stable.
Qed.

Lemma cycle_stable P d s :
  node_stable P -> Forall P (sensor_nodes s) ->
  Forall P (sensor_nodes (fst (fst (run_realtime_cycle np_sqrt ai_model cfg d s)))).
Proof.
  intros HP H. rewrite cycle_phases. cbn [fst sensor_nodes].
  apply energy_stable; [exact HP|]. apply process_stable; [exact HP|].
  now apply collected_stable.
Qed.

Lemma run_stable P ds s :
  node_stable P -> Forall P (sensor_nodes s) ->
  Forall P (sensor_nodes (fst (fst (run_perfect_simulation np_sqrt ai_model cfg ds s)))).
Proof.
  intros HP H.
  apply (run_ind np_sqrt ai_model cfg (fun _ => True)
           (fun s => Forall P (sensor_nodes s)) (fun _ => True) (fun _ => True)).
  - intros d s' _ Hs. split; [now apply cycle_stable|].
    split; apply Forall_forall; intros; exact I.
  - apply Forall_forall. intros; exact I.
  - exact H.
Qed.

Lemma deployed_nodes_fresh dd n :
  In n (sensor_nodes (_deploy_perfect_network np_sqrt cfg dd)) ->
  exists i cam c,
    n = set_cluster_head_id
          (new_sensor_node dd i
             (inject_Z (Z.of_nat i) / inject_Z (Z.of_nat (cfg_sensor_nodes cfg))
              * border_length cfg) (draw_y dd i) cam) c
    /\ (i < cfg_sensor_nodes cfg)%nat.
Proof.
  unfold _deploy_perfect_network.
  assert (Hassign : forall nodes heads m,
            In m (fst (_assign_clusters np_sqrt cfg nodes heads)) ->
            exists m0 c, In m0 nodes /\ m = set_cluster_head_id m0 c).
  { induction nodes as [|a rest IH]; intros heads m Hm;
      cbn [_assign_clusters] in Hm; [contradiction|].
    destruct (nearest_head np_sqrt cfg a heads None None) as [ch|].
    - unfold add_cluster_member in Hm.
      destruct (find (fun h => Nat.eqb (ch_id h) (ch_id ch)) heads) as [ch0|].
      + destruct (existsb (Nat.eqb (node_id a)) (cluster_members ch0)).
        * destruct (_assign_clusters np_sqrt cfg rest heads) as [rest' heads'] eqn:E.
          destruct Hm as [<-|Hm].
          -- exists a, (cluster_head_id a). split; [now left|now destruct a].
          -- destruct (IH heads m) as (m0 & c & H1 & H2); [now rewrite E|].
             exists m0, c. split; [now right|exact H2].
        * match type of Hm with
          | context [_assign_clusters np_sqrt cfg rest ?h] =>
              destruct (_assign_clusters np_sqrt cfg rest h) as [rest' heads'] eqn:E;
              destruct Hm as [<-|Hm];
              [exists a, (Some (ch_id ch)); split; [now left|reflexivity]
              |destruct (IH h m) as (m0 & c & H1 & H2); [now rewrite E|];
               exists m0, c; split; [now right|exact H2]]
          end.
      + destruct (_assign_clusters np_sqrt cfg rest heads) as [rest' heads'] eqn:E.
        destruct Hm as [<-|Hm].
        * exists a, (cluster_head_id a). split; [now left|now destruct a].
        * destruct (IH heads m) as (m0 & c & H1 & H2); [now rewrite E|].
          exists m0, c. split; [now right|exact H2].
    - destruct (_assign_clusters np_sqrt cfg rest heads) as [rest' heads'] eqn:E.
      destruct Hm as [<-|Hm].
      + exists a, (cluster_head_id a). split; [now left|now destruct a].
      + destruct (IH heads m) as (m0 & c & H1 & H2); [now rewrite E|].
        exists m0, c. split; [now right|exact H2]. }
  assert (Hdep : forall cc idxs ca m,
            In m (deploy_nodes cfg dd cc idxs ca) ->
            exists i cam, In i idxs
              /\ m = new_sensor_node dd i
                       (inject_Z (Z.of_nat i) / inject_Z (Z.of_nat (cfg_sensor_nodes cfg))
                        * border_length cfg) (draw_y dd i) cam).
  { intros cc idxs. induction idxs as [|i rest IH]; intros ca m Hm;
      cbn [deploy_nodes] in Hm; [contradiction|].
    destruct (camera_anchor _ ca cc).
    - destruct Hm as [<-|Hm]; [exists i, true; split; [now left|reflexivity]|].
      destruct (IH _ m Hm) as (j & cam & Hj & E). exists j, cam. split; [now right|exact E].
    - destruct Hm as [<-|Hm]; [exists i, false; split; [now left|reflexivity]|].
      destruct (IH _ m Hm) as (j & cam & Hj & E). exists j, cam. split; [now right|exact E]. }
  destruct (_assign_clusters np_sqrt cfg (deploy_sensor_nodes cfg dd)
                             (deploy_cluster_heads cfg)) as [nodes heads] eqn:E.
  cbn [sensor_nodes]. intro Hn.
  destruct (Hassign (deploy_sensor_nodes cfg dd) (deploy_cluster_heads cfg) n)
    as (m0 & c & Hm0 & ->); [now rewrite E|].
  destruct (Hdep _ _ _ _ Hm0) as (i & cam & Hi & ->).
  exists i, cam, c. split; [reflexivity|]. apply in_seq in Hi. lia.
Qed.

End Stability.

(** ** Bounded rolling windows *)

Section Windows.

Variable np_sqrt : Q -> Q.
Variable ai_model : Q * Q * Q * Q -> option (label * Q).
Variable cfg : config.

Lemma collect_cluster_data_head_stable P ch nodes :
  head_stable P -> P ch -> P (snd (collect_cluster_data np_sqrt cfg ch nodes)).
Proof.
  intros [Hb _] H. unfold collect_cluster_data.
  destruct (negb (ch_is_active ch)); [exact H|].
  destruct (filter (is_member np_sqrt cfg ch) nodes); [exact H|]. cbn [snd].
  now apply Hb.
Qed.

Lemma process_cluster_head_stable P st ch :
  head_stable P -> P ch -> Forall P (p_done st) ->
  Forall P (p_done (process_cluster np_sqrt ai_model cfg st ch)).
Proof.
  intros HP Hch Hdone. unfold process_cluster.
  pose proof (collect_cluster_data_head_stable P ch (sensor_nodes (p_sim st)) HP Hch)
    as H1.
  destruct (collect_cluster_data np_sqrt cfg ch (sensor_nodes (p_sim st)))
    as [[cdo nodes] ch1]. cbn [snd] in H1.
  assert (Hq : Forall P (p_done st ++ [ch1]))
    by (apply Forall_app; split; [exact Hdone|now constructor]).
  assert (Hu : forall p c, Forall P (p_done st ++ [update_prediction_history ch1 p c])).
  { intros p c. apply Forall_app. split; [exact Hdone|]. constructor; [|constructor].
    destruct HP as [_ Hp]. now apply Hp. }
  destruct cdo as [cd|]; [|exact Hq].
  destruct (0 <? total_nodes cd)%nat; [|exact Hq].
  destruct (analyze_intrusion ai_model (Some cd)) as [prediction conf].
  destruct (alert_raised cfg prediction conf); [|apply Hu].
  destruct (mark_detected _ _ _). apply Hu.
Qed.

Lemma process_heads_stable P s :
  head_stable P -> Forall P (cluster_heads s) ->
  Forall P (cluster_heads (fst (fst (_process_cluster_data np_sqrt ai_model cfg s)))).
Proof.
  intros HP H. unfold _process_cluster_data. cbn [fst cluster_heads].
  assert (Hgen : forall heads st,
            Forall P heads -> Forall P (p_done st) ->
            Forall P (p_done (fold_left (process_cluster np_sqrt ai_model cfg) heads st))).
  { induction heads as [|ch rest IH]; intros st Hh Hd; cbn [fold_left]; [exact Hd|].
    inversion Hh as [|? ? Hch Hrest]; subst.
    apply IH; [exact Hrest|]. now apply process_cluster_head_stable. }
  apply Hgen; [exact H|constructor].
Qed.

Lemma run_heads_stable P ds s :
  head_stable P -> Forall P (cluster_heads s) ->
  Forall P (cluster_heads (fst (fst (run_perfect_simulation np_sqrt ai_model cfg ds s)))).
Proof.
  intros HP H.
  apply (run_ind np_sqrt ai_model cfg (fun _ => True)
           (fun s => Forall P (cluster_heads s)) (fun _ => True) (fun _ => True)).
  - intros d s' _ Hs. split; [|split; apply Forall_forall; intros; exact I].
    rewrite cycle_phases. cbn [fst cluster_heads].
    apply process_heads_stable; [exact HP|].
    destruct (collected_counters cfg d s') as (_ & _ & _ & _ & _ & _ & Hh).
    cbv zeta in Hh. now rewrite Hh.
  - apply Forall_forall. intros; exact I.
  - exact H.
Qed.

Lemma update_sensor_history_length n :
  (length (thermal_history n) <= 50)%nat ->
  (length (thermal_history (_update_sensor_history n)) <= 50)%nat.
Proof.
  intro H. unfold _update_sensor_history. cbn [thermal_history set_thermal_history].
  destruct (50 <? length (thermal_history n ++ [thermal (sensor_readings n)]))%nat eqn:E.
  - destruct (thermal_history n ++ [thermal (sensor_readings n)]) as [|a l] eqn:El;
      [cbn; lia|].
    apply (f_equal (@length _)) in El. rewrite length_app in El. cbn in *. lia.
  - apply Nat.ltb_ge in E. exact E.
Qed.

Lemma update_prediction_history_length h p c :
  (length (prediction_history h) <= 20)%nat ->
  (length (prediction_history (update_prediction_history h p c)) <= 20)%nat.
Proof.
  intro H. unfold update_prediction_history. cbn [prediction_history].
  destruct (20 <? length (prediction_history h ++ [(p, c)]))%nat eqn:E.
  - destruct (prediction_history h ++ [(p, c)]) as [|a l] eqn:El; [cbn; lia|].
    apply (f_equal (@length _)) in El. rewrite length_app in El. cbn in *. lia.
  - apply Nat.ltb_ge in E. exact E.
Qed.

Lemma deployed_heads_fresh dd h :
  In h (cluster_heads (_deploy_perfect_network np_sqrt cfg dd)) ->
  prediction_history h = [] /\ data_buffer h = []
  /\ ch_is_active h = true /\ ch_battery h = 100.
Proof.
  unfold _deploy_perfect_network.
  assert (Hassign : forall nodes heads,
            Forall (fun h => prediction_history h = [] /\ data_buffer h = []
                             /\ ch_is_active h = true /\ ch_battery h = 100) heads ->
            Forall (fun h => prediction_history h = [] /\ data_buffer h = []
                             /\ ch_is_active h = true /\ ch_battery h = 100)
                   (snd (_assign_clusters np_sqrt cfg nodes heads))).
  { induction nodes as [|a rest IH]; intros heads H; cbn [_assign_clusters]; [exact H|].
    destruct (nearest_head np_sqrt cfg a heads None None) as [ch|].
    - assert (H1 : Forall (fun h => prediction_history h = [] /\ data_buffer h = []
                                    /\ ch_is_active h = true /\ ch_battery h = 100)
                     (snd (add_cluster_member (ch_id ch) a heads))).
      { unfold add_cluster_member.
        destruct (find (fun h => Nat.eqb (ch_id h) (ch_id ch)) heads) as [ch0|];
          [|exact H].
        destruct (existsb (Nat.eqb (node_id a)) (cluster_members ch0)); [exact H|].
        cbn [snd]. apply Forall_map_stable; [|exact H].
        intros h0 Hh0. now destruct (Nat.eqb (ch_id h0) (ch_id ch)). }
      destruct (add_cluster_member (ch_id ch) a heads) as [a' heads1].
      cbn [snd] in H1. specialize (IH heads1 H1).
      destruct (_assign_clusters np_sqrt cfg rest heads1). exact IH.
    - specialize (IH heads H).
      destruct (_assign_clusters np_sqrt cfg rest heads). exact IH. }
  specialize (Hassign (deploy_sensor_nodes cfg dd) (deploy_cluster_heads cfg)).
  destruct (_assign_clusters np_sqrt cfg (deploy_sensor_nodes cfg dd)
                             (deploy_cluster_heads cfg)) as [nodes heads].
  cbn [snd cluster_heads] in *. intro Hin.
  refine (proj1 (Forall_forall _ _) (Hassign _) h Hin).
  unfold deploy_cluster_heads. apply Forall_forall. intros h0 Hh0.
  apply in_map_iff in Hh0. destruct Hh0 as (i & <- & _). repeat split.
Qed.

(** X6. In every state a run reaches, the thermal history of every sensor node
    holds at most 50 readings and the prediction history of every cluster
    head at most 20 predictions. *)
Theorem rolling_windows_bounded (dd : deploy_draws) (ds : list cycle_draws) :
  let s := fst (fst (run_perfect_simulation np_sqrt ai_model cfg ds
                       (_deploy_perfect_network np_sqrt cfg dd))) in
  Forall (fun n => (length (thermal_history n) <= 50)%nat) (sensor_nodes s)
  /\ Forall (fun h => (length (prediction_history h) <= 20)%nat) (cluster_heads s).
Proof.
  intro s. split.
  - apply run_stable.
    + repeat split; try (intros; assumption).
      * intros d n H. unfold simulate_sensor_fault.
        destruct (sensor_fault d (node_id n)) as [[]|]; exact H.
      * intros n H. now apply update_sensor_history_length.
    + apply Forall_forall. intros n Hn.
      destruct (deployed_nodes_fresh np_sqrt cfg dd n Hn) as (i & cam & c & -> & _).
      cbn. lia.
  - apply run_heads_stable.
    + split; [intros; assumption|]. intros p c h H.
      now apply update_prediction_history_length.
    + apply Forall_forall. intros h Hh.
      destruct (deployed_heads_fresh dd h Hh) as (-> & _). cbn. lia.
Qed.

End Windows.

(** ** Snapshot statistics *)

Section Snapshots.

Variable np_sqrt : Q -> Q.
Variable ai_model : Q * Q * Q * Q -> option (label * Q).
Variable cfg : config.

Lemma py_max_right (a b : Q) : b <= py_max a b.
Proof.
  unfold py_max. destruct (Qltb a b) eqn:E; [apply Qle_refl|].
  now apply Qltb_ge in E.
Qed.

Lemma fold_py_max_init (l : list Q) (a : Q) : a <= fold_left py_max l a.
Proof.
  revert a. induction l as [|b l IH]; intro a; cbn [fold_left]; [apply Qle_refl|].
  eapply Qle_trans; [apply (py_max_lower a b)|apply IH].
Qed.

Lemma fold_py_max_elem (l : list Q) (a x : Q) : In x l -> x <= fold_left py_max l a.
Proof.
  revert a. induction l as [|b l IH]; intros a Hin; [contradiction|].
  cbn [fold_left]. destruct Hin as [<-|Hin]; [|now apply IH].
  eapply Qle_trans; [apply (py_max_right a b)|apply fold_py_max_init].
Qed.

Lemma np_max_ge (d x : Q) (l : list Q) : In x l -> x <= np_max d l.
Proof.
  destruct l as [|a l]; [contradiction|]. cbn [np_max].
  intros [<-|Hin]; [apply fold_py_max_init|now apply fold_py_max_elem].
Qed.

Lemma fold_py_max_le (l : list Q) (a m : Q) :
  a <= m -> (forall x, In x l -> x <= m) -> fold_left py_max l a <= m.
Proof.
  revert a. induction l as [|b l IH]; intros a Ha Hl; cbn [fold_left]; [exact Ha|].
  apply IH; [|intros x Hx; apply Hl; now right].
  apply py_max_upper; [exact Ha|apply Hl; now left].
Qed.

Lemma fold_py_max_in (l : list Q) (a : Q) : In (fold_left py_max l a) (a :: l).
Proof.
  revert a. induction l as [|b l IH]; intro a; cbn [fold_left]; [now left|].
  destruct (IH (py_max a b)) as [H|H]; [|right; now right].
  rewrite <- H. unfold py_max. destruct (Qltb a b); [right|]; now left.
Qed.

Lemma np_max_in (d : Q) (l : list Q) : l <> [] -> In (np_max d l) l.
Proof.
  destruct l as [|a l]; [contradiction|]. intros _. apply fold_py_max_in.
Qed.

(** What a produced snapshot is made of. *)
Lemma collect_cluster_data_some ch nodes cd nodes' ch' :
  collect_cluster_data np_sqrt cfg ch nodes = (Some cd, nodes', ch') ->
  let members := filter (is_member np_sqrt cfg ch) nodes in
  members <> []
  /\ ch_is_active ch = true
  /\ cd = mkClusterData (ch_id ch) (ch_x ch, ch_y ch) (length members)
                        (map node_id members)
                        (Some (_aggregate_sensor_data members))
                        (map battery members)
  /\ nodes' = map (fun n => if is_member np_sqrt cfg ch n
                            then snd (get_real_time_sensor_data n) else n) nodes.
Proof.
  unfold collect_cluster_data.
  destruct (ch_is_active ch); [|discriminate]. cbn [negb].
  destruct (filter (is_member np_sqrt cfg ch) nodes) as [|m ms]; [discriminate|].
  intro H. injection H as <- <- _. cbv zeta.
  split; [discriminate|]. repeat split.
Qed.

(** X7. The counts and the vibration maximum of every snapshot: at least one
    member; the acoustic-event, intrusion-node and camera-node counts never
    exceed the member count, so that the acoustic density handed to the
    classifier lies in [0, 1]; and the maximum vibration is the vibration of
    one of the members and bounds the vibration of every member. *)
Theorem snapshot_statistics ch nodes cd nodes' ch' :
  collect_cluster_data np_sqrt cfg ch nodes = (Some cd, nodes', ch') ->
  exists sm,
    summary cd = Some sm
    /\ (1 <= total_nodes cd)%nat
    /\ total_nodes cd = length (active_members cd)
    /\ (acoustic_events sm <= total_nodes cd)%nat
    /\ (intrusion_nodes sm <= total_nodes cd)%nat
    /\ (camera_nodes sm <= total_nodes cd)%nat
    /\ (let '(_, _, _, density) := features cd sm in 0 <= density <= 1)
    /\ (exists n, In n nodes /\ is_member np_sqrt cfg ch n = true
                  /\ vibration (sensor_readings n) = max_vibration sm)
    /\ (forall n, In n nodes -> is_member np_sqrt cfg ch n = true ->
                  vibration (sensor_readings n) <= max_vibration sm).
Proof.
  intro H. destruct (collect_cluster_data_some _ _ _ _ _ H) as (Hne & _ & -> & _).
  set (members := filter (is_member np_sqrt cfg ch) nodes) in *.
  assert (Hlen : (1 <= length members)%nat).
  { destruct members; [contradiction|cbn; lia]. }
  eexists. split; [reflexivity|].
  cbn [total_nodes active_members acoustic_events intrusion_nodes camera_nodes
       max_vibration _aggregate_sensor_data features summary].
  assert (Hac : (length (filter (fun v => Qltb (5 # 10) v)
                           (map (fun n => acoustic (sensor_readings n)) members))
                 <= length members)%nat).
  { eapply Nat.le_trans; [apply filter_length_le|]. now rewrite length_map. }
  split; [exact Hlen|]. split; [now rewrite length_map|].
  split; [exact Hac|]. split; [apply filter_length_le|].
  split; [apply filter_length_le|]. split.
  { rewrite Z.max_r by lia. now apply ratio_in_unit. }
  split.
  { assert (Hin : In (np_max 0 (map (fun n => vibration (sensor_readings n)) members))
                     (map (fun n => vibration (sensor_readings n)) members)).
    { apply np_max_in. intro Hnil. apply Hne. now apply map_eq_nil in Hnil. }
    apply in_map_iff in Hin. destruct Hin as (n & Hv & Hn).
    unfold members in Hn. apply filter_In in Hn. destruct Hn as [Hn Hm].
    exists n. split; [exact Hn|]. split; [exact Hm|exact Hv]. }
  intros n Hn Hm. apply np_max_ge.
  apply (in_map (fun n => vibration (sensor_readings n))).
  unfold members. apply filter_In. now split.
Qed.

End Snapshots.

(** Witness of [snapshot_statistics]: the snapshot of cluster head CH2 in
    the first cycle of the shipped configuration, a human intrusion at
    450 m. *)
Lemma snapshot_statistics_witness :
  let ch := head_of first_cycle_collected 2 in
  let nodes := sensor_nodes first_cycle_collected in
  exists cd sm,
    fst (fst (collect_cluster_data floor_sqrt SIMULATION_CONFIG ch nodes)) = Some cd
    /\ summary cd = Some sm
    /\ (1 <= total_nodes cd)%nat
    /\ (intrusion_nodes sm <= total_nodes cd)%nat
    /\ (exists n, In n nodes /\ vibration (sensor_readings n) = max_vibration sm).
Proof.
  intros ch nodes.
  destruct (collect_cluster_data floor_sqrt SIMULATION_CONFIG ch nodes)
    as [[[cd|] nodes'] ch'] eqn:E; [|vm_compute in E; discriminate].
  destruct (snapshot_statistics floor_sqrt SIMULATION_CONFIG ch nodes cd nodes' ch' E)
    as (sm & Hs & H1 & _ & _ & Hi & _ & _ & (n & Hn & _ & Hv) & _).
  exists cd, sm. split; [reflexivity|]. split; [exact Hs|]. split; [exact H1|].
  split; [exact Hi|]. exists n. split; [exact Hn|exact Hv].
Defined.

(** ** Readings in reach, and the rolling maximum temperature *)

Lemma engine_readings_stable :
  node_stable (fun n => engine_readings (sensor_readings n)).
Proof.
  unfold node_stable, engine_readings.
  split; [|split; [|split; [|split; [|split; [|split]]]]].
  4-7: intros; assumption.
  - intros d n (Hp & Hv & Ht & Ha). unfold simulate_sensor_fault.
    destruct (sensor_fault d (node_id n)) as [[]|];
      cbn [sensor_readings set_readings pir vibration thermal acoustic];
      repeat split; try assumption; try (now left).
  - intros n H. exact H.
  - intros ty n (Hp & Hv & Ht & Ha).
    destruct ty; cbn [sensor_readings set_readings activated_readings
                      pir vibration thermal acoustic];
      repeat split; try assumption; try (now right); cbn; tauto.
Qed.

Section Reach.

Variable np_sqrt : Q -> Q.
Variable ai_model : Q * Q * Q * Q -> option (label * Q).
Variable cfg : config.

Local Abbreviation run := (run_perfect_simulation np_sqrt ai_model cfg).
Local Abbreviation deployed := (_deploy_perfect_network np_sqrt cfg).

Lemma reached_engine_readings dd ds :
  Forall (fun n => engine_readings (sensor_readings n))
         (sensor_nodes (fst (fst (run ds (deployed dd))))).
Proof.
  apply run_stable; [apply engine_readings_stable|].
  apply Forall_forall. intros n Hn.
  destruct (deployed_nodes_fresh np_sqrt cfg dd n Hn) as (i & cam & c & -> & _).
  unfold engine_readings. cbn. tauto.
Qed.

(** X8. In every state a run reaches, the sensor health report of a node never
    marks its pir, vibration or acoustic sensor faulty, and it marks the
    thermal sensor faulty exactly when the thermal reading is the 55 degrees
    of the vehicle pattern or the 0 of a thermal fault. *)
Theorem health_report_sensor_status (dd : deploy_draws) (ds : list cycle_draws) :
  Forall (fun n =>
            let h := get_sensor_health_report n in
            pir_status h = ACTIVE
            /\ vibration_status h = ACTIVE
            /\ acoustic_status h = ACTIVE
            /\ (thermal_status h = sensor_FAULTY
                <-> thermal (sensor_readings n) = 55
                    \/ thermal (sensor_readings n) = 0))
         (sensor_nodes (fst (fst (run ds (deployed dd))))).
Proof.
  eapply Forall_impl; [|apply reached_engine_readings].
  intros n (Hp & Hv & Ht & Ha). cbv zeta. unfold get_sensor_health_report.
  cbn [pir_status vibration_status acoustic_status thermal_status].
  split; [destruct Hp as [-> | ->]; reflexivity|].
  split; [cbn in Hv; destruct Hv as [<-|[<-|[<-|[<-|[]]]]]; reflexivity|].
  split; [cbn in Ha; destruct Ha as [<-|[<-|[<-|[<-|[]]]]]; reflexivity|].
  cbn in Ht. destruct Ht as [<-|[<-|[<-|[<-|[<-|[]]]]]]; cbn;
    split; intro H; try discriminate; try reflexivity; try tauto;
    destruct H as [H|H]; discriminate.
Qed.

End Reach.

(** ** Snapshots inside the cluster loop *)

Section Loop.

Variable np_sqrt : Q -> Q.
Variable ai_model : Q * Q * Q * Q -> option (label * Q).
Variable cfg : config.

Local Abbreviation run := (run_perfect_simulation np_sqrt ai_model cfg).
Local Abbreviation deployed := (_deploy_perfect_network np_sqrt cfg).

Lemma update_history_current n :
  exists h, thermal_history (_update_sensor_history n)
            = h ++ [thermal (sensor_readings n)].
Proof.
  unfold _update_sensor_history. cbn [thermal_history set_thermal_history].
  destruct (50 <? length (thermal_history n ++ [thermal (sensor_readings n)]))%nat
    eqn:E; [|now exists (thermal_history n)].
  destruct (thermal_history n) as [|a h]; [cbn in E; discriminate|].
  exists h. reflexivity.
Qed.

Lemma collect_node_history ints n :
  is_active n = true ->
  thermal_history (collect_node cfg ints n)
  = thermal_history (_update_sensor_history n).
Proof.
  intro Ha. unfold collect_node, drive_camera, update_camera_status,
    get_real_time_sensor_data. rewrite Ha. cbn [snd].
  node_cases.
Qed.

Lemma collect_node_history_current ints n :
  history_current (collect_node cfg ints n).
Proof.
  destruct (collect_node_readings cfg ints n) as [Hr Hs].
  intro Ha.
  assert (Ha' : is_active n = true).
  { unfold static in Hs. injection Hs as _ _ _ _ Hact _. congruence. }
  rewrite Hr, (collect_node_history ints n Ha'). apply update_history_current.
Qed.

Lemma loop_nodes_history_current d s before :
  Forall history_current
         (sensor_nodes (p_sim (loop_state np_sqrt ai_model cfg d s before))).
Proof.
  unfold loop_state.
  apply (process_fold_ind np_sqrt ai_model cfg
           (fun st => Forall history_current (sensor_nodes (p_sim st)))).
  - cbn [p_sim]. unfold collected, collect_real_time_data.
    destruct (synthesize cfg _ _) as [nodes ints]. cbn [sensor_nodes].
    rewrite Forall_map. apply Forall_forall. intros n _.
    apply collect_node_history_current.
  - intros st ch H.
    destruct (process_cluster_shape np_sqrt ai_model cfg st ch) as (-> & _).
    unfold collect_cluster_data.
    destruct (negb (ch_is_active ch)); [exact H|].
    destruct (filter (is_member np_sqrt cfg ch) (sensor_nodes (p_sim st)));
      [exact H|]. cbn [fst snd].
    apply Forall_map_stable; [|exact H]. intros n Hn.
    destruct (is_member np_sqrt cfg ch n); [|exact Hn].
    intros _. exact (update_history_current n).
Qed.

(** X9. In every iteration of the cluster loop of a cycle, the snapshot's
    max_temperature, a maximum over the members' thermal histories, is at
    least the current thermal reading of every member: the data collection
    of the same cycle has already logged it. *)
Theorem snapshot_max_temperature d s before ch cd nodes' ch' :
  let st := loop_state np_sqrt ai_model cfg d s before in
  collect_cluster_data np_sqrt cfg ch (sensor_nodes (p_sim st)) = (Some cd, nodes', ch') ->
  exists sm,
    summary cd = Some sm
    /\ forall n, In n (sensor_nodes (p_sim st)) ->
                 is_member np_sqrt cfg ch n = true ->
                 thermal (sensor_readings n) <= max_temperature sm.
Proof.
  intros st H. destruct (collect_cluster_data_some _ _ _ _ _ _ _ H) as (_ & _ & -> & _).
  eexists. split; [reflexivity|]. intros n Hn Hm.
  cbn [max_temperature _aggregate_sensor_data].
  pose proof (proj1 (Forall_forall _ _) (loop_nodes_history_current d s before) n Hn)
    as Hc.
  assert (Ha : is_active n = true).
  { unfold is_member in Hm. apply andb_true_iff in Hm. destruct Hm as [Hm _].
    now apply andb_true_iff in Hm. }
  destruct (Hc Ha) as (h & Eh).
  apply Qle_trans with (np_max 25 (thermal_history n)).
  - apply np_max_ge. rewrite Eh. apply in_or_app. right. now left.
  - apply np_max_ge.
    apply (in_map (fun m => fst (get_real_time_sensor_data m))
                  (filter (is_member np_sqrt cfg ch) (sensor_nodes (p_sim st))) n).
    apply filter_In. now split.
Qed.

Lemma loop_nodes_engine_readings dd ds d before :
  Forall (fun n => engine_readings (sensor_readings n))
         (sensor_nodes (p_sim (loop_state np_sqrt ai_model cfg d
                                 (fst (fst (run ds (deployed dd)))) before))).
Proof.
  unfold loop_state.
  apply (process_fold_ind np_sqrt ai_model cfg
           (fun st => Forall (fun n => engine_readings (sensor_readings n))
                             (sensor_nodes (p_sim st)))).
  - cbn [p_sim]. apply collected_stable; [apply engine_readings_stable|].
    exact (reached_engine_readings np_sqrt ai_model cfg dd ds).
  - intros st ch H.
    destruct (process_cluster_shape np_sqrt ai_model cfg st ch) as (-> & _).
    apply collect_cluster_data_stable; [apply engine_readings_stable|exact H].
Qed.

Lemma sum_of_flags (l : list SensorNode) :
  Forall (fun n => engine_readings (sensor_readings n)) l ->
  fold_left Z.add (map (fun n => pir (sensor_readings n)) l) 0%Z
  = Z.of_nat (length (filter (fun n => (pir (sensor_readings n) =? 1)%Z) l)).
Proof.
  induction 1 as [|n rest Hn _ IH]; [reflexivity|].
  cbn [map fold_left filter]. rewrite fold_left_Zadd_shift, IH.
  destruct Hn as ([Hp|Hp] & _); rewrite Hp; cbn [Z.eqb Pos.eqb length]; lia.
Qed.

(** X10. In every iteration of the cluster loop of a cycle of a run, the
    snapshot's total_motion is the number of members whose pir flag is 1;
    it lies between 0 and the member count. *)
Theorem snapshot_motion_counts dd ds d before ch cd nodes' ch' :
  let st := loop_state np_sqrt ai_model cfg d (fst (fst (run ds (deployed dd)))) before in
  collect_cluster_data np_sqrt cfg ch (sensor_nodes (p_sim st)) = (Some cd, nodes', ch') ->
  exists sm,
    summary cd = Some sm
    /\ total_motion sm
       = Z.of_nat (length (filter (fun n => is_member np_sqrt cfg ch n
                                            && (pir (sensor_readings n) =? 1)%Z)
                                  (sensor_nodes (p_sim st))))
    /\ (0 <= total_motion sm <= Z.of_nat (total_nodes cd))%Z.
Proof.
  intros st H. destruct (collect_cluster_data_some _ _ _ _ _ _ _ H) as (_ & _ & -> & _).
  eexists. split; [reflexivity|].
  cbn [total_motion _aggregate_sensor_data total_nodes].
  pose proof (loop_nodes_engine_readings dd ds d before) as Hall. fold st in Hall.
  assert (Hmem : Forall (fun n => engine_readings (sensor_readings n))
                   (filter (is_member np_sqrt cfg ch) (sensor_nodes (p_sim st)))).
  { apply Forall_forall. intros n Hn. apply filter_In in Hn.
    exact (proj1 (Forall_forall _ _) Hall n (proj1 Hn)). }
  rewrite (sum_of_flags _ Hmem).
  assert (Hf : forall l : list SensorNode,
            filter (fun n => (pir (sensor_readings n) =? 1)%Z)
                   (filter (is_member np_sqrt cfg ch) l)
            = filter (fun n => is_member np_sqrt cfg ch n
                               && (pir (sensor_readings n) =? 1)%Z) l).
  { induction l as [|a l IH]; [reflexivity|]. cbn [filter].
    destruct (is_member np_sqrt cfg ch a); cbn [filter andb]; now rewrite IH. }
  rewrite Hf. split; [reflexivity|]. rewrite <- Hf.
  pose proof (filter_length_le (fun n => (pir (sensor_readings n) =? 1)%Z)
                (filter (is_member np_sqrt cfg ch) (sensor_nodes (p_sim st)))).
  lia.
Qed.

End Loop.

(** Witness of [snapshot_max_temperature]: the snapshot of cluster head CH2
    in the first cycle of the shipped configuration, a human intrusion at
    450 m, after CH1 has been processed. *)
Lemma snapshot_max_temperature_witness :
  let s := _deploy_perfect_network floor_sqrt SIMULATION_CONFIG level_draws in
  let st := loop_state floor_sqrt (constant_classifier human (99 # 100))
              SIMULATION_CONFIG (spawning_cycle human 450 30) s [head_of s 1] in
  let ch := head_of s 2 in
  exists cd sm,
    fst (fst (collect_cluster_data floor_sqrt SIMULATION_CONFIG ch
                (sensor_nodes (p_sim st)))) = Some cd
    /\ summary cd = Some sm
    /\ forall n, In n (sensor_nodes (p_sim st)) ->
                 is_member floor_sqrt SIMULATION_CONFIG ch n = true ->
                 thermal (sensor_readings n) <= max_temperature sm.
Proof.
  intros s st ch.
  destruct (collect_cluster_data floor_sqrt SIMULATION_CONFIG ch
              (sensor_nodes (p_sim st)))
    as [[[cd|] nodes'] ch'] eqn:E; [|vm_compute in E; discriminate].
  destruct (snapshot_max_temperature floor_sqrt (constant_classifier human (99 # 100))
              SIMULATION_CONFIG (spawning_cycle human 450 30) s [head_of s 1]
              ch cd nodes' ch' E) as (sm & Hs & Hmax).
  exists cd, sm. split; [reflexivity|]. split; assumption.
Defined.

(** Witness of [snapshot_motion_counts]: the snapshot of cluster head CH2
    in the second cycle of a run of the shipped configuration, with a human
    intrusion at 450 m spawned in the first cycle. *)
Lemma snapshot_motion_counts_witness :
  let s := fst (fst (run_perfect_simulation floor_sqrt
                       (constant_classifier human (99 # 100)) SIMULATION_CONFIG
                       [spawning_cycle human 450 30]
                       (_deploy_perfect_network floor_sqrt SIMULATION_CONFIG
                                                level_draws))) in
  let st := loop_state floor_sqrt (constant_classifier human (99 # 100))
              SIMULATION_CONFIG quiet_cycle s [head_of s 1] in
  let ch := head_of s 2 in
  exists cd sm,
    fst (fst (collect_cluster_data floor_sqrt SIMULATION_CONFIG ch
                (sensor_nodes (p_sim st)))) = Some cd
    /\ summary cd = Some sm
    /\ (0 <= total_motion sm <= Z.of_nat (total_nodes cd))%Z.
Proof.
  intros s st ch.
  destruct (collect_cluster_data floor_sqrt SIMULATION_CONFIG ch
              (sensor_nodes (p_sim st)))
    as [[[cd|] nodes'] ch'] eqn:E; [|vm_compute in E; discriminate].
  destruct (snapshot_motion_counts floor_sqrt (constant_classifier human (99 # 100))
              SIMULATION_CONFIG level_draws [spawning_cycle human 450 30]
              quiet_cycle [head_of s 1] ch cd nodes' ch' E) as (sm & Hs & _ & Hr).
  exists cd, sm. split; [reflexivity|]. split; assumption.
Defined.

(** ** Severity, accuracy, streams and trends *)

Lemma Qltb_false_iff (a b : Q) : Qltb a b = false <-> b <= a.
Proof. apply Qltb_ge. Qed.

Lemma Qle_bool_false (a b : Q) : Qle_bool a b = false -> b < a.
Proof.
  intro H. apply Qnot_le_lt. intro Hle. apply Qle_bool_iff in Hle. congruence.
Qed.

(** X11. For a fixed intrusion type the severity never drops when the
    confidence rises. *)
Theorem severity_monotone (ty : label) (c1 c2 : Q) :
  c1 <= c2 ->
  (severity_rank (_calculate_severity ty c1)
   <= severity_rank (_calculate_severity ty c2))%nat.
Proof.
  intro H. unfold _calculate_severity.
  destruct (Qltb c1 (8 # 10)) eqn:L1; [cbn; lia|].
  apply Qltb_ge in L1.
  destruct (Qltb c2 (8 # 10)) eqn:L2; [apply Qltb_lt in L2; lra|].
  destruct ty; cbn [label_eqb andb severity_rank]; try lia.
  - destruct (Qle_bool (95 # 100) c1) eqn:A1; [|cbn; destruct (Qle_bool _ c2); cbn; lia].
    apply Qle_bool_iff in A1.
    assert (A2 : Qle_bool (95 # 100) c2 = true) by (apply Qle_bool_iff; lra).
    rewrite A2. cbn. lia.
  - destruct (Qle_bool (90 # 100) c1) eqn:A1; [|cbn; destruct (Qle_bool _ c2); cbn; lia].
    apply Qle_bool_iff in A1.
    assert (A2 : Qle_bool (90 # 100) c2 = true) by (apply Qle_bool_iff; lra).
    rewrite A2. cbn. lia.
Qed.

(** Witness of [severity_monotone]: a human report at 90% and at 97%. *)
Lemma severity_monotone_witness :
  (severity_rank (_calculate_severity human (9 # 10))
   <= severity_rank (_calculate_severity human (96 # 100)))%nat.
Proof.
  apply (severity_monotone human (9 # 10) (96 # 100)). unfold Qle; simpl; lia.
Defined.

Lemma filter_all_length {A : Type} (p : A -> bool) (l : list A) :
  length (filter p l) = length l <-> Forall (fun a => p a = true) l.
Proof.
  induction l as [|a l IH]; [split; [constructor|reflexivity]|].
  cbn [filter]. destruct (p a) eqn:E; cbn [length].
  - split.
    + intro H. constructor; [exact E|]. apply IH. lia.
    + intro H. inversion H; subst. f_equal. now apply IH.
  - pose proof (filter_length_le p l) as Hle. split; [lia|].
    intro H. inversion H; subst. congruence.
Qed.

Lemma Forall_iff {A : Type} (P R : A -> Prop) (l : list A) :
  (forall a, P a <-> R a) -> (Forall P l <-> Forall R l).
Proof.
  intro H. split; intro HF; (eapply Forall_impl; [|exact HF]); intro a; apply H.
Qed.

(** X12. The recent accuracy of the gateway is 0 while fewer than ten
    predictions are logged; from ten on it is the share of the last ten
    confidences above 0.95, a value in [0, 1] that is 1 exactly when all ten
    are above 0.95. *)
Theorem recent_accuracy_range (confidences : list Q) :
  ((length confidences < 10)%nat -> _calculate_recent_accuracy confidences = 0)
  /\ 0 <= _calculate_recent_accuracy confidences <= 1
  /\ ((10 <= length confidences)%nat ->
      (_calculate_recent_accuracy confidences == 1
       <-> Forall (fun c => 95 # 100 < c)
                  (skipn (length confidences - 10) confidences))).
Proof.
  unfold _calculate_recent_accuracy.
  destruct (length confidences <? 10)%nat eqn:E.
  - apply Nat.ltb_lt in E. split; [reflexivity|].
    split; [split; [apply Qle_refl|discriminate]|]. lia.
  - apply Nat.ltb_ge in E. split; [lia|].
    set (recent := skipn (length confidences - 10) confidences).
    assert (Hlen : length recent = 10%nat) by (unfold recent; rewrite length_skipn; lia).
    pose proof (filter_length_le (fun c => Qltb (95 # 100) c) recent) as Hle.
    split; [apply ratio_in_unit; lia|]. intros _.
    rewrite <- (Forall_iff (fun c => Qltb (95 # 100) c = true) _ recent)
      by (intro c; apply Qltb_lt).
    rewrite <- filter_all_length. rewrite Hlen in *.
    set (k := length (filter (fun c => Qltb (95 # 100) c) recent)) in *.
    split.
    + intro H. unfold Qeq in H. cbn in H. lia.
    + intros ->. reflexivity.
Qed.

(** Witness of [recent_accuracy_range]: twelve predictions, all at 99%. *)
Lemma recent_accuracy_range_witness :
  _calculate_recent_accuracy (repeat (99 # 100) 12) == 1.
Proof.
  destruct (recent_accuracy_range (repeat (99 # 100) 12)) as (_ & _ & H).
  apply H; [simpl; lia|].
  cbn [repeat length Nat.sub skipn]. repeat (constructor; [reflexivity|]).
  constructor.
Defined.

(** X13. The stream kept by data collection never exceeds 150 entries, it is
    always a tail of the old stream followed by the new batch, and a batch
    of at most 100 entries is kept whole at its end. *)
Theorem keep_recent_bounded {A : Type} (stream batch : list A) :
  (length (keep_recent stream batch) <= 150)%nat
  /\ (exists dropped, stream ++ batch = dropped ++ keep_recent stream batch)
  /\ ((length batch <= 100)%nat ->
      exists older, keep_recent stream batch = older ++ batch).
Proof.
  unfold keep_recent.
  destruct (150 <? length (stream ++ batch))%nat eqn:E.
  - apply Nat.ltb_lt in E. split; [rewrite length_skipn; lia|]. split.
    + exists (firstn (length (stream ++ batch) - 100) (stream ++ batch)).
      now rewrite firstn_skipn.
    + intro Hb. rewrite length_app in *.
      exists (skipn (length stream + length batch - 100) stream).
      rewrite skipn_app.
      replace (length stream + length batch - 100 - length stream)%nat with 0%nat
        by lia.
      reflexivity.
  - apply Nat.ltb_ge in E. split; [exact E|]. split.
    + now exists [].
    + intros _. now exists stream.
Qed.

(** Witness of [keep_recent_bounded]: a batch of 32 entries, one per
    node, arriving on a stream of 140. *)
Lemma keep_recent_bounded_witness :
  exists older, keep_recent (repeat 0%nat 140) (seq 1 32) = older ++ seq 1 32.
Proof.
  apply (keep_recent_bounded (repeat 0%nat 140) (seq 1 32)). simpl; lia.
Defined.

Lemma py_min_left (a b : Q) : py_min a b <= a.
Proof. apply py_min_upper. Qed.

Lemma py_min_right (a b : Q) : py_min a b <= b.
Proof.
  unfold py_min. destruct (Qltb b a) eqn:E; [apply Qle_refl|].
  now apply Qltb_ge in E.
Qed.

Lemma fold_py_min_init (l : list Q) (a : Q) : fold_left py_min l a <= a.
Proof.
  revert a. induction l as [|b l IH]; intro a; cbn [fold_left]; [apply Qle_refl|].
  eapply Qle_trans; [apply IH|apply py_min_left].
Qed.

Lemma fold_py_min_elem (l : list Q) (a x : Q) : In x l -> fold_left py_min l a <= x.
Proof.
  revert a. induction l as [|b l IH]; intros a Hin; [contradiction|].
  cbn [fold_left]. destruct Hin as [<-|Hin]; [|now apply IH].
  eapply Qle_trans; [apply fold_py_min_init|apply py_min_right].
Qed.

Lemma np_min_le (d x : Q) (l : list Q) : In x l -> np_min d l <= x.
Proof.
  destruct l as [|a l]; [contradiction|]. cbn [np_min].
  intros [<-|Hin]; [apply fold_py_min_init|now apply fold_py_min_elem].
Qed.

Lemma fold_py_min_in (l : list Q) (a : Q) : In (fold_left py_min l a) (a :: l).
Proof.
  revert a. induction l as [|b l IH]; intro a; cbn [fold_left]; [now left|].
  destruct (IH (py_min a b)) as [H|H]; [|right; now right].
  rewrite <- H. unfold py_min. destruct (Qltb b a); [right|]; now left.
Qed.

Lemma np_min_in (d : Q) (l : list Q) : l <> [] -> In (np_min d l) l.
Proof.
  destruct l as [|a l]; [contradiction|]. intros _. apply fold_py_min_in.
Qed.

(** X14. The trend entry of a sensor history: none for an empty history;
    otherwise the current value is the last one logged, the minimum and the
    maximum are values of the history, and the current value lies between
    them. *)
Theorem sensor_trend_ordered (history : list Q) :
  match sensor_trend history with
  | None => history = []
  | Some t =>
      (exists older, history = older ++ [t_current t])
      /\ In (t_min t) history /\ In (t_max t) history
      /\ t_min t <= t_current t <= t_max t
  end.
Proof.
  destruct (sensor_trend history) as [t|] eqn:Et;
    [|destruct history; [reflexivity|discriminate]].
  assert (Hne : history <> []) by (intros ->; discriminate).
  assert (Ht : t = mkTrend (nth (length history - 1) history 0)
                           (np_mean history) (np_max 0 history) (np_min 0 history)
                           (t_trend t)).
  { destruct history; [discriminate|]. unfold sensor_trend in Et.
    injection Et as <-. reflexivity. }
  rewrite Ht. cbn [t_current t_max t_min].
  assert (Hlast : exists older, history = older ++ [nth (length history - 1) history 0]).
  { destruct (exists_last Hne) as (older & z & ->).
    exists older. rewrite length_app. cbn [length].
    replace (length older + 1 - 1)%nat with (length older) by lia.
    now rewrite nth_middle. }
  destruct Hlast as (older & Ho).
  assert (Hin : In (nth (length history - 1) history 0) history).
  { apply nth_In. destruct history; [contradiction|]. cbn [length]. lia. }
  split; [now exists older|].
  split; [now apply np_min_in|]. split; [now apply np_max_in|]. split.
  - now apply np_min_le.
  - now apply np_max_ge.
Qed.

(** X15. What the camera makes of the engine's own activation patterns: on a
    node activated by a vehicle, human or animal intrusion the object
    detection is certain (detection confidence 1) and reports one object,
    of type vehicle for the vehicle and the human pattern and of type
    unknown for the animal pattern. *)
Theorem camera_reads_patterns (r : readings) :
  Forall (fun ty =>
            detection_confidence (activated_readings ty r) == 1
            /\ _simulate_object_detection (activated_readings ty r)
               = Some (camera_reading_of ty))
         [vehicle; human; animal].
Proof.
  repeat constructor; vm_compute; reflexivity.
Qed.

(** ** How fast a node can drain *)

Section Drain.

Variable np_sqrt : Q -> Q.
Variable ai_model : Q * Q * Q * Q -> option (label * Q).
Variable cfg : config.

Local Abbreviation cycle := (run_realtime_cycle np_sqrt ai_model cfg).
Local Abbreviation run := (run_perfect_simulation np_sqrt ai_model cfg).
Local Abbreviation deployed := (_deploy_perfect_network np_sqrt cfg).






End Drain.


(** ** What an alert names *)

Section Alerts.

Variable np_sqrt : Q -> Q.
Variable ai_model : Q * Q * Q * Q -> option (label * Q).
Variable cfg : config.

Local Abbreviation cycle := (run_realtime_cycle np_sqrt ai_model cfg).
Local Abbreviation run := (run_perfect_simulation np_sqrt ai_model cfg).
Local Abbreviation process := (_process_cluster_data np_sqrt ai_model cfg).
Local Abbreviation deployed := (_deploy_perfect_network np_sqrt cfg).

(** An alert that names one of the heads [places] and counts at most
    [bound] affected nodes. *)
Local Abbreviation names places bound :=
  (fun a : alert =>
     In (a_cluster_id a, fst (location a), snd (location a)) places
     /\ (a_affected_nodes a <= bound)%nat).

Lemma fold_left_ind_in {A B : Type} (f : A -> B -> A) (P : A -> Prop) (l : list B) (a : A) :
  P a -> (forall a' b, In b l -> P a' -> P (f a' b)) -> P (fold_left f l a).
Proof.
  revert a. induction l as [|b rest IH]; intros a H0 Hstep; cbn [fold_left];
    [exact H0|].
  apply IH.
  - apply Hstep; [now left|exact H0].
  - intros a' b' Hin. apply Hstep. now right.
Qed.

Lemma process_alerts_named s :
  Forall (names (map head_place (cluster_heads s)) (length (sensor_nodes s)))
         (snd (fst (process s)))
  /\ (length (snd (fst (process s))) <= length (cluster_heads s))%nat.
Proof.
  pose proof (f_equal (@length _) (process_heads_frame np_sqrt ai_model cfg s)) as Hlen.
  rewrite !length_map in Hlen. rewrite <- Hlen.
  unfold _process_cluster_data. cbn [fst snd cluster_heads].
  assert (H : let st := fold_left (process_cluster np_sqrt ai_model cfg)
                          (cluster_heads s) (mkProcess s [] [] []) in
              Forall (names (map head_place (cluster_heads s))
                            (length (sensor_nodes s))) (p_alerts st)
              /\ (length (p_alerts st) <= length (p_done st))%nat
              /\ length (sensor_nodes (p_sim st)) = length (sensor_nodes s)).
  { cbv zeta.
    apply (fold_left_ind_in (process_cluster np_sqrt ai_model cfg)
             (fun st =>
                Forall (names (map head_place (cluster_heads s))
                              (length (sensor_nodes s))) (p_alerts st)
                /\ (length (p_alerts st) <= length (p_done st))%nat
                /\ length (sensor_nodes (p_sim st)) = length (sensor_nodes s))).
    - cbn [p_alerts p_done p_sim length]. repeat split; [constructor|lia].
    - intros st ch Hin (Ha & Hc & Hn).
      destruct (process_cluster_done np_sqrt ai_model cfg st ch) as (ch1 & Hd & _).
      destruct (process_cluster_shape np_sqrt ai_model cfg st ch)
        as (Hnodes & _ & _ & _ & _ & Hcase).
      assert (Hn' : length (sensor_nodes
                              (p_sim (process_cluster np_sqrt ai_model cfg st ch)))
                    = length (sensor_nodes s)).
      { rewrite Hnodes, <- Hn.
        pose proof (f_equal (@length _)
                      (collect_cluster_data_frame np_sqrt cfg node_id ch
                         (sensor_nodes (p_sim st)) (fun n => eq_refl))) as Hf.
        now rewrite !length_map in Hf. }
      rewrite Hd, length_app. cbn [length].
      destruct Hcase as [(_ & _ & _ & _ & -> & _) | (cd & p & c & Hcd & _ & _ & Hm)].
      + repeat split; [exact Ha|lia|exact Hn'].
      + cbv zeta in Hm. destruct Hm as (_ & _ & _ & _ & -> & _).
        rewrite length_app. cbn [length].
        repeat split; [|lia|exact Hn'].
        apply Forall_app. split; [exact Ha|]. constructor; [|constructor].
        destruct (collect_cluster_data np_sqrt cfg ch (sensor_nodes (p_sim st)))
          as [[cdo nodes'] ch'] eqn:E.
        cbn [fst] in Hcd. subst cdo.
        destruct (collect_cluster_data_some np_sqrt cfg _ _ _ _ _ E)
          as (_ & _ & -> & _).
        cbn [generate_alert a_cluster_id location a_affected_nodes cluster_id
             cluster_position summary fst snd intrusion_nodes _aggregate_sensor_data].
        split.
        * apply in_map_iff. exists ch. split; [reflexivity|exact Hin].
        * rewrite <- Hn.
          eapply Nat.le_trans; [apply filter_length_le|].
          apply filter_length_le. }
  cbv zeta in H. destruct H as (Ha & Hc & _). split; assumption.
Qed.

Lemma fold_left_prefix_ind {A B : Type} (f : A -> B -> A)
    (P : list B -> A -> Prop) (l pre : list B) (a : A) :
  (forall pre' b post a', pre ++ l = pre' ++ b :: post ->
                          P pre' a' -> P (pre' ++ [b]) (f a' b)) ->
  P pre a -> P (pre ++ l) (fold_left f l a).
Proof.
  revert pre a. induction l as [|b l IH]; intros pre a Hstep H0; cbn [fold_left].
  - now rewrite app_nil_r.
  - replace (pre ++ b :: l) with ((pre ++ [b]) ++ l)
      by (rewrite <- app_assoc; reflexivity).
    apply IH.
    + intros pre' b' post a' E. apply (Hstep pre' b' post a'). rewrite <- E.
      rewrite <- app_assoc. reflexivity.
    + apply (Hstep pre b l a eq_refl H0).
Qed.

Lemma NoDup_snoc {A : Type} (l : list A) (x : A) :
  NoDup l -> ~ In x l -> NoDup (l ++ [x]).
Proof.
  intros Hn Hx. induction Hn as [|a l Ha Hn IH]; cbn [app].
  - constructor; [intros []|constructor].
  - constructor.
    + intro Hin. apply in_app_or in Hin. destruct Hin as [Hin|[->|[]]].
      * exact (Ha Hin).
      * apply Hx. now left.
    + apply IH. intro Hin. apply Hx. now right.
Qed.

(** The alerts of one pass over the heads come from different heads. *)
Lemma process_alerts_distinct s :
  NoDup (map ch_id (cluster_heads s)) ->
  NoDup (map a_cluster_id (snd (fst (process s)))).
Proof.
  intro Hnd. unfold _process_cluster_data. cbn [fst snd].
  assert (H : NoDup (map a_cluster_id
                       (p_alerts (fold_left (process_cluster np_sqrt ai_model cfg)
                                            (cluster_heads s) (mkProcess s [] [] []))))
              /\ incl (map a_cluster_id
                         (p_alerts (fold_left (process_cluster np_sqrt ai_model cfg)
                                              (cluster_heads s) (mkProcess s [] [] []))))
                      (map ch_id ([] ++ cluster_heads s))).
  { apply (fold_left_prefix_ind (process_cluster np_sqrt ai_model cfg)
             (fun pre st => NoDup (map a_cluster_id (p_alerts st))
                            /\ incl (map a_cluster_id (p_alerts st)) (map ch_id pre))).
    - intros pre ch post st E (Hn & Hi). cbn [app] in E.
      assert (Hfresh : ~ In (ch_id ch) (map ch_id pre)).
      { rewrite E, map_app in Hnd. cbn [map] in Hnd.
        apply NoDup_remove_2 in Hnd. intro Hin. apply Hnd.
        apply in_or_app. now left. }
      destruct (process_cluster_shape np_sqrt ai_model cfg st ch)
        as (_ & _ & _ & _ & _ & Hcase).
      destruct Hcase as [(_ & _ & _ & _ & -> & _) | (cd & p & c & Hcd & _ & _ & Hm)].
      + split; [exact Hn|]. rewrite map_app. now apply incl_appl.
      + cbv zeta in Hm. destruct Hm as (_ & _ & _ & _ & -> & _).
        destruct (collect_cluster_data np_sqrt cfg ch (sensor_nodes (p_sim st)))
          as [[cdo nodes'] ch'] eqn:Ec.
        cbn [fst] in Hcd. subst cdo.
        destruct (collect_cluster_data_position np_sqrt cfg _ _ _ _ _ Ec) as [_ Hid].
        rewrite !map_app. cbn [map generate_alert a_cluster_id]. rewrite Hid. split.
        * apply NoDup_snoc; [exact Hn|].
          intro Hin. apply Hfresh. now apply Hi.
        * apply incl_app; [now apply incl_appl|].
          apply incl_appr. intros x [<-|[]]. now left.
    - split; [constructor|]. intros x []. }
  exact (proj1 H).
Qed.

Lemma collected_sizes d s :
  length (sensor_nodes (collected cfg d s)) = length (sensor_nodes s)
  /\ cluster_heads (collected cfg d s) = cluster_heads s.
Proof.
  split; [|now destruct (collected_counters cfg d s) as (_ & _ & _ & _ & _ & _ & ->)].
  unfold collected.
  pose proof (f_equal (@length _)
                (collect_powered cfg (_simulate_intrusions d (faulted d s)))) as H1.
  rewrite !length_map in H1. rewrite H1.
  destruct (simulate_intrusions_nodes d (faulted d s)) as (-> & _).
  unfold faulted. cbn [sensor_nodes].
  pose proof (f_equal (@length _) (fault_pass_powered d (sensor_nodes s))) as H2.
  now rewrite !length_map in H2.
Qed.

Lemma cycle_alerts_named d s :
  Forall (names (map head_place (cluster_heads s)) (length (sensor_nodes s)))
         (snd (fst (cycle d s)))
  /\ (length (snd (fst (cycle d s))) <= length (cluster_heads s))%nat.
Proof.
  rewrite cycle_phases. cbn [fst snd].
  destruct (collected_sizes d s) as [Hn Hh].
  destruct (process_alerts_named (collected cfg d s)) as [Ha Hc].
  rewrite Hn, Hh in Ha. rewrite Hh in Hc. split; assumption.
Qed.

Lemma run_alerts_named ds s :
  Forall (names (map head_place (cluster_heads s)) (length (sensor_nodes s)))
         (snd (fst (run ds s)))
  /\ (length (snd (fst (run ds s))) <= length ds * length (cluster_heads s))%nat.
Proof.
  revert s. induction ds as [|d rest IH]; intro s; cbn [run_perfect_simulation].
  - cbn [fst snd length]. split; [constructor|lia].
  - destruct (cycle_alerts_named d s) as [Ha Hc].
    pose proof (cycle_heads np_sqrt ai_model cfg d s) as Hh.
    pose proof (cycle_static np_sqrt ai_model cfg d s) as Hs.
    destruct (cycle d s) as [[s1 al] dets]. cbn [fst snd] in *.
    destruct (IH s1) as [Ha' Hc'].
    destruct (run rest s1) as [[s2 al'] dets']. cbn [fst snd] in *.
    rewrite (head_static_places _ _ Hh) in Ha'.
    apply (f_equal (@length _)) in Hh, Hs. rewrite !length_map in Hh, Hs.
    rewrite Hs in Ha'. rewrite Hh in Hc'.
    split; [apply Forall_app; now split|].
    rewrite length_app. cbn [length]. lia.
Qed.

Lemma cycle_alerts_distinct d s :
  NoDup (map ch_id (cluster_heads s)) ->
  NoDup (map a_cluster_id (snd (fst (cycle d s)))).
Proof.
  intro Hnd. rewrite cycle_phases. cbn [fst snd].
  apply process_alerts_distinct.
  now destruct (collected_sizes d s) as [_ ->].
Qed.

Lemma deployed_head_places dd :
  map head_place (cluster_heads (deployed dd))
  = map head_place (deploy_cluster_heads cfg).
Proof.
  unfold _deploy_perfect_network.
  destruct (deploy_nodes_fresh cfg dd (camera_quota cfg) (seq 0 (cfg_sensor_nodes cfg)) [])
    as [Hids Hnone].
  destruct (assign_clusters_nearest np_sqrt cfg (deploy_sensor_nodes cfg dd)
              (deploy_cluster_heads cfg)) as [Hp _].
  - unfold deploy_sensor_nodes. rewrite Hids. apply NoDup_map_S, seq_NoDup.
  - intros h n Hh _. unfold deploy_cluster_heads in Hh. apply in_map_iff in Hh.
    destruct Hh as (i & <- & _). intros [].
  - exact Hnone.
  - destruct (_assign_clusters np_sqrt cfg (deploy_sensor_nodes cfg dd)
                               (deploy_cluster_heads cfg)) as [nodes heads].
    exact Hp.
Qed.

(** X17. Every alert of a run names a cluster head of the deployed network:
    its cluster id k lies between 1 and the configured head count and its
    location is where deployment put head k, at k/(heads+1) of the border
    length and at half the border width; it counts at most as many affected
    nodes as the network has sensors. Every cycle of a run raises at most
    one alert per cluster head: the alerts a cycle returns carry pairwise
    different cluster ids, so that a run of k cycles raises at most k times
    the head count alerts. *)
Theorem alerts_name_cluster_heads (dd : deploy_draws) (ds : list cycle_draws) :
  let r := run ds (deployed dd) in
  let alerts := snd (fst r) in
  Forall (fun a =>
            (1 <= a_cluster_id a <= cfg_cluster_heads cfg)%nat
            /\ location a
               = (border_length cfg * inject_Z (Z.of_nat (a_cluster_id a))
                  / inject_Z (Z.of_nat (cfg_cluster_heads cfg) + 1),
                  border_width cfg / 2)
            /\ (a_affected_nodes a <= cfg_sensor_nodes cfg)%nat)
         alerts
  /\ (forall d, NoDup (map a_cluster_id (snd (fst (cycle d (fst (fst r)))))))
  /\ (length alerts <= length ds * cfg_cluster_heads cfg)%nat.
Proof.
  cbv zeta. destruct (run_alerts_named ds (deployed dd)) as [Ha Hc].
  pose proof (reached_node_count np_sqrt ai_model cfg dd []) as Hn.
  cbn [run_perfect_simulation fst] in Hn.
  pose proof (deployed_head_places dd) as Hp.
  assert (Hk : length (cluster_heads (deployed dd)) = cfg_cluster_heads cfg).
  { apply (f_equal (@length _)) in Hp. unfold deploy_cluster_heads in Hp.
    now rewrite !length_map, length_seq in Hp. }
  rewrite Hn, Hp in Ha. rewrite Hk in Hc. split; [|split; [|exact Hc]].
  - eapply Forall_impl; [|exact Ha]. cbv beta. intros a [Hin Hle].
    unfold deploy_cluster_heads in Hin. rewrite map_map in Hin.
    apply in_map_iff in Hin. destruct Hin as (i & Ei & Hi).
    unfold head_place in Ei. cbn [ch_id ch_x ch_y] in Ei.
    apply in_seq in Hi. injection Ei as E1 E2 E3.
    split; [lia|]. split; [|exact Hle].
    rewrite (surjective_pairing (location a)), <- E1, <- E2, <- E3.
    now rewrite Nat2Z.inj_succ.
  - intro d. apply cycle_alerts_distinct.
    rewrite (place_ids _ _ (head_static_places _ _
               (run_heads np_sqrt ai_model cfg ds (deployed dd)))).
    rewrite (place_ids _ _ Hp), (deploy_head_ids cfg).
    apply NoDup_map_S, seq_NoDup.
Qed.

End Alerts.

(** ** The two records of cluster membership *)

Section Registry.

Variable np_sqrt : Q -> Q.
Variable ai_model : Q * Q * Q * Q -> option (label * Q).
Variable cfg : config.

Local Abbreviation run := (run_perfect_simulation np_sqrt ai_model cfg).
Local Abbreviation deployed := (_deploy_perfect_network np_sqrt cfg).

(** The ids of the nodes of [nodes] that report to the head with id [c]. *)
Local Abbreviation reporting c nodes :=
  (map node_id (filter (fun n => head_eqb (cluster_head_id n) c) nodes)).

(** A head's id and member list. *)
Local Abbreviation roll := (fun h : ClusterHead => (ch_id h, cluster_members h)).

Lemma add_cluster_member_appends ch n heads :
  In ch heads ->
  unlisted [n] heads ->
  add_cluster_member (ch_id ch) n heads
  = (set_cluster_head_id n (Some (ch_id ch)),
     map (fun h =>
            if Nat.eqb (ch_id h) (ch_id ch)
            then mkHead (ch_id h) (ch_x h) (ch_y h) (ch_is_active h)
                        (ch_battery h) (cluster_members h ++ [node_id n])
                        (prediction_history h) (data_buffer h)
            else h) heads).
Proof.
  intros Hin Hun. unfold add_cluster_member.
  destruct (find (fun h => Nat.eqb (ch_id h) (ch_id ch)) heads) as [ch0|] eqn:E.
  2:{ exfalso. apply (find_none _ _ E) in Hin. now rewrite Nat.eqb_refl in Hin. }
  apply find_some in E. destruct E as [Hin0 _].
  destruct (existsb (Nat.eqb (node_id n)) (cluster_members ch0)) eqn:Ex;
    [|reflexivity].
  exfalso. apply existsb_exists in Ex. destruct Ex as (k & Hk & Hek).
  apply Nat.eqb_eq in Hek. subst k.
  exact (Hun ch0 n Hin0 (or_introl eq_refl) Hk).
Qed.

Lemma assign_clusters_rolls nodes heads :
  NoDup (map node_id nodes) ->
  unlisted nodes heads ->
  Forall (fun n => cluster_head_id n = None) nodes ->
  let r := _assign_clusters np_sqrt cfg nodes heads in
  map roll (snd r)
  = map (fun h => (ch_id h, cluster_members h ++ reporting (ch_id h) (fst r))) heads.
Proof.
  revert heads. induction nodes as [|n rest IH]; intros heads Hnd Hun Hnone;
    cbn [_assign_clusters].
  - cbn [fst snd filter map]. apply map_ext. intro h. now rewrite app_nil_r.
  - cbn [map] in Hnd. inversion Hnd as [|? ? Hfresh Hnd']; subst.
    inversion Hnone as [|? ? Hn0 Hnone']; subst.
    pose proof (nearest_head_found np_sqrt cfg n heads) as Hscan.
    destruct (nearest_head np_sqrt cfg n heads None None) as [ch|].
    + cbn [scanned] in Hscan. destruct Hscan as (_ & Hin & _).
      rewrite (add_cluster_member_appends ch n heads Hin)
        by (intros h m Hh [<-|[]]; apply Hun; [exact Hh|now left]).
      match goal with
      | |- context [_assign_clusters np_sqrt cfg rest ?hs] =>
          specialize (IH hs Hnd'); set (heads1 := hs) in *
      end.
      assert (Hun1 : unlisted rest heads1).
      { intros h m Hh Hm Hk. unfold heads1 in Hh. apply in_map_iff in Hh.
        destruct Hh as (h0 & <- & Hh0).
        destruct (Nat.eqb (ch_id h0) (ch_id ch)).
        - cbn [cluster_members] in Hk. apply in_app_or in Hk.
          destruct Hk as [Hk|[Hk|[]]].
          + exact (Hun h0 m Hh0 (or_intror Hm) Hk).
          + apply Hfresh. rewrite Hk. now apply in_map.
        - exact (Hun h0 m Hh0 (or_intror Hm) Hk). }
      specialize (IH Hun1 Hnone'). cbv zeta in IH.
      destruct (_assign_clusters np_sqrt cfg rest heads1) as [rest' heads''].
      cbn [fst snd] in *. rewrite IH. unfold heads1. rewrite map_map.
      apply map_ext. intro h.
      cbn [filter cluster_head_id set_cluster_head_id head_eqb].
      rewrite (Nat.eqb_sym (ch_id ch) (ch_id h)).
      destruct (Nat.eqb (ch_id h) (ch_id ch)) eqn:E;
        cbn [ch_id cluster_members map node_id set_cluster_head_id].
      * now rewrite <- app_assoc.
      * reflexivity.
    + assert (Hun1 : unlisted rest heads).
      { intros h m Hh Hm. apply Hun; [exact Hh|now right]. }
      specialize (IH heads Hnd' Hun1 Hnone'). cbv zeta in IH.
      destruct (_assign_clusters np_sqrt cfg rest heads) as [rest' heads'].
      cbn [fst snd] in *. rewrite IH. apply map_ext. intro h.
      cbn [filter]. rewrite Hn0. reflexivity.
Qed.

Lemma reporting_static c (l l' : list SensorNode) :
  map static l' = map static l -> reporting c l' = reporting c l.
Proof.
  revert l'. induction l as [|n rest IH]; intros [|n' rest'] H;
    try discriminate; [reflexivity|].
  cbn [map] in H.
  assert (Hn : static n' = static n) by congruence.
  assert (Hrest : map static rest' = map static rest) by congruence.
  clear H. cbn [filter].
  assert (Hid : node_id n' = node_id n) by (unfold static in Hn; congruence).
  assert (Hc : cluster_head_id n' = cluster_head_id n)
    by (unfold static in Hn; congruence).
  rewrite Hc.
  destruct (head_eqb (cluster_head_id n) c); cbn [map];
    [rewrite Hid; f_equal|]; now apply IH.
Qed.

Lemma rolls_static (l l' : list ClusterHead) :
  map head_static l' = map head_static l -> map roll l' = map roll l.
Proof.
  intro H.
  transitivity (map (fun p : nat * Q * Q * bool * Q * list nat =>
                       let '(i, _, _, _, _, m) := p in (i, m))
                    (map head_static l')); [now rewrite map_map|].
  rewrite H. now rewrite map_map.
Qed.

Lemma rolls_forall (l l0 : list ClusterHead) (nodes0 nodes : list SensorNode) :
  map roll l = map (fun h => (ch_id h, reporting (ch_id h) nodes0)) l0 ->
  map static nodes = map static nodes0 ->
  Forall (fun h => cluster_members h = reporting (ch_id h) nodes) l.
Proof.
  intros Hrs Hs. revert l0 Hrs.
  induction l as [|h l IH]; intros [|h0 l0] Hrs; try discriminate; constructor.
  - cbn [map] in Hrs.
    assert (Hi : ch_id h = ch_id h0) by congruence.
    assert (Hm : cluster_members h = reporting (ch_id h0) nodes0) by congruence.
    rewrite Hm, Hi. symmetry. now apply reporting_static.
  - cbn [map] in Hrs. apply (IH l0). congruence.
Qed.

Lemma deployed_rolls dd :
  let s := deployed dd in
  map roll (cluster_heads s)
  = map (fun h => (ch_id h, reporting (ch_id h) (sensor_nodes s)))
        (deploy_cluster_heads cfg)
  /\ map node_id (sensor_nodes s) = map S (seq 0 (cfg_sensor_nodes cfg)).
Proof.
  unfold _deploy_perfect_network.
  destruct (deploy_nodes_fresh cfg dd (camera_quota cfg) (seq 0 (cfg_sensor_nodes cfg)) [])
    as [Hids Hnone].
  assert (Hnd : NoDup (map node_id (deploy_sensor_nodes cfg dd))).
  { unfold deploy_sensor_nodes. rewrite Hids. apply NoDup_map_S, seq_NoDup. }
  assert (Hun : unlisted (deploy_sensor_nodes cfg dd) (deploy_cluster_heads cfg)).
  { intros h n Hh _. unfold deploy_cluster_heads in Hh. apply in_map_iff in Hh.
    destruct Hh as (i & <- & _). intros []. }
  pose proof (assign_clusters_rolls (deploy_sensor_nodes cfg dd)
                (deploy_cluster_heads cfg) Hnd Hun Hnone) as Hr.
  pose proof (assign_clusters_active np_sqrt cfg (deploy_sensor_nodes cfg dd)
                (deploy_cluster_heads cfg)) as Ha.
  cbv zeta in Hr.
  assert (Hid : map node_id (fst (_assign_clusters np_sqrt cfg (deploy_sensor_nodes cfg dd)
                                    (deploy_cluster_heads cfg)))
                = map node_id (deploy_sensor_nodes cfg dd)).
  { clear. generalize (deploy_cluster_heads cfg) as heads.
    induction (deploy_sensor_nodes cfg dd) as [|n rest IH]; intro heads;
      cbn [_assign_clusters]; [reflexivity|].
    destruct (nearest_head np_sqrt cfg n heads None None) as [ch|].
    - assert (E : node_id (fst (add_cluster_member (ch_id ch) n heads)) = node_id n).
      { unfold add_cluster_member.
        destruct (find _ heads) as [c0|]; [|reflexivity].
        now destruct (existsb _ (cluster_members c0)). }
      destruct (add_cluster_member (ch_id ch) n heads) as [n' heads'].
      specialize (IH heads').
      destruct (_assign_clusters np_sqrt cfg rest heads') as [rest' heads''].
      cbn [fst map] in *. now rewrite E, IH.
    - specialize (IH heads).
      destruct (_assign_clusters np_sqrt cfg rest heads) as [rest' heads'].
      cbn [fst map] in *. now rewrite IH. }
  destruct (_assign_clusters np_sqrt cfg (deploy_sensor_nodes cfg dd)
                             (deploy_cluster_heads cfg)) as [nodes heads].
  cbn [fst snd cluster_heads sensor_nodes] in *. split.
  - rewrite Hr. unfold deploy_cluster_heads. rewrite !map_map.
    apply map_ext. intro i. reflexivity.
  - rewrite Hid. exact Hids.
Qed.

Lemma listed_reporting (h : ClusterHead) (nodes : list SensorNode) n :
  NoDup (map node_id nodes) ->
  cluster_members h = reporting (ch_id h) nodes ->
  In n nodes ->
  listed h n = head_eqb (cluster_head_id n) (ch_id h).
Proof.
  intros Hnd Hm Hin. unfold listed. rewrite Hm.
  destruct (head_eqb (cluster_head_id n) (ch_id h)) eqn:E.
  - apply existsb_exists. exists (node_id n). split; [|apply Nat.eqb_refl].
    apply in_map. apply filter_In. now split.
  - destruct (existsb _ _) eqn:Ex; [|reflexivity].
    apply existsb_exists in Ex. destruct Ex as (k & Hk & Hek).
    apply Nat.eqb_eq in Hek. subst k.
    apply in_map_iff in Hk. destruct Hk as (m & Hid & Hm').
    apply filter_In in Hm'. destruct Hm' as [Hm' Em].
    assert (m = n); [|subst m; congruence].
    clear - Hnd Hid Hm' Hin. induction nodes as [|a l IH]; [contradiction|].
    cbn [map] in Hnd. inversion Hnd as [|? ? Hfresh Hnd']; subst.
    destruct Hm' as [->|Hm'], Hin as [->|Hin]; try reflexivity.
    + exfalso. apply Hfresh. rewrite Hid. now apply in_map.
    + exfalso. apply Hfresh. rewrite <- Hid. now apply in_map.
    + now apply IH.
Qed.

(** X18. In every state a run reaches, the member list of each cluster head is
    exactly the list of the ids of the nodes whose cluster_head_id names
    that head, in node order; so the status report of a head gives the same
    number, that of the nodes assigned to it, as member_count and as
    active_members, and no node is listed by two heads. *)
Theorem cluster_registry_consistent (dd : deploy_draws) (ds : list cycle_draws) :
  let s := fst (fst (run ds (deployed dd))) in
  Forall (fun h =>
            cluster_members h = reporting (ch_id h) (sensor_nodes s)
            /\ get_cluster_status h (sensor_nodes s)
               = (length (reporting (ch_id h) (sensor_nodes s)),
                  length (reporting (ch_id h) (sensor_nodes s))))
         (cluster_heads s)
  /\ (forall h1 h2 n, In h1 (cluster_heads s) -> In h2 (cluster_heads s) ->
        In n (sensor_nodes s) ->
        listed h1 n = true -> listed h2 n = true -> ch_id h1 = ch_id h2).
Proof.
  intro s.
  pose proof (run_static np_sqrt ai_model cfg ds (deployed dd)) as Hs.
  pose proof (run_heads np_sqrt ai_model cfg ds (deployed dd)) as Hh.
  fold s in Hs, Hh.
  destruct (deployed_rolls dd) as [Hr Hids]. cbv zeta in Hr, Hids.
  assert (Hnd : NoDup (map node_id (sensor_nodes s))).
  { assert (E : map node_id (sensor_nodes s)
                = map node_id (sensor_nodes (deployed dd))).
    { transitivity (map (fun p : nat * Q * Q * bool * bool * option nat =>
                           let '(i, _, _, _, _, _) := p in i)
                        (map static (sensor_nodes s))); [now rewrite map_map|].
      rewrite Hs. now rewrite map_map. }
    rewrite E, Hids. apply NoDup_map_S, seq_NoDup. }
  assert (Hact : Forall (fun n => is_active n = true) (sensor_nodes s))
    by exact (nodes_always_active np_sqrt ai_model cfg dd ds).
  assert (Hroll : Forall (fun h => cluster_members h
                                   = reporting (ch_id h) (sensor_nodes s))
                         (cluster_heads s)).
  { pose proof (rolls_static _ _ Hh) as Hrs. rewrite Hr in Hrs.
    exact (rolls_forall _ _ _ _ Hrs Hs). }
  split.
  - eapply Forall_impl; [|exact Hroll]. cbv beta. intros h Hm.
    split; [exact Hm|]. unfold get_cluster_status. rewrite Hm at 1.
    f_equal. rewrite length_map. f_equal.
    clear - Hnd Hm Hact.
    assert (H : forall n, In n (sensor_nodes s) ->
              listed h n && is_active n = head_eqb (cluster_head_id n) (ch_id h)).
    { intros n Hn. rewrite (listed_reporting h (sensor_nodes s) n Hnd Hm Hn).
      rewrite (proj1 (Forall_forall _ _) Hact n Hn). apply andb_true_r. }
    revert H. generalize (sensor_nodes s) as l.
    induction l as [|a l IH]; intro H; [reflexivity|].
    cbn [filter]. rewrite (H a (or_introl eq_refl)).
    rewrite IH by (intros n Hn; apply H; now right). reflexivity.
  - intros h1 h2 n H1 H2 Hn L1 L2.
    rewrite (listed_reporting h1 (sensor_nodes s) n Hnd
               (proj1 (Forall_forall _ _) Hroll h1 H1) Hn) in L1.
    rewrite (listed_reporting h2 (sensor_nodes s) n Hnd
               (proj1 (Forall_forall _ _) Hroll h2 H2) Hn) in L2.
    unfold head_eqb in L1, L2. destruct (cluster_head_id n) as [c|]; [|discriminate].
    apply Nat.eqb_eq in L1, L2. congruence.
Qed.

End Registry.

(** Witness of [cluster_registry_consistent]: the shipped configuration
    after a cycle; node SN17 is listed by cluster head CH2 and reports
    to it. *)
Lemma cluster_registry_consistent_witness :
  let s := fst (fst (run_perfect_simulation floor_sqrt
                       (constant_classifier human (99 # 100)) SIMULATION_CONFIG
                       [spawning_cycle human 450 30]
                       (_deploy_perfect_network floor_sqrt SIMULATION_CONFIG
                                                level_draws))) in
  Forall (fun h => listed h (node_of s 17) = true -> ch_id h = 2%nat)
         (cluster_heads s).
Proof.
  intro s. apply Forall_forall. intros h Hh Hl.
  destruct (cluster_registry_consistent floor_sqrt
              (constant_classifier human (99 # 100)) SIMULATION_CONFIG level_draws
              [spawning_cycle human 450 30]) as [_ H].
  apply (H h (head_of s 2) (node_of s 17) Hh).
  - unfold head_of. apply nth_In. vm_compute. lia.
  - unfold node_of. apply nth_In. vm_compute. lia.
  - exact Hl.
  - vm_compute. reflexivity.
Defined.

(** ** Cameras under data collection *)

Section Cameras.

Variable cfg : config.

Lemma activations_camera todo n :
  let n' := fold_left (fun m i => activate_node cfg (position i) (i_type i) m) todo n in
  camera_module n' = camera_module n /\ camera_status n' = camera_status n.
Proof.
  revert n. induction todo as [|i rest IH]; intro n; cbn [fold_left]; [now split|].
  destruct (IH (activate_node cfg (position i) (i_type i) n)) as [-> ->].
  unfold activate_node. now destruct (in_activation cfg n (position i)).
Qed.

Lemma should_activate_essentials n (l l' : list intrusion) :
  map essentials l' = map essentials l ->
  should_activate cfg n l' = should_activate cfg n l.
Proof.
  intro H. unfold should_activate.
  destruct (intrusion_detected (sensor_readings n)); [reflexivity|].
  revert l' H. induction l as [|i rest IH]; intros [|i' rest'] H;
    try discriminate; [reflexivity|].
  cbn [map] in H. cbn [existsb].
  assert (Hp : position i' = position i) by (unfold essentials in H; congruence).
  assert (Ht : i_type i' = i_type i) by (unfold essentials in H; congruence).
  rewrite Hp, Ht. f_equal. apply IH. congruence.
Qed.

Lemma collect_node_camera ints m st :
  is_active m = true -> has_camera m = true -> camera_module m = Some st ->
  camera_status (collect_node cfg ints m) = st
  /\ camera_module (collect_node cfg ints m)
     = Some (if cam_eqb st FAULTY then FAULTY
             else if should_activate cfg m ints then RECORDING
                  else if cam_eqb st RECORDING then IDLE else st).
Proof.
  intros Ha Hc Hm.
  destruct m as [id px py cam act bat chid r cmod cstat th].
  cbn in Ha, Hc, Hm. subst.
  unfold collect_node, drive_camera, update_camera_status,
    get_real_time_sensor_data, _update_sensor_history, should_activate.
  cbn.
  destruct st; destruct (intrusion_detected r); cbn;
    try destruct (existsb _ ints); cbn; split; reflexivity.
Qed.

(** X19. What one data collection does to the camera of an active camera node
    whose module it finds in status [st]: the camera_status the node
    reports afterwards is [st], the status before the collection; a faulty
    module stays faulty; and a module that is not faulty records afterwards
    exactly when a current intrusion activates the node or lies within 1.2
    times its detection range of it. *)
Theorem camera_follows_intrusions (s : simulator) :
  Forall2 (fun n n' =>
             forall st, is_active n = true -> has_camera n = true ->
                        camera_module n = Some st ->
                        camera_status n' = st
                        /\ (st = FAULTY -> camera_module n' = Some FAULTY)
                        /\ (st <> FAULTY ->
                            (camera_module n' = Some RECORDING
                             <-> camera_called cfg n (current_intrusions s) = true)))
          (sensor_nodes s)
          (sensor_nodes (collect_real_time_data cfg s)).
Proof.
  unfold collect_real_time_data.
  destruct (synthesize cfg (reset_flags (sensor_nodes s)) (current_intrusions s))
    as [nodes ints] eqn:E. cbn [sensor_nodes].
  assert (En : nodes = fst (synthesize cfg (reset_flags (sensor_nodes s))
                                       (current_intrusions s))) by now rewrite E.
  assert (Ei : map essentials ints = map essentials (current_intrusions s)).
  { replace ints with (snd (synthesize cfg (reset_flags (sensor_nodes s))
                                       (current_intrusions s))) by now rewrite E.
    apply synthesize_essentials. }
  unfold synthesize in En. rewrite synthesize_as_map in En.
  unfold reset_flags in En. rewrite map_map in En. subst nodes.
  rewrite map_map. apply Forall2_map_self. intros n st Ha Hc Hm.
  set (n0 := set_readings n (set_intrusion_detected (sensor_readings n) false)).
  set (m := fold_left (fun m i => activate_node cfg (position i) (i_type i) m)
                      (current_intrusions s) n0).
  destruct (activations_node cfg (current_intrusions s) n0) as (Hs & Hf & _).
  destruct (activations_camera (current_intrusions s) n0) as (Hcm & _).
  fold m in Hs, Hf, Hcm.
  rewrite (activated_by_static cfg n n0 (current_intrusions s) eq_refl) in Hf.
  cbn [n0 sensor_readings set_readings intrusion_detected set_intrusion_detected
       camera_module orb] in Hf, Hcm.
  assert (Hx : x m = x n) by (unfold static in Hs; cbn in Hs; congruence).
  assert (Ham : is_active m = true) by (unfold static in Hs; cbn in Hs; congruence).
  assert (Hcam : has_camera m = true) by (unfold static in Hs; cbn in Hs; congruence).
  assert (Hcall : should_activate cfg m ints
                  = camera_called cfg n (current_intrusions s)).
  { rewrite (should_activate_essentials _ _ _ Ei).
    unfold should_activate, camera_called. rewrite Hf, Hx.
    now destruct (activated_by cfg n (current_intrusions s)). }
  rewrite Hm in Hcm.
  destruct (collect_node_camera ints m st Ham Hcam Hcm) as [Hst Hmod].
  rewrite Hcall in Hmod. split; [exact Hst|]. rewrite Hmod.
  destruct (camera_called cfg n (current_intrusions s)); destruct st;
    cbn [cam_eqb]; (split; [try discriminate; try reflexivity|]);
    intro Hnf; try (now contradiction Hnf);
    split; intro H; try reflexivity; try discriminate; try exact H.
Qed.

End Cameras.

(** Witness of [camera_follows_intrusions]: the first collection of the
    shipped configuration with a human intrusion at 450 m, and the camera
    node SN17 at 500 m, which that intrusion activates. *)
Lemma camera_follows_intrusions_witness :
  let s := _simulate_intrusions (spawning_cycle human 450 30)
             (_deploy_perfect_network floor_sqrt SIMULATION_CONFIG level_draws) in
  let n' := node_of (collect_real_time_data SIMULATION_CONFIG s) 17 in
  camera_status n' = IDLE /\ camera_module n' = Some RECORDING.
Proof.
  intros s n'.
  pose proof (Forall2_nth_rel _ _ _ 16 (node_of s 0) (node_of s 0)
                (camera_follows_intrusions SIMULATION_CONFIG s)) as H.
  destruct (H ltac:(vm_compute; lia) IDLE) as (Hst & _ & Hrec);
    [reflexivity|reflexivity|reflexivity|].
  split; [exact Hst|]. apply Hrec; [discriminate|]. vm_compute. reflexivity.
Defined.

(** ** The energy of a cluster head *)

Section HeadEnergy.

Variable np_sqrt : Q -> Q.
Variable cfg : config.

Local Abbreviation updates k ch := (Nat.iter k simulate_energy_consumption ch).

Lemma head_consumption_floor ch :
  ch_battery (simulate_energy_consumption ch)
  <= py_max 0 (ch_battery ch - (5 # 100)).
Proof.
  unfold simulate_energy_consumption. cbn [ch_battery].
  apply py_max_upper; [apply py_max_lower|].
  eapply Qle_trans; [|apply py_max_right].
  destruct (data_buffer ch) as [|c rest]; [lra|].
  assert (0 <= inject_Z (Z.of_nat (length (c :: rest)))).
  { change 0 with (inject_Z 0). rewrite <- Zle_Qle. lia. }
  nra.
Qed.

Lemma head_battery_after k ch :
  ch_battery (updates k ch)
  <= py_max 0 (ch_battery ch - (5 # 100) * inject_Z (Z.of_nat k)).
Proof.
  induction k as [|k IH].
  - cbn [Nat.iter nat_rect Z.of_nat]. eapply Qle_trans; [|apply py_max_right].
    unfold inject_Z. rewrite Qmult_0_r. lra.
  - change (updates (S k) ch) with (simulate_energy_consumption (updates k ch)).
    eapply Qle_trans; [apply head_consumption_floor|].
    apply py_max_upper; [apply py_max_lower|].
    rewrite Nat2Z.inj_succ. unfold Z.succ. rewrite inject_Z_plus.
    change (inject_Z 1) with 1.
    set (q := inject_Z (Z.of_nat k)) in *.
    set (b := ch_battery (updates k ch)) in *.
    destruct (Qlt_le_dec (ch_battery ch - (5 # 100) * q) 0) as [Hn|Hp].
    + eapply Qle_trans; [|apply py_max_lower].
      assert (py_max 0 (ch_battery ch - (5 # 100) * q) <= 0)
        by (apply py_max_upper; lra).
      lra.
    + eapply Qle_trans; [|apply py_max_right].
      assert (py_max 0 (ch_battery ch - (5 # 100) * q)
              <= ch_battery ch - (5 # 100) * q)
        by (apply py_max_upper; lra).
      lra.
Qed.

Lemma head_stays_inactive ch :
  ch_is_active ch = false ->
  forall j, ch_is_active (updates j ch) = false.
Proof.
  intros H j. induction j as [|j IH]; [exact H|].
  change (updates (S j) ch) with (simulate_energy_consumption (updates j ch)).
  unfold simulate_energy_consumption at 1. cbn [ch_is_active].
  rewrite IH. now destruct (Qltb _ 5).
Qed.

(** X20. A cluster head never comes back: once its own energy update has
    deactivated it, no further update reactivates it, and it gives no
    snapshot and touches no node. Whatever it buffers, a head that starts
    with a battery of at most 100 is deactivated after 1901 updates, each
    costing it at least 0.05. *)
Theorem cluster_head_runs_down (ch : ClusterHead) (k : nat) :
  (ch_is_active (updates k ch) = false ->
   forall j nodes,
     ch_is_active (updates (j + k) ch) = false
     /\ collect_cluster_data np_sqrt cfg (updates (j + k) ch) nodes
        = (None, nodes, updates (j + k) ch))
  /\ (ch_battery ch <= 100 -> (1901 <= k)%nat -> ch_is_active (updates k ch) = false).
Proof.
  split.
  - intros H j nodes.
    assert (Hj : ch_is_active (updates (j + k) ch) = false).
    { rewrite Nat.iter_add. now apply head_stays_inactive. }
    split; [exact Hj|]. unfold collect_cluster_data. now rewrite Hj.
  - intros Hb Hk. destruct k as [|k]; [lia|].
    pose proof (head_battery_after (S k) ch) as Hafter.
    change (updates (S k) ch) with (simulate_energy_consumption (updates k ch)) in *.
    set (h := updates k ch) in *.
    unfold simulate_energy_consumption at 1. cbn [ch_is_active].
    match goal with
    | |- (if Qltb ?b 5 then _ else _) = false =>
        destruct (Qltb b 5) eqn:E; [reflexivity|]; apply Qltb_ge in E
    end.
    exfalso. unfold simulate_energy_consumption in Hafter. cbn [ch_battery] in Hafter.
    assert (Hq : 1901 <= inject_Z (Z.of_nat (S k))).
    { change 1901 with (inject_Z 1901). rewrite <- Zle_Qle. lia. }
    set (q := inject_Z (Z.of_nat (S k))) in *.
    assert (Hm : py_max 0 (ch_battery ch - (5 # 100) * q) <= 495 # 100).
    { apply py_max_upper; lra. }
    eapply Qle_trans in Hm; [|exact Hafter].
    eapply Qle_trans in Hm; [|exact E].
    revert Hm. vm_compute. intro Hm. now apply Hm.
Qed.

End HeadEnergy.

(** Witness of [cluster_head_runs_down]: a freshly deployed head of the
    shipped configuration, after 1901 energy updates. *)
Lemma cluster_head_runs_down_witness :
  ch_is_active
    (Nat.iter 1901 simulate_energy_consumption
       (head_of (_deploy_perfect_network floor_sqrt SIMULATION_CONFIG level_draws) 1))
  = false.
Proof.
  apply (cluster_head_runs_down floor_sqrt SIMULATION_CONFIG).
  - vm_compute; discriminate.
  - lia.
Defined.
